(** * Reinforcement-learning notebooks: tabular SARSA / Q-learning, DQN,
      REINFORCE and one-step Actor-Critic

    A shallow embedding of the agents of the notebooks.

    - Python floats are idealised as exact rationals ([Q]); every number the
      concrete examples below use (0.5, 1.5, 1.75, 2.0, ...) is a binary
      fraction, so the idealisation is exact there.
    - The discretizer of the tabular agents is the exception: there rounding
      decides which cell an observation falls in, so its arithmetic is
      IEEE 754 binary64 ([F64], on the Standard Library's [SpecFloat]), for
      an observation space and observations of dtype float64, and
      [astype(np.int)] is the conversion to int64 of x86-64.
    - The random number generator is modelled by finite weighted
      distributions ([Prob.dist]): a program that draws random numbers
      denotes the list of its possible results with their probabilities.
      A raised exception (ValueError, IndexError) is lost probability mass.
    - The environment, the neural networks and the optimizers are external
      collaborators and appear as records of operations.
    - [while True] loops run on fuel; printing and plotting are left out. *)

From Stdlib Require Import List ZArith QArith Qround Qminmax Qpower Lia Lqa Bool Arith.
From Stdlib Require Import Floats.SpecFloat.
Import ListNotations.

Local Open Scope Q_scope.

(** ** Finite weighted distributions *)

Module Prob.

Definition dist (A : Type) : Type := list (Q * A).

Definition ret {A} (a : A) : dist A := [(1, a)].

Definition scale {B} (w : Q) (d : dist B) : dist B :=
  map (fun vb => (w * fst vb, snd vb)) d.

Definition bind {A B} (d : dist A) (f : A -> dist B) : dist B :=
  flat_map (fun wa => scale (fst wa) (f (snd wa))) d.

(** A raised exception: no result at all. *)
Definition raise {A} : dist A := [].

Definition lift_opt {A} (o : option A) : dist A :=
  match o with Some a => ret a | None => raise end.

(** Every element of [xs] with the same weight [1 / len(xs)]. *)
Definition uniform {A} (xs : list A) : dist A :=
  map (fun x => (1 / inject_Z (Z.of_nat (length xs)), x)) xs.

(** [np.random.random() < eps]: the draw is uniform on [[0, 1)], so the test
    succeeds with probability [eps] clamped to [[0, 1]]. *)
Definition random_lt (eps : Q) : dist bool :=
  if Qle_bool eps 0 then ret false
  else if Qle_bool 1 eps then ret true
  else [(eps, true); (1 - eps, false)].

(** [np.random.randint(lo, hi)]: uniform on [lo .. hi-1]; ValueError when
    the range is empty. *)
Definition randint (lo hi : nat) : dist nat := uniform (seq lo (hi - lo)).

(** [np.random.choice(range(n), 1, p=probabilities)[0]]; ValueError unless
    [p] has [n] entries, none negative, that sum to 1. *)
Definition choice (n : nat) (p : list Q) : dist nat :=
  if Nat.eqb (length p) n
     && forallb (Qle_bool 0) p
     && Qeq_bool (fold_right Qplus 0 p) 1
  then combine p (seq 0 n) else raise.

(** Every way to take the elements of one position out of a list. *)
Fixpoint picks {A} (l : list A) : list (A * list A) :=
  match l with
  | [] => []
  | x :: xs => (x, xs) :: map (fun yr => (fst yr, x :: snd yr)) (picks xs)
  end.

(** The ordered selections of [k] positions of [l], without replacement. *)
Fixpoint arrangements {A} (k : nat) (l : list A) : list (list A) :=
  match k with
  | O => [[]]
  | S k' => flat_map (fun xr => map (cons (fst xr)) (arrangements k' (snd xr)))
                     (picks l)
  end.

(** [random.sample(population, k)]; ValueError when [k > len(population)]. *)
Definition random_sample {A} (population : list A) (k : nat) : dist (list A) :=
  if Nat.ltb (length population) k then raise
  else uniform (arrangements k population).

Definition expect {A} (d : dist A) (g : A -> Q) : Q :=
  fold_right (fun wa acc => fst wa * g (snd wa) + acc) 0 d.

(** Probability that the result satisfies [P]. *)
Definition pr {A} (d : dist A) (P : A -> bool) : Q :=
  expect d (fun a => if P a then 1 else 0).

(** The result listed at position [n]. *)
Definition nth_result {A} (n : nat) (d : dist A) (default : A) : A :=
  snd (nth n d (0, default)).

(** [a] is listed among the results of [d]. *)
Definition supp {A} (d : dist A) (a : A) : Prop :=
  exists w, In (w, a) d.

End Prob.

Import Prob.

Declare Scope dist_scope.
Delimit Scope dist_scope with dist.
Notation "x <- c ;; k" := (bind c (fun x => k))
  (at level 61, c at next level, right associativity) : dist_scope.
Notation "' pat <- c ;; k" := (bind c (fun x => match x with pat => k end))
  (at level 61, pat pattern, c at next level, right associativity) : dist_scope.

(** ** numpy helpers *)

Module Np.

(** Element-wise binary operation on arrays of one shape. *)
Fixpoint zip_with {A B C} (f : A -> B -> C) (xs : list A) (ys : list B) : list C :=
  match xs, ys with
  | x :: xs', y :: ys' => f x y :: zip_with f xs' ys'
  | _, _ => []
  end.

(** [np.max] of a one-dimensional array; ValueError on an empty one. *)
Definition max (l : list Q) : option Q :=
  match l with
  | [] => None
  | x :: xs => Some (fold_left Qmax xs x)
  end.

(** Index of the first occurrence of the maximum, starting the count at [i]. *)
Fixpoint argmax_from (i : nat) (best : nat) (bv : Q) (l : list Q) : nat :=
  match l with
  | [] => best
  | x :: xs => if Qlt_le_dec bv x then argmax_from (S i) i x xs
               else argmax_from (S i) best bv xs
  end.

(** [np.argmax]: the first index that holds the maximum. *)
Definition argmax (l : list Q) : option nat :=
  match l with
  | [] => None
  | x :: xs => Some (argmax_from 1 0%nat x xs)
  end.

(** [l[i] = v] on a list that has position [i]. *)
Fixpoint list_set {A} (l : list A) (i : nat) (v : A) : list A :=
  match l, i with
  | [], _ => []
  | _ :: xs, O => v :: xs
  | x :: xs, S i' => x :: list_set xs i' v
  end.

(** [sum] of a list of floats. *)
Definition sum_list (l : list Q) : Q := fold_right Qplus 0 l.

(** [enumerate]. *)
Definition enumerate {A} (l : list A) : list (nat * A) :=
  combine (seq 0 (length l)) l.

(** One index of one axis of length [n]: Python counts negative indices
    from the end; anything else is an IndexError. *)
Definition norm_index (n i : Z) : option Z :=
  if (0 <=? i)%Z && (i <? n)%Z then Some i
  else if (- n <=? i)%Z && (i <? 0)%Z then Some (i + n)%Z
  else None.

(** A full index tuple against a shape. *)
Fixpoint norm_indices (shape idx : list Z) : option (list Z) :=
  match shape, idx with
  | [], [] => Some []
  | n :: shape', i :: idx' =>
      match norm_index n i, norm_indices shape' idx' with
      | Some j, Some js => Some (j :: js)
      | _, _ => None
      end
  | _, _ => None
  end.

End Np.

(** ** IEEE 754 binary64 *)

Module F64.

Definition prec : Z := 53.
Definition emax : Z := 1024.

Definition float : Type := spec_float.

(** The double nearest to the integer [z] (ties to even). *)
Definition of_Z (z : Z) : float := binary_normalize prec emax z 0 false.

(** The double nearest to the rational [q] (ties to even): [q] itself when
    [q] is a double. *)
Definition of_Q (q : Q) : float :=
  match Qnum q with
  | Z0 => S754_zero false
  | Zpos n =>
      let '(m, e, l) := SFdiv_core_binary prec emax (Zpos n) 0 (Zpos (Qden q)) 0 in
      binary_round_aux prec emax false m e l
  | Zneg n =>
      let '(m, e, l) := SFdiv_core_binary prec emax (Zpos n) 0 (Zpos (Qden q)) 0 in
      binary_round_aux prec emax true m e l
  end.

Definition sub : float -> float -> float := SFsub prec emax.
Definition div : float -> float -> float := SFdiv prec emax.

Definition vsub : list float -> list float -> list float := Np.zip_with sub.
Definition vdiv : list float -> list float -> list float := Np.zip_with div.

Definition int64_min : Z := - 2 ^ 63.
Definition int64_max : Z := 2 ^ 63 - 1.

(** [x.astype(np.int)] on one double: truncation toward zero; what does
    not fit into an int64 (infinities and nan among it) gives the smallest
    int64. *)
Definition astype_int (x : float) : Z :=
  match x with
  | S754_zero _ => 0
  | S754_finite s m e =>
      let magnitude := match e with
                       | Zneg k => Z.shiftr (Zpos m) (Zpos k)
                       | _ => Z.shiftl (Zpos m) e
                       end in
      let z := if s then Z.opp magnitude else magnitude in
      if (int64_min <=? z)%Z && (z <=? int64_max)%Z then z else int64_min
  | _ => int64_min
  end.

End F64.

(** ** The environment (external collaborator) *)

Record Env : Type := mkEnv {
  env_state : Type;
  obs_low : list Q;                      (* env.observation_space.low *)
  obs_high : list Q;                     (* env.observation_space.high *)
  action_n : nat;                        (* env.action_space.n *)
  env_reset : env_state -> dist (env_state * list Q);
  env_step : env_state -> nat -> dist (env_state * list Q * Q * bool);
  env_render : env_state -> env_state;
  env_close : env_state -> env_state
}.

(** ** Tabular agents: the code SarsaAgent and QLearningAgent share *)

Module Tabular.

Record Agent (env : Env) : Type := mkAgent {
  world : env_state env;                 (* the state behind self.env *)
  grid_size : list F64.float;
  shape : list Z;                        (* tuple(num_grids) *)
  q_table : list Z -> list Q;            (* grid cell |-> row of action values *)
  num_episodes : nat;
  epsilon : Q;
  alpha : Q;
  gamma : Q;
  verbose : Z;
  to_show : Z;
  stats_rewards : list Q                 (* self.stats['rewards'] *)
}.

Arguments world {env}.
Arguments grid_size {env}.
Arguments shape {env}.
Arguments q_table {env}.
Arguments num_episodes {env}.
Arguments epsilon {env}.
Arguments alpha {env}.
Arguments gamma {env}.
Arguments verbose {env}.
Arguments to_show {env}.
Arguments stats_rewards {env}.

(** [__init__(self, env, num_grids)] *)
Definition init (env : Env) (w : env_state env) (num_grids : list Z) : Agent env :=
  {| world := w;
     grid_size := F64.vdiv (F64.vsub (map F64.of_Q (obs_high env))
                                     (map F64.of_Q (obs_low env)))
                           (map F64.of_Z num_grids);
     shape := num_grids;
     q_table := fun _ => repeat 0 (action_n env);
     num_episodes := 5000;
     epsilon := 3 # 10;
     alpha := 1 # 10;
     gamma := 99 # 100;
     verbose := 200;
     to_show := 500;
     stats_rewards := [] |}.

Definition get_discrete_state {env} (self : Agent env) (state : list Q) : list Z :=
  let discrete_state :=
    F64.vdiv (F64.vsub (map F64.of_Q state) (map F64.of_Q (obs_low env)))
             (grid_size self) in
  map F64.astype_int discrete_state.

(** [self.q_table[discrete_state]]: the row of action values of a cell;
    [None] is numpy's IndexError. *)
Definition q_row {env} (self : Agent env) (discrete_state : list Z) : option (list Q) :=
  match Np.norm_indices (shape self) discrete_state with
  | Some cell => Some (q_table self cell)
  | None => None
  end.

(** [q_max_actions = [i for i, q in enumerate(q_values) if q == q_max]] *)
Definition q_max_actions (q_values : list Q) (q_max : Q) : list nat :=
  map fst (filter (fun iq => Qeq_bool (snd iq) q_max) (Np.enumerate q_values)).

Definition epsilon_greedy_selection (q_values : list Q) (epsilon : Q) : dist nat :=
  (explore <- random_lt epsilon ;;
   if explore : bool then randint 0 (length q_values)
   else
     q_max <- lift_opt (Np.max q_values) ;;
     let acts := q_max_actions q_values q_max in
     j <- randint 0 (length acts) ;;
     lift_opt (nth_error acts j))%dist.

(** [self.q_table[state + (action,)]] *)
Definition q_get {env} (self : Agent env) (state : list Z) (action : nat) : option Q :=
  match q_row self state with
  | Some row => nth_error row action
  | None => None
  end.

Definition set_q_table {env} (self : Agent env) (t : list Z -> list Q) : Agent env :=
  {| world := world self; grid_size := grid_size self; shape := shape self;
     q_table := t; num_episodes := num_episodes self;
     epsilon := epsilon self; alpha := alpha self; gamma := gamma self;
     verbose := verbose self; to_show := to_show self;
     stats_rewards := stats_rewards self |}.

Definition set_world {env} (self : Agent env) (w : env_state env) : Agent env :=
  {| world := w; grid_size := grid_size self; shape := shape self;
     q_table := q_table self; num_episodes := num_episodes self;
     epsilon := epsilon self; alpha := alpha self; gamma := gamma self;
     verbose := verbose self; to_show := to_show self;
     stats_rewards := stats_rewards self |}.

Definition set_stats {env} (self : Agent env) (r : list Q) : Agent env :=
  {| world := world self; grid_size := grid_size self; shape := shape self;
     q_table := q_table self; num_episodes := num_episodes self;
     epsilon := epsilon self; alpha := alpha self; gamma := gamma self;
     verbose := verbose self; to_show := to_show self;
     stats_rewards := r |}.

(** [self.q_table[state + (action,)] = v]; [None] is the IndexError. *)
Definition q_set {env} (self : Agent env) (state : list Z) (action : nat) (v : Q)
  : option (Agent env) :=
  match Np.norm_indices (shape self) state with
  | Some cell =>
      if Nat.ltb action (length (q_table self cell)) then
        Some (set_q_table self
                (fun c => if list_eq_dec Z.eq_dec c cell
                          then Np.list_set (q_table self cell) action v
                          else q_table self c))
      else None
  | None => None
  end.

(** [l[-1] += r]; [None] is the IndexError on an empty list. *)
Fixpoint add_to_last (l : list Q) (r : Q) : option (list Q) :=
  match l with
  | [] => None
  | [x] => Some [x + r]
  | x :: xs => match add_to_last xs r with
               | Some xs' => Some (x :: xs')
               | None => None
               end
  end.

(** [self.stats['rewards'][-1] += reward] *)
Definition stats_add {env} (self : Agent env) (reward : Q) : option (Agent env) :=
  match add_to_last (stats_rewards self) reward with
  | Some r => Some (set_stats self r)
  | None => None
  end.

(** The [while not done] loop of [act]; the flag tells whether the loop
    ended by itself ([true]) or was cut for lack of fuel ([false]). *)
Fixpoint act_loop {env} (fuel : nat) (self : Agent env) (state : list Q)
  : dist (Agent env * bool) :=
  match fuel with
  | O => ret (self, false)
  | S fuel' =>
      (let discrete_state := get_discrete_state self state in
       q_values <- lift_opt (q_row self discrete_state) ;;
       action <- epsilon_greedy_selection q_values 0 ;;
       '(w, state', reward, done) <- env_step env (world self) action ;;
       let self := set_world self (env_render env w) in
       if done : bool then ret (self, true) else act_loop fuel' self state')%dist
  end.

Definition act {env} (fuel : nat) (self : Agent env) : dist (Agent env * bool) :=
  ('(w, state) <- env_reset env (world self) ;;
   '(self, finished) <- act_loop fuel (set_world self w) state ;;
   ret (set_world self (env_close env (world self)), finished))%dist.

End Tabular.

(** ** SARSA *)

Module SarsaAgent.

Import Tabular.

(** [q_new] of the loop body. *)
Definition target (gamma reward : Q) (done : bool) (next_row : list Q) (new_action : nat)
  : option Q :=
  if done then Some reward
  else match nth_error next_row new_action with
       | Some q => Some (reward + gamma * q)
       | None => None
       end.

(** One pass through the body of the [while True] loop of [execute]:
    the agent afterwards and, unless the episode is over, the pair
    [(state, action)] of the next pass. *)
Definition step {env} (self : Agent env) (state : list Z) (action : nat)
  : dist (Agent env * option (list Z * nat)) :=
  ('(w, new_obs, reward, done) <- env_step env (world self) action ;;
   let self := set_world self w in
   let new_state := get_discrete_state self new_obs in
   next_row <- lift_opt (q_row self new_state) ;;
   new_action <- epsilon_greedy_selection next_row (epsilon self) ;;
   q_new <- lift_opt (target (gamma self) reward done next_row new_action) ;;
   q_old <- lift_opt (q_get self state action) ;;
   self <- lift_opt (q_set self state action (q_old + alpha self * (q_new - q_old))) ;;
   self <- lift_opt (stats_add self reward) ;;
   if done : bool then ret (self, None)
   else ret (self, Some (new_state, new_action)))%dist.

Fixpoint loop {env} (fuel : nat) (self : Agent env) (state : list Z) (action : nat)
  : dist (Agent env * bool) :=
  match fuel with
  | O => ret (self, false)
  | S fuel' =>
      ('(self, next) <- step self state action ;;
       match next with
       | None => ret (self, true)
       | Some (state', action') => loop fuel' self state' action'
       end)%dist
  end.

(** The body of [for episode in range(self.num_episodes)]. *)
Definition run_episode {env} (fuel : nat) (self : Agent env) (episode : nat)
  : dist (Agent env * bool) :=
  (let self := set_stats self (stats_rewards self ++ [0]) in
   '(w, obs) <- env_reset env (world self) ;;
   let self := set_world self w in
   let state := get_discrete_state self obs in
   row <- lift_opt (q_row self state) ;;
   action <- epsilon_greedy_selection row (epsilon self) ;;
   '(self, finished) <- loop fuel self state action ;;
   if negb finished then ret (self, false)
   else if (0 <? to_show self)%Z && (Z.of_nat episode mod to_show self =? 0)%Z
        then act fuel self
        else ret (self, true))%dist.

Fixpoint run_episodes {env} (fuel : nat) (self : Agent env) (episodes : list nat)
  : dist (Agent env * bool) :=
  match episodes with
  | [] => ret (self, true)
  | episode :: rest =>
      ('(self, finished) <- run_episode fuel self episode ;;
       if finished : bool then run_episodes fuel self rest else ret (self, false))%dist
  end.

Definition execute {env} (fuel : nat) (self : Agent env) : dist (Agent env * bool) :=
  run_episodes fuel self (seq 0 (num_episodes self)).

End SarsaAgent.

(** ** Q-learning *)

Module QLearningAgent.

Import Tabular.

(** [q_new] of the loop body; [lookup] is [self.q_table[new_state]], which
    only the [else] branch evaluates: when [done] holds, an IndexError of
    the lookup ([None]) is never raised. *)
Definition target (gamma reward : Q) (done : bool) (lookup : option (list Q)) : option Q :=
  if done then Some reward
  else match lookup with
       | Some next_row =>
           match Np.max next_row with
           | Some m => Some (reward + gamma * m)
           | None => None
           end
       | None => None
       end.

Definition step {env} (self : Agent env) (state : list Z)
  : dist (Agent env * option (list Z)) :=
  (row <- lift_opt (q_row self state) ;;
   action <- epsilon_greedy_selection row (epsilon self) ;;
   '(w, new_obs, reward, done) <- env_step env (world self) action ;;
   let self := set_world self w in
   let new_state := get_discrete_state self new_obs in
   q_new <- lift_opt (target (gamma self) reward done (q_row self new_state)) ;;
   q_old <- lift_opt (q_get self state action) ;;
   self <- lift_opt (q_set self state action (q_old + alpha self * (q_new - q_old))) ;;
   self <- lift_opt (stats_add self reward) ;;
   if done : bool then ret (self, None) else ret (self, Some new_state))%dist.

Fixpoint loop {env} (fuel : nat) (self : Agent env) (state : list Z)
  : dist (Agent env * bool) :=
  match fuel with
  | O => ret (self, false)
  | S fuel' =>
      ('(self, next) <- step self state ;;
       match next with
       | None => ret (self, true)
       | Some state' => loop fuel' self state'
       end)%dist
  end.

Definition run_episode {env} (fuel : nat) (self : Agent env) (episode : nat)
  : dist (Agent env * bool) :=
  (let self := set_stats self (stats_rewards self ++ [0]) in
   '(w, obs) <- env_reset env (world self) ;;
   let self := set_world self w in
   let state := get_discrete_state self obs in
   '(self, finished) <- loop fuel self state ;;
   if negb finished then ret (self, false)
   else if (0 <? to_show self)%Z && (Z.of_nat episode mod to_show self =? 0)%Z
        then act fuel self
        else ret (self, true))%dist.

Fixpoint run_episodes {env} (fuel : nat) (self : Agent env) (episodes : list nat)
  : dist (Agent env * bool) :=
  match episodes with
  | [] => ret (self, true)
  | episode :: rest =>
      ('(self, finished) <- run_episode fuel self episode ;;
       if finished : bool then run_episodes fuel self rest else ret (self, false))%dist
  end.

Definition execute {env} (fuel : nat) (self : Agent env) : dist (Agent env * bool) :=
  run_episodes fuel self (seq 0 (num_episodes self)).

End QLearningAgent.

(** ** collections.deque with a maximal length *)

Module Deque.

Record deque (A : Type) : Type := mkDeque {
  maxlen : nat;
  items : list A                         (* oldest first *)
}.

Arguments maxlen {A}.
Arguments items {A}.
Arguments mkDeque {A}.

(** [deque(maxlen=n)] *)
Definition empty {A} (n : nat) : deque A := mkDeque n [].

(** [d.append(x)]: a full deque drops its oldest item; a deque of maximal
    length 0 stays empty. *)
Definition append {A} (d : deque A) (x : A) : deque A :=
  if Nat.eqb (maxlen d) 0 then d
  else if Nat.eqb (length (items d)) (maxlen d)
       then mkDeque (maxlen d) (tl (items d) ++ [x])
       else mkDeque (maxlen d) (items d ++ [x]).

Definition len {A} (d : deque A) : nat := length (items d).

End Deque.

(** ** Neural networks and optimizers (external collaborators) *)

(** A network architecture: [net_predict w x] is the output row of the
    network with weights [w] on the input row [x]. *)
Record Net : Type := mkNet {
  net_weights : Type;
  net_predict : net_weights -> list Q -> list Q
}.

(** An optimizer for the weights [W]: [opt_apply s loss w] stands for
    [tape.gradient(loss, variables)] at the weights [w] followed by
    [optimizer.apply_gradients]; [loss] is the taped loss as a function of
    the trainable variables. *)
Record Optimizer (W : Type) : Type := mkOptimizer {
  opt_state : Type;
  opt_apply : opt_state -> (W -> Q) -> W -> opt_state * W
}.

Arguments opt_state {W}.
Arguments opt_apply {W}.

(** ** Deep Q-network agent *)

Module DQNAgent.

(** [(state, action, reward, new_state, done)] *)
Definition transition : Type := (list Q * nat * Q * list Q * bool)%type.

Definition tr_state (t : transition) : list Q := fst (fst (fst (fst t))).
Definition tr_action (t : transition) : nat := snd (fst (fst (fst t))).
Definition tr_reward (t : transition) : Q := snd (fst (fst t)).
Definition tr_next (t : transition) : list Q := snd (fst t).
Definition tr_done (t : transition) : bool := snd t.

(** The two networks are objects on a heap: [model] and [target_model] are
    references, [nets] holds the weights of every network object. *)
Record Agent (env : Env) (net : Net) (opt : Optimizer (net_weights net)) : Type :=
mkAgent {
  num_episodes : nat;
  gamma : Q;
  epsilon : Q;
  memory : Deque.deque transition;
  batch_size : nat;
  world : env_state env;
  state_size : nat;
  action_size : nat;
  optimizer : opt_state opt;
  model : nat;
  target_model : nat;
  nets : nat -> net_weights net;
  target_update_counter : nat;
  target_update_frequency : nat;
  stats_rewards : list Q;
  verbose : Z;
  to_show : Z
}.

Arguments num_episodes {env net opt}.
Arguments gamma {env net opt}.
Arguments epsilon {env net opt}.
Arguments memory {env net opt}.
Arguments batch_size {env net opt}.
Arguments world {env net opt}.
Arguments state_size {env net opt}.
Arguments action_size {env net opt}.
Arguments optimizer {env net opt}.
Arguments model {env net opt}.
Arguments target_model {env net opt}.
Arguments nets {env net opt}.
Arguments target_update_counter {env net opt}.
Arguments target_update_frequency {env net opt}.
Arguments stats_rewards {env net opt}.
Arguments verbose {env net opt}.
Arguments to_show {env net opt}.

Section Agent.

Context {env : Env} {net : Net} {opt : Optimizer (net_weights net)}.

Local Notation "'agent'" := (Agent env net opt) (only parsing).

(** [heap[r] = w] *)
Definition heap_set (heap : nat -> net_weights net) (r : nat) (w : net_weights net)
  : nat -> net_weights net :=
  fun r' => if Nat.eqb r' r then w else heap r'.

(** [__init__(self, env, model, target_model, optimizer)] *)
Definition init (w : env_state env) (heap : nat -> net_weights net)
  (model target_model : nat) (optimizer : opt_state opt) : agent :=
  {| num_episodes := 1000;
     gamma := 99 # 100;
     epsilon := 1 # 10;
     memory := Deque.empty 10000;
     batch_size := 32;
     world := w;
     state_size := length (obs_low env);
     action_size := action_n env;
     optimizer := optimizer;
     model := model;
     target_model := target_model;
     nets := heap_set heap target_model (heap model);
     target_update_counter := 0;
     target_update_frequency := 200;
     stats_rewards := [];
     verbose := 50;
     to_show := 200 |}.

Definition set_world (self : agent) (w : env_state env) : agent :=
  {| num_episodes := num_episodes self; gamma := gamma self;
     epsilon := epsilon self; memory := memory self;
     batch_size := batch_size self; world := w;
     state_size := state_size self; action_size := action_size self;
     optimizer := optimizer self; model := model self;
     target_model := target_model self; nets := nets self;
     target_update_counter := target_update_counter self;
     target_update_frequency := target_update_frequency self;
     stats_rewards := stats_rewards self; verbose := verbose self;
     to_show := to_show self |}.

Definition set_memory (self : agent) (m : Deque.deque transition) : agent :=
  {| num_episodes := num_episodes self; gamma := gamma self;
     epsilon := epsilon self; memory := m;
     batch_size := batch_size self; world := world self;
     state_size := state_size self; action_size := action_size self;
     optimizer := optimizer self; model := model self;
     target_model := target_model self; nets := nets self;
     target_update_counter := target_update_counter self;
     target_update_frequency := target_update_frequency self;
     stats_rewards := stats_rewards self; verbose := verbose self;
     to_show := to_show self |}.

Definition set_nets (self : agent) (o : opt_state opt) (h : nat -> net_weights net)
  : agent :=
  {| num_episodes := num_episodes self; gamma := gamma self;
     epsilon := epsilon self; memory := memory self;
     batch_size := batch_size self; world := world self;
     state_size := state_size self; action_size := action_size self;
     optimizer := o; model := model self;
     target_model := target_model self; nets := h;
     target_update_counter := target_update_counter self;
     target_update_frequency := target_update_frequency self;
     stats_rewards := stats_rewards self; verbose := verbose self;
     to_show := to_show self |}.

Definition set_counter (self : agent) (c : nat) : agent :=
  {| num_episodes := num_episodes self; gamma := gamma self;
     epsilon := epsilon self; memory := memory self;
     batch_size := batch_size self; world := world self;
     state_size := state_size self; action_size := action_size self;
     optimizer := optimizer self; model := model self;
     target_model := target_model self; nets := nets self;
     target_update_counter := c;
     target_update_frequency := target_update_frequency self;
     stats_rewards := stats_rewards self; verbose := verbose self;
     to_show := to_show self |}.

Definition set_stats (self : agent) (r : list Q) : agent :=
  {| num_episodes := num_episodes self; gamma := gamma self;
     epsilon := epsilon self; memory := memory self;
     batch_size := batch_size self; world := world self;
     state_size := state_size self; action_size := action_size self;
     optimizer := optimizer self; model := model self;
     target_model := target_model self; nets := nets self;
     target_update_counter := target_update_counter self;
     target_update_frequency := target_update_frequency self;
     stats_rewards := r; verbose := verbose self;
     to_show := to_show self |}.

(** [np.amax(q_new, axis=1)] *)
Fixpoint amax_rows (rows : list (list Q)) : option (list Q) :=
  match rows with
  | [] => Some []
  | r :: rs => match Np.max r, amax_rows rs with
               | Some m, Some ms => Some (m :: ms)
               | _, _ => None
               end
  end.

(** [1 - done] on a numpy bool. *)
Definition one_minus (done : bool) : Q := if done then 0 else 1.

(** [rewards + self.gamma * (1 - done) * np.amax(q_new, axis=1)] *)
Fixpoint q_target_of (gamma : Q) (rewards : list Q) (done : list bool) (amax : list Q)
  : list Q :=
  match rewards, done, amax with
  | r :: rs, d :: ds, m :: ms =>
      (r + gamma * one_minus d * m) :: q_target_of gamma rs ds ms
  | _, _, _ => []
  end.

(** [row[a] = v]; [None] is the IndexError. *)
Definition row_set (row : list Q) (a : nat) (v : Q) : option (list Q) :=
  if Nat.ltb a (length row) then Some (Np.list_set row a v) else None.

(** [q_values[range(len(actions)), actions] = q_target] *)
Fixpoint overwrite (q_values : list (list Q)) (actions : list nat) (q_target : list Q)
  : option (list (list Q)) :=
  match q_values, actions, q_target with
  | row :: rows, a :: acts, v :: vs =>
      match row_set row a v, overwrite rows acts vs with
      | Some row', Some rows' => Some (row' :: rows')
      | _, _ => None
      end
  | [], [], [] => Some []
  | _, _, _ => None
  end.

(** [tf.reduce_sum((target - predicted)**2)] *)
Definition sum_sq_err (target predicted : list (list Q)) : Q :=
  Np.sum_list (Np.zip_with
              (fun t p => Np.sum_list (Np.zip_with (fun x y => (x - y) * (x - y)) t p))
              target predicted).

(** [loss = 1./self.batch_size * tf.reduce_sum(err**2)], as a function of
    the weights of the network that produced [predicted]; [train] raises
    ZeroDivisionError before it for a batch size of zero. *)
Definition loss (batch_size : nat) (states : list (list Q)) (target : list (list Q))
  (w : net_weights net) : Q :=
  (1 / inject_Z (Z.of_nat batch_size)) *
  sum_sq_err target (map (net_predict net w) states).

(** The target matrix [train] builds for a minibatch: the online network's
    predictions ([predicted.numpy()] is a copy of them) with the entry of the
    taken action overwritten. *)
Definition targets (self : agent) (minibatch : list transition)
  : option (list (list Q)) :=
  let states := map tr_state minibatch in
  let actions := map tr_action minibatch in
  let rewards := map tr_reward minibatch in
  let next_states := map tr_next minibatch in
  let done := map tr_done minibatch in
  let predicted := map (net_predict net (nets self (model self))) states in
  let q_values := predicted in
  let q_new := map (net_predict net (nets self (target_model self))) next_states in
  match amax_rows q_new with
  | Some amax =>
      let q_target := q_target_of (gamma self) rewards done amax in
      overwrite q_values actions q_target
  | None => None
  end.

Definition train (self : agent) : dist agent :=
  if Nat.ltb (Deque.len (memory self)) (batch_size self) then ret self
  else
    (minibatch <- random_sample (Deque.items (memory self)) (batch_size self) ;;
     target <- lift_opt (targets self minibatch) ;;
     _ <- (if Nat.eqb (batch_size self) 0 then raise else ret tt) ;;
     let states := map tr_state minibatch in
     let variables := nets self (model self) in
     let '(o, w) := opt_apply opt (optimizer self)
                      (loss (batch_size self) states target) variables in
     ret (set_nets self o (heap_set (nets self) (model self) w)))%dist.

Definition select_action (self : agent) (state : list Q) (epsilon : Q) : dist nat :=
  (explore <- random_lt epsilon ;;
   if explore : bool then randint 0 (action_size self)
   else
     let q_values := net_predict net (nets self (model self)) state in
     lift_opt (Np.argmax q_values))%dist.

Fixpoint act_loop (fuel : nat) (self : agent) (state : list Q) (total_reward : Q)
  : dist (agent * option Q) :=
  match fuel with
  | O => ret (self, None)
  | S fuel' =>
      (action <- select_action self state 0 ;;
       '(w, state', reward, done) <- env_step env (world self) action ;;
       let total_reward := total_reward + reward in
       let self := set_world self (env_render env w) in
       if done : bool then ret (self, Some total_reward)
       else act_loop fuel' self state' total_reward)%dist
  end.

(** [act]: the agent afterwards and the total reward, [None] when the loop
    was cut for lack of fuel. *)
Definition act (fuel : nat) (self : agent) : dist (agent * option Q) :=
  ('(w, state) <- env_reset env (world self) ;;
   '(self, total) <- act_loop fuel (set_world self w) state 0 ;;
   ret (set_world self (env_close env (world self)), total))%dist.

(** [self.target_update_counter += 1] and the synchronisation that follows. *)
Definition sync_target (self : agent) : agent :=
  let self := set_counter self (S (target_update_counter self)) in
  if Nat.eqb (target_update_counter self) (target_update_frequency self) then
    let self := set_counter self 0 in
    set_nets self (optimizer self)
             (heap_set (nets self) (target_model self) (nets self (model self)))
  else self.

Definition stats_add (self : agent) (reward : Q) : option agent :=
  match Tabular.add_to_last (stats_rewards self) reward with
  | Some r => Some (set_stats self r)
  | None => None
  end.

(** One pass through the body of the [while True] loop of [execute]. *)
Definition step (self : agent) (state : list Q) : dist (agent * option (list Q)) :=
  (action <- select_action self state (epsilon self) ;;
   '(w, new_state, reward, done) <- env_step env (world self) action ;;
   let self := set_world self w in
   let self := set_memory self
                 (Deque.append (memory self) (state, action, reward, new_state, done)) in
   self <- train self ;;
   let self := sync_target self in
   self <- lift_opt (stats_add self reward) ;;
   if done : bool then ret (self, None) else ret (self, Some new_state))%dist.

Fixpoint loop (fuel : nat) (self : agent) (state : list Q) : dist (agent * bool) :=
  match fuel with
  | O => ret (self, false)
  | S fuel' =>
      ('(self, next) <- step self state ;;
       match next with
       | None => ret (self, true)
       | Some state' => loop fuel' self state'
       end)%dist
  end.

(** The first lines of the body of [for episode in ...]: a new entry of
    the statistics and the reset of the environment. *)
Definition begin_episode (self : agent) : dist (agent * list Q) :=
  (let self := set_stats self (stats_rewards self ++ [0]) in
   '(w, state) <- env_reset env (world self) ;;
   ret (set_world self w, state))%dist.

Definition run_episode (fuel : nat) (self : agent) (episode : nat)
  : dist (agent * bool) :=
  ('(self, state) <- begin_episode self ;;
   '(self, finished) <- loop fuel self state ;;
   if negb finished then ret (self, false)
   else if (0 <? to_show self)%Z && (Z.of_nat episode mod to_show self =? 0)%Z
        then '(self, total) <- act fuel self ;;
             ret (self, match total with Some _ => true | None => false end)
        else ret (self, true))%dist.

Fixpoint run_episodes (fuel : nat) (self : agent) (episodes : list nat)
  : dist (agent * bool) :=
  match episodes with
  | [] => ret (self, true)
  | episode :: rest =>
      ('(self, finished) <- run_episode fuel self episode ;;
       if finished : bool then run_episodes fuel self rest else ret (self, false))%dist
  end.

Definition execute (fuel : nat) (self : agent) : dist (agent * bool) :=
  run_episodes fuel self (seq 1 (num_episodes self)).

(** What [train] asks of the row it builds for the sampled transition
    [t]: the online network's prediction for the state of [t], with the
    entry of the taken action replaced by the target [y]: the reward alone
    when the transition ended its episode, and otherwise the reward plus
    [gamma] times the largest value [m] the target network gives the next
    state. *)
Definition target_row (self : agent) (t : transition) (row : list Q) : Prop :=
  let predicted := net_predict net (nets self (model self)) (tr_state t) in
  exists m y,
    Np.max (net_predict net (nets self (target_model self)) (tr_next t)) = Some m
    /\ length row = length predicted
    /\ nth_error row (tr_action t) = Some y
    /\ y == (if tr_done t then tr_reward t else tr_reward t + gamma self * m)
    /\ forall a, a <> tr_action t -> nth_error row a = nth_error predicted a.

(** The squared temporal-difference error of one transition. *)
Definition sq_td_error (self : agent) (t : transition) : Q :=
  match Np.max (net_predict net (nets self (target_model self)) (tr_next t)),
        nth_error (net_predict net (nets self (model self)) (tr_state t)) (tr_action t)
  with
  | Some m, Some q =>
      let y := if tr_done t then tr_reward t else tr_reward t + gamma self * m in
      (y - q) * (y - q)
  | _, _ => 0
  end.

(** The mean of the squared error over all the entries of the two
    matrices, one entry per transition and action. *)
Definition mean_sq_err (target predicted : list (list Q)) : Q :=
  let errors := map (fun tp => (fst tp - snd tp) * (fst tp - snd tp))
                    (combine (concat target) (concat predicted)) in
  fold_right Qplus 0 errors / inject_Z (Z.of_nat (length errors)).

(** [steps n self self']: [self'] is reached from [self] by [n] passes
    through the loop body of [execute], with any number of episode starts
    and evaluation rollouts in between. *)
Inductive steps : nat -> agent -> agent -> Prop :=
| steps_done self : steps 0 self self
| steps_step n self state self1 next self2 :
    supp (step self state) (self1, next) ->
    steps n self1 self2 -> steps (S n) self self2
| steps_begin n self self1 state self2 :
    supp (begin_episode self) (self1, state) ->
    steps n self1 self2 -> steps n self self2
| steps_act n fuel self self1 total self2 :
    supp (act fuel self) (self1, total) ->
    steps n self1 self2 -> steps n self self2.

End Agent.

End DQNAgent.

(** ** REINFORCE agent: action selection, returns and the rollout *)

Module PGAgent.

(** A Python number as a reward list can hold it. *)
Inductive pynum : Type :=
| PyInt (z : Z)
| PyFloat (q : Q).

Definition to_float (x : pynum) : Q :=
  match x with PyInt z => inject_Z z | PyFloat q => q end.

Definition is_float (x : pynum) : bool :=
  match x with PyFloat _ => true | PyInt _ => false end.

Inductive dtype : Type := int64 | float64.

(** The element type numpy gives the array made of a list of numbers
    (ints that fit into an int64). *)
Definition dtype_of (l : list pynum) : dtype :=
  match l with
  | [] => float64
  | _ => if existsb is_float l then float64 else int64
  end.

(** Truncation toward zero. *)
Definition trunc (q : Q) : Z := Z.quot (Qnum q) (Zpos (Qden q)).

(** [a[t] = x]: storing the Python float [x] into an array of the given
    element type.  Into an int64 array the float is truncated toward zero;
    [None] is the OverflowError raised when the result does not fit. *)
Definition cast (d : dtype) (q : Q) : option pynum :=
  match d with
  | int64 =>
      let z := trunc q in
      if (F64.int64_min <=? z)%Z && (z <=? F64.int64_max)%Z then Some (PyInt z)
      else None
  | float64 => Some (PyFloat q)
  end.

Definition zero (d : dtype) : pynum :=
  match d with int64 => PyInt 0 | float64 => PyFloat 0 end.

(** [np.zeros_like(l)] *)
Definition zeros_like (l : list pynum) : list pynum :=
  repeat (zero (dtype_of l)) (length l).

Record Agent (env : Env) (net : Net) (opt : Optimizer (net_weights net)) : Type :=
mkAgent {
  num_episodes : nat;
  gamma : Q;
  world : env_state env;
  state_size : nat;
  action_size : nat;
  model : net_weights net;
  optimizer : opt_state opt;
  memory_states : list (list Q);
  memory_actions : list (list Q);
  memory_rewards : list pynum;
  stats_rewards : list Q;
  show_stats : Z;
  show_episode : Z
}.

Arguments num_episodes {env net opt}.
Arguments gamma {env net opt}.
Arguments world {env net opt}.
Arguments state_size {env net opt}.
Arguments action_size {env net opt}.
Arguments model {env net opt}.
Arguments optimizer {env net opt}.
Arguments memory_states {env net opt}.
Arguments memory_actions {env net opt}.
Arguments memory_rewards {env net opt}.
Arguments stats_rewards {env net opt}.
Arguments show_stats {env net opt}.
Arguments show_episode {env net opt}.

Section Agent.

Context {env : Env} {net : Net} {opt : Optimizer (net_weights net)}.

Local Notation "'agent'" := (Agent env net opt) (only parsing).

(** [__init__(self, env, model, optimizer)] *)
Definition init (w : env_state env) (model : net_weights net)
  (optimizer : opt_state opt) : agent :=
  {| num_episodes := 1000;
     gamma := 99 # 100;
     world := w;
     state_size := length (obs_low env);
     action_size := action_n env;
     model := model;
     optimizer := optimizer;
     memory_states := [];
     memory_actions := [];
     memory_rewards := [];
     stats_rewards := [];
     show_stats := 200;
     show_episode := -1 |}.

Definition set_world (self : agent) (w : env_state env) : agent :=
  {| num_episodes := num_episodes self; gamma := gamma self; world := w;
     state_size := state_size self; action_size := action_size self;
     model := model self; optimizer := optimizer self;
     memory_states := memory_states self;
     memory_actions := memory_actions self;
     memory_rewards := memory_rewards self;
     stats_rewards := stats_rewards self;
     show_stats := show_stats self; show_episode := show_episode self |}.

Definition set_gamma (self : agent) (g : Q) : agent :=
  {| num_episodes := num_episodes self; gamma := g; world := world self;
     state_size := state_size self; action_size := action_size self;
     model := model self; optimizer := optimizer self;
     memory_states := memory_states self;
     memory_actions := memory_actions self;
     memory_rewards := memory_rewards self;
     stats_rewards := stats_rewards self;
     show_stats := show_stats self; show_episode := show_episode self |}.

Definition select_action (self : agent) (state : list Q) : dist nat :=
  let probabilities := net_predict net (model self) state in
  choice (action_size self) probabilities.

(** One pass of [for t in reversed(range(len(rewards)))]; [None] once a
    store has raised. *)
Definition returns_pass (gamma : Q) (rewards : list pynum) (d : dtype)
  (acc : option (Q * list pynum)) (t : nat) : option (Q * list pynum) :=
  match acc, nth_error rewards t with
  | Some (cumulative, returns), Some r =>
      let cumulative := to_float r + gamma * cumulative in
      match cast d cumulative with
      | Some v => Some (cumulative, Np.list_set returns t v)
      | None => None
      end
  | _, _ => acc
  end.

Definition calc_returns (self : agent) (rewards : list pynum) : option (list pynum) :=
  let returns := zeros_like rewards in
  let cumulative := 0 in
  option_map snd
    (fold_left (returns_pass (gamma self) rewards (dtype_of rewards))
               (rev (seq 0 (length rewards)))
               (Some (cumulative, returns))).

Fixpoint act_loop (fuel : nat) (self : agent) (state : list Q) (total_reward : Q)
  : dist (agent * option Q) :=
  match fuel with
  | O => ret (self, None)
  | S fuel' =>
      (action <- select_action self state ;;
       '(w, state', reward, done) <- env_step env (world self) action ;;
       let total_reward := total_reward + reward in
       let self := set_world self (env_render env w) in
       if done : bool then ret (self, Some total_reward)
       else act_loop fuel' self state' total_reward)%dist
  end.

Definition act (fuel : nat) (self : agent) : dist (agent * option Q) :=
  ('(w, state) <- env_reset env (world self) ;;
   '(self, total) <- act_loop fuel (set_world self w) state 0 ;;
   ret (set_world self (env_close env (world self)), total))%dist.

(** *** Training *)

(** [tf.math.log] *)
Variable log : Q -> Q.

Definition set_model (self : agent) (o : opt_state opt) (w : net_weights net) : agent :=
  {| num_episodes := num_episodes self; gamma := gamma self; world := world self;
     state_size := state_size self; action_size := action_size self;
     model := w; optimizer := o;
     memory_states := memory_states self;
     memory_actions := memory_actions self;
     memory_rewards := memory_rewards self;
     stats_rewards := stats_rewards self;
     show_stats := show_stats self; show_episode := show_episode self |}.

Definition set_memory (self : agent) (states actions : list (list Q))
  (rewards : list pynum) : agent :=
  {| num_episodes := num_episodes self; gamma := gamma self; world := world self;
     state_size := state_size self; action_size := action_size self;
     model := model self; optimizer := optimizer self;
     memory_states := states;
     memory_actions := actions;
     memory_rewards := rewards;
     stats_rewards := stats_rewards self;
     show_stats := show_stats self; show_episode := show_episode self |}.

Definition set_stats (self : agent) (r : list Q) : agent :=
  {| num_episodes := num_episodes self; gamma := gamma self; world := world self;
     state_size := state_size self; action_size := action_size self;
     model := model self; optimizer := optimizer self;
     memory_states := memory_states self;
     memory_actions := memory_actions self;
     memory_rewards := memory_rewards self;
     stats_rewards := r;
     show_stats := show_stats self; show_episode := show_episode self |}.

(** [actions_one_hot = [0] * self.action_size; actions_one_hot[action] = 1];
    [None] is the IndexError. *)
Definition one_hot (n action : nat) : option (list Q) :=
  if Nat.ltb action n then Some (Np.list_set (repeat 0 n) action 1) else None.

(** One row of [tf.reduce_sum(actions * prob, axis=1)]. *)
Definition taken_prob (action prob : list Q) : Q :=
  Np.sum_list (Np.zip_with Qmult action prob).

(** [loss = - tf.reduce_sum(log_prob * returns)] as a function of the
    weights of the policy network. *)
Definition loss (states actions : list (list Q)) (returns : list Q)
  (w : net_weights net) : Q :=
  - Np.sum_list
      (Np.zip_with Qmult
         (map log (Np.zip_with taken_prob actions (map (net_predict net w) states)))
         returns).

(** [sum(rewards)]: Python adds from the left, starting at 0. *)
Definition py_sum (rewards : list pynum) : Q :=
  fold_left (fun acc r => acc + to_float r) rewards 0.

Definition train (self : agent) : dist agent :=
  (let states := memory_states self in
   let actions := memory_actions self in
   returns <- lift_opt (calc_returns self (memory_rewards self)) ;;
   let returns := map to_float returns in
   let '(o, w) := opt_apply opt (optimizer self) (loss states actions returns)
                            (model self) in
   ret (set_model self o w))%dist.

(** The [while True] loop of [execute] that generates one episode; the flag
    tells whether the episode came to its end. *)
Fixpoint generate (fuel : nat) (self : agent) (state : list Q) : dist (agent * bool) :=
  match fuel with
  | O => ret (self, false)
  | S fuel' =>
      (action <- select_action self state ;;
       '(w, new_state, reward, done) <- env_step env (world self) action ;;
       let self := set_world self w in
       actions_one_hot <- lift_opt (one_hot (action_size self) action) ;;
       let self := set_memory self (memory_states self ++ [state])
                              (memory_actions self ++ [actions_one_hot])
                              (memory_rewards self ++ [PyFloat reward]) in
       if done : bool then ret (self, true) else generate fuel' self new_state)%dist
  end.

(** The body of [for episode in range(1, self.num_episodes + 1)]. *)
Definition run_episode (fuel : nat) (self : agent) (episode : nat)
  : dist (agent * bool) :=
  ('(w, state) <- env_reset env (world self) ;;
   '(self, finished) <- generate fuel (set_world self w) state ;;
   if negb finished then ret (self, false)
   else
     let self := set_stats self (stats_rewards self ++ [py_sum (memory_rewards self)]) in
     self <- train self ;;
     let self := set_memory self [] [] [] in
     if (0 <? show_episode self)%Z && (Z.of_nat episode mod show_episode self =? 0)%Z
     then '(self, total) <- act fuel self ;;
          ret (self, match total with Some _ => true | None => false end)
     else ret (self, true))%dist.

Fixpoint run_episodes (fuel : nat) (self : agent) (episodes : list nat)
  : dist (agent * bool) :=
  match episodes with
  | [] => ret (self, true)
  | episode :: rest =>
      ('(self, finished) <- run_episode fuel self episode ;;
       if finished : bool then run_episodes fuel self rest else ret (self, false))%dist
  end.

Definition execute (fuel : nat) (self : agent) : dist (agent * bool) :=
  run_episodes fuel self (seq 1 (num_episodes self)).

End Agent.

End PGAgent.

(** ** One-step Actor-Critic agent: training *)

Module ACAgent.

Record Agent (env : Env) (actor critic : Net)
  (aopt : Optimizer (net_weights actor)) (copt : Optimizer (net_weights critic))
  : Type :=
mkAgent {
  num_episodes : nat;
  gamma : Q;
  world : env_state env;
  state_size : nat;
  action_size : nat;
  actor_model : net_weights actor;
  actor_optimizer : opt_state aopt;
  critic_model : net_weights critic;
  critic_optimizer : opt_state copt;
  stats_rewards : list Q;
  show_stats : Z;
  show_episode : Z;
  I : Q
}.

Arguments num_episodes {env actor critic aopt copt}.
Arguments gamma {env actor critic aopt copt}.
Arguments world {env actor critic aopt copt}.
Arguments state_size {env actor critic aopt copt}.
Arguments action_size {env actor critic aopt copt}.
Arguments actor_model {env actor critic aopt copt}.
Arguments actor_optimizer {env actor critic aopt copt}.
Arguments critic_model {env actor critic aopt copt}.
Arguments critic_optimizer {env actor critic aopt copt}.
Arguments stats_rewards {env actor critic aopt copt}.
Arguments show_stats {env actor critic aopt copt}.
Arguments show_episode {env actor critic aopt copt}.
Arguments I {env actor critic aopt copt}.

Section Agent.

Context {env : Env} {actor critic : Net}
  {aopt : Optimizer (net_weights actor)} {copt : Optimizer (net_weights critic)}.

(** [tf.math.log] *)
Variable log : Q -> Q.

Local Notation "'agent'" := (Agent env actor critic aopt copt) (only parsing).

(** [__init__(self, env, actor_model, actor_optimizer, critic_model,
    critic_optimizer)] *)
Definition init (w : env_state env)
  (actor_model : net_weights actor) (actor_optimizer : opt_state aopt)
  (critic_model : net_weights critic) (critic_optimizer : opt_state copt) : agent :=
  {| num_episodes := 1000;
     gamma := 9 # 10;
     world := w;
     state_size := length (obs_low env);
     action_size := action_n env;
     actor_model := actor_model;
     actor_optimizer := actor_optimizer;
     critic_model := critic_model;
     critic_optimizer := critic_optimizer;
     stats_rewards := [];
     show_stats := 200;
     show_episode := -1;
     I := 1 |}.

Definition set_world (self : agent) (w : env_state env) : agent :=
  {| num_episodes := num_episodes self; gamma := gamma self; world := w;
     state_size := state_size self; action_size := action_size self;
     actor_model := actor_model self; actor_optimizer := actor_optimizer self;
     critic_model := critic_model self; critic_optimizer := critic_optimizer self;
     stats_rewards := stats_rewards self; show_stats := show_stats self;
     show_episode := show_episode self; I := I self |}.

Definition set_critic (self : agent) (o : opt_state copt) (w : net_weights critic)
  : agent :=
  {| num_episodes := num_episodes self; gamma := gamma self; world := world self;
     state_size := state_size self; action_size := action_size self;
     actor_model := actor_model self; actor_optimizer := actor_optimizer self;
     critic_model := w; critic_optimizer := o;
     stats_rewards := stats_rewards self; show_stats := show_stats self;
     show_episode := show_episode self; I := I self |}.

Definition set_actor (self : agent) (o : opt_state aopt) (w : net_weights actor)
  : agent :=
  {| num_episodes := num_episodes self; gamma := gamma self; world := world self;
     state_size := state_size self; action_size := action_size self;
     actor_model := w; actor_optimizer := o;
     critic_model := critic_model self; critic_optimizer := critic_optimizer self;
     stats_rewards := stats_rewards self; show_stats := show_stats self;
     show_episode := show_episode self; I := I self |}.

Definition set_stats (self : agent) (r : list Q) : agent :=
  {| num_episodes := num_episodes self; gamma := gamma self; world := world self;
     state_size := state_size self; action_size := action_size self;
     actor_model := actor_model self; actor_optimizer := actor_optimizer self;
     critic_model := critic_model self; critic_optimizer := critic_optimizer self;
     stats_rewards := r; show_stats := show_stats self;
     show_episode := show_episode self; I := I self |}.

Definition set_I (self : agent) (i : Q) : agent :=
  {| num_episodes := num_episodes self; gamma := gamma self; world := world self;
     state_size := state_size self; action_size := action_size self;
     actor_model := actor_model self; actor_optimizer := actor_optimizer self;
     critic_model := critic_model self; critic_optimizer := critic_optimizer self;
     stats_rewards := stats_rewards self; show_stats := show_stats self;
     show_episode := show_episode self; I := i |}.

(** [action_one_hot = [0] * self.action_size; action_one_hot[action] = 1] *)
Definition one_hot (n action : nat) : option (list Q) :=
  if Nat.ltb action n then Some (Np.list_set (repeat 0 n) action 1) else None.

(** [tf.reduce_sum(action * prob)] *)
Definition dot (action prob : list Q) : Q :=
  fold_right Qplus 0 (Np.zip_with Qmult action prob).

(** [new_value] of [train]. *)
Definition critic_target (self : agent) (new_state : list Q) (reward : Q) (done : bool)
  : option Q :=
  match hd_error (net_predict critic (critic_model self) new_state) with
  | Some v => Some (reward + DQNAgent.one_minus done * gamma self * v)
  | None => None
  end.

(** [critic_loss = - delta * value] as a function of the critic's weights. *)
Definition critic_loss (delta : Q) (state : list Q) (w : net_weights critic) : Q :=
  - delta * nth 0 (net_predict critic w state) 0.

(** [actor_loss = - log_prob * delta * self.I] as a function of the actor's
    weights. *)
Definition actor_loss (delta i : Q) (state action_one_hot : list Q)
  (w : net_weights actor) : Q :=
  - log (dot action_one_hot (net_predict actor w state)) * delta * i.

Definition train (self : agent) (state action_one_hot new_state : list Q)
  (reward : Q) (done : bool) : dist agent :=
  (new_value <- lift_opt (critic_target self new_state reward done) ;;
   value <- lift_opt (hd_error (net_predict critic (critic_model self) state)) ;;
   let delta := new_value - value in
   let '(co, cw) := opt_apply copt (critic_optimizer self)
                      (critic_loss delta state) (critic_model self) in
   let self := set_critic self co cw in
   let '(ao, aw) := opt_apply aopt (actor_optimizer self)
                      (actor_loss delta (I self) state action_one_hot)
                      (actor_model self) in
   ret (set_actor self ao aw))%dist.

Definition select_action (self : agent) (state : list Q) : dist nat :=
  let probabilities := net_predict actor (actor_model self) state in
  choice (action_size self) probabilities.

Definition stats_add (self : agent) (reward : Q) : option agent :=
  match Tabular.add_to_last (stats_rewards self) reward with
  | Some r => Some (set_stats self r)
  | None => None
  end.

(** One pass through the body of the [while True] loop of [execute]. *)
Definition step (self : agent) (state : list Q) : dist (agent * option (list Q)) :=
  (action <- select_action self state ;;
   '(w, new_state, reward, done) <- env_step env (world self) action ;;
   let self := set_world self w in
   action_one_hot <- lift_opt (one_hot (action_size self) action) ;;
   self <- train self state action_one_hot new_state reward done ;;
   self <- lift_opt (stats_add self reward) ;;
   if done : bool then ret (self, None)
   else ret (set_I self (I self * gamma self), Some new_state))%dist.

Fixpoint loop (fuel : nat) (self : agent) (state : list Q) : dist (agent * bool) :=
  match fuel with
  | O => ret (self, false)
  | S fuel' =>
      ('(self, next) <- step self state ;;
       match next with
       | None => ret (self, true)
       | Some state' => loop fuel' self state'
       end)%dist
  end.

(** The first lines of the body of [for episode in ...]. *)
Definition begin_episode (self : agent) : dist (agent * list Q) :=
  (let self := set_stats self (stats_rewards self ++ [0]) in
   '(w, state) <- env_reset env (world self) ;;
   let self := set_world self w in
   ret (set_I self 1, state))%dist.

(** [passes k self state self' state']: [k] passes through the loop body in
    a row, none of which ends the episode, lead from [self] at [state] to
    [self'] at [state']. *)
Inductive passes : nat -> agent -> list Q -> agent -> list Q -> Prop :=
| passes_none self state : passes 0 self state self state
| passes_more k self state self1 state1 self2 state2 :
    supp (step self state) (self1, Some state1) ->
    passes k self1 state1 self2 state2 ->
    passes (S k) self state self2 state2.

(** One pass through the loop body, as the update rule states it.  With
    [value] and [new_value] the critic's values of [state] and [new_state]
    (the critic as it is before the pass), the TD error [delta] is
    [reward - value] when the step ended the episode and
    [reward + gamma * new_value - value] otherwise; the critic is updated on
    the loss [- delta * V(state)]; the actor is updated on the loss
    [- log(p) * delta * I], where [p] is the probability the actor, as a
    function of its weights, gives in [state] to the action taken, and [I]
    is as it is before the pass; afterwards [I] is multiplied by [gamma]
    unless the episode is over. *)
Definition step_law (self : agent) (state : list Q) (self' : agent)
  (next : option (list Q)) : Prop :=
  exists action w new_state reward done value new_value delta closs aloss,
    supp (select_action self state) action
    /\ supp (env_step env (world self) action) (w, new_state, reward, done)
    /\ (action < action_size self)%nat
    /\ hd_error (net_predict critic (critic_model self) state) = Some value
    /\ hd_error (net_predict critic (critic_model self) new_state) = Some new_value
    /\ delta == (if done : bool then reward - value
                 else reward + gamma self * new_value - value)
    /\ critic_model self'
       = snd (opt_apply copt (critic_optimizer self) closs (critic_model self))
    /\ (forall c, closs c = - delta * nth 0 (net_predict critic c state) 0)
    /\ actor_model self'
       = snd (opt_apply aopt (actor_optimizer self) aloss (actor_model self))
    /\ (forall a, length (net_predict actor a state) = action_size self ->
                  exists p, p == nth action (net_predict actor a state) 0
                            /\ aloss a = - log p * delta * I self)
    /\ I self' = (if done then I self else I self * gamma self)
    /\ gamma self' = gamma self
    /\ next = (if done then None else Some new_state).

(** *** The rollout and the episodes *)

Fixpoint act_loop (fuel : nat) (self : agent) (state : list Q) (total_reward : Q)
  : dist (agent * option Q) :=
  match fuel with
  | O => ret (self, None)
  | S fuel' =>
      (action <- select_action self state ;;
       '(w, state', reward, done) <- env_step env (world self) action ;;
       let total_reward := total_reward + reward in
       let self := set_world self (env_render env w) in
       if done : bool then ret (self, Some total_reward)
       else act_loop fuel' self state' total_reward)%dist
  end.

Definition act (fuel : nat) (self : agent) : dist (agent * option Q) :=
  ('(w, state) <- env_reset env (world self) ;;
   '(self, total) <- act_loop fuel (set_world self w) state 0 ;;
   ret (set_world self (env_close env (world self)), total))%dist.

(** The body of [for episode in range(1, self.num_episodes + 1)]. *)
Definition run_episode (fuel : nat) (self : agent) (episode : nat)
  : dist (agent * bool) :=
  ('(self, state) <- begin_episode self ;;
   '(self, finished) <- loop fuel self state ;;
   if negb finished then ret (self, false)
   else if (0 <? show_episode self)%Z && (Z.of_nat episode mod show_episode self =? 0)%Z
        then '(self, total) <- act fuel self ;;
             ret (self, match total with Some _ => true | None => false end)
        else ret (self, true))%dist.

Fixpoint run_episodes (fuel : nat) (self : agent) (episodes : list nat)
  : dist (agent * bool) :=
  match episodes with
  | [] => ret (self, true)
  | episode :: rest =>
      ('(self, finished) <- run_episode fuel self episode ;;
       if finished : bool then run_episodes fuel self rest else ret (self, false))%dist
  end.

Definition execute (fuel : nat) (self : agent) : dist (agent * bool) :=
  run_episodes fuel self (seq 1 (num_episodes self)).

End Agent.

End ACAgent.

(** ** Specification predicates and small instances *)

(** [a] indexes a largest entry of [q_values]. *)
Definition is_argmax (q_values : list Q) (a : nat) : Prop :=
  (a < length q_values)%nat /\
  forall b, (b < length q_values)%nat -> nth b q_values 0 <= nth a q_values 0.

(** Probability [1/n] on each of [0 .. n-1]. *)
Definition uniform_on (n a : nat) : Q :=
  if Nat.ltb a n then 1 / inject_Z (Z.of_nat n) else 0.

(** Probability [1/len(l)] on each member of [l]. *)
Definition uniform_over (l : list nat) (a : nat) : Q :=
  if existsb (Nat.eqb a) l then 1 / inject_Z (Z.of_nat (length l)) else 0.

(** The configuration of a tabular agent that training never touches. *)
Definition same_setup {env} (self self' : Tabular.Agent env) : Prop :=
  Tabular.grid_size self' = Tabular.grid_size self
  /\ Tabular.shape self' = Tabular.shape self
  /\ Tabular.epsilon self' = Tabular.epsilon self
  /\ Tabular.alpha self' = Tabular.alpha self
  /\ Tabular.gamma self' = Tabular.gamma self.

(** One SARSA time step from [(state, action)], as the update rule states
    it: the environment executes [action]; [new_action] is a result of the
    epsilon-greedy selector on the row of the new state with the agent's
    [epsilon]; the target is [reward] at the end of the episode and
    [reward + gamma * Q[new_state][new_action]] otherwise; only the entry
    [Q[state][action]] changes, by [alpha * (target - Q[state][action])];
    the next pair is [(new_state, new_action)]. *)
Definition sarsa_law {env} (self : Tabular.Agent env) (state : list Z) (action : nat)
  (self' : Tabular.Agent env) (next : option (list Z * nat)) : Prop :=
  exists w new_obs reward done next_row new_action target q_old cell,
    supp (env_step env (Tabular.world self) action) (w, new_obs, reward, done)
    /\ Tabular.q_row self (Tabular.get_discrete_state self new_obs) = Some next_row
    /\ supp (Tabular.epsilon_greedy_selection next_row (Tabular.epsilon self)) new_action
    /\ (if done : bool then target = reward
        else exists q, nth_error next_row new_action = Some q
                       /\ target = reward + Tabular.gamma self * q)
    /\ Np.norm_indices (Tabular.shape self) state = Some cell
    /\ nth_error (Tabular.q_table self cell) action = Some q_old
    /\ nth_error (Tabular.q_table self' cell) action
       = Some (q_old + Tabular.alpha self * (target - q_old))
    /\ (forall c a, c <> cell \/ a <> action ->
          nth_error (Tabular.q_table self' c) a = nth_error (Tabular.q_table self c) a)
    /\ same_setup self self'
    /\ next = (if done then None
               else Some (Tabular.get_discrete_state self new_obs, new_action)).

(** The discounted return of a reward sequence from its first step on:
    [G = r_0 + gamma * r_1 + gamma^2 * r_2 + ...]. *)
Fixpoint discounted_return (gamma : Q) (rewards : list Q) : Q :=
  match rewards with
  | [] => 0
  | r :: rest => r + gamma * discounted_return gamma rest
  end.

(** The discounted return from every step of the sequence on. *)
Fixpoint discounted_returns (gamma : Q) (rewards : list Q) : list Q :=
  match rewards with
  | [] => []
  | r :: rest => discounted_return gamma rewards :: discounted_returns gamma rest
  end.

(** An index tuple the table accepts: numpy reads the index [i] of an axis
    of length [n] when [-n <= i < n]. *)
Definition index_ok (grid : list Z) (state : list Z) : Prop :=
  Forall2 (fun i n => (- n <= i < n)%Z) state grid.

(** Every row of the Q-table has one entry per action. *)
Definition rows_complete {env} (self : Tabular.Agent env) : Prop :=
  forall cell, length (Tabular.q_table self cell) = action_n env.

(** Every entry of the Q-table lies in [[lo, hi]]. *)
Definition q_bounded {env} (lo hi : Q) (self : Tabular.Agent env) : Prop :=
  forall cell a q, nth_error (Tabular.q_table self cell) a = Some q -> lo <= q /\ q <= hi.

(** Every reward the environment can return lies in [[lo, hi]]. *)
Definition rewards_within (env : Env) (lo hi : Q) : Prop :=
  forall s a w obs reward done,
    supp (env_step env s a) (w, obs, reward, done) -> lo <= reward /\ reward <= hi.

(** One Q-learning time step from [state]: the action is a result of the
    epsilon-greedy selector on the row of [state]; the target is [reward]
    at the end of the episode, where the row of the new state is not looked
    up, and [reward + gamma * max_a Q[new_state][a]] otherwise; only the
    entry [Q[state][action]] changes. *)
Definition q_learning_law {env} (self : Tabular.Agent env) (state : list Z)
  (self' : Tabular.Agent env) (next : option (list Z)) : Prop :=
  exists row action w new_obs reward done target q_old cell,
    Tabular.q_row self state = Some row
    /\ supp (Tabular.epsilon_greedy_selection row (Tabular.epsilon self)) action
    /\ supp (env_step env (Tabular.world self) action) (w, new_obs, reward, done)
    /\ (if done : bool then target = reward
        else exists next_row m,
            Tabular.q_row self (Tabular.get_discrete_state self new_obs) = Some next_row
            /\ Np.max next_row = Some m
            /\ target = reward + Tabular.gamma self * m)
    /\ Np.norm_indices (Tabular.shape self) state = Some cell
    /\ nth_error (Tabular.q_table self cell) action = Some q_old
    /\ nth_error (Tabular.q_table self' cell) action
       = Some (q_old + Tabular.alpha self * (target - q_old))
    /\ (forall c a, c <> cell \/ a <> action ->
          nth_error (Tabular.q_table self' c) a = nth_error (Tabular.q_table self c) a)
    /\ same_setup self self'
    /\ next = (if done then None else Some (Tabular.get_discrete_state self new_obs)).

(** The total weight of the results of [d]; what is missing to 1 is the
    probability that an exception was raised. *)
Definition mass {A} (d : dist A) : Q := expect d (fun _ => 1).

(** The environment answers every call, and [discretize] sends every
    observation it returns to an index tuple that a table of the shape
    [grid] accepts. *)
Definition env_in_table (env : Env) (discretize : list Q -> list Z) (grid : list Z)
  : Prop :=
  (forall s,
      mass (env_reset env s) == 1
      /\ forall w obs, supp (env_reset env s) (w, obs) -> index_ok grid (discretize obs))
  /\ (forall s a, (a < action_n env)%nat ->
        mass (env_step env s a) == 1
        /\ forall w obs reward done,
            supp (env_step env s a) (w, obs, reward, done) ->
            index_ok grid (discretize obs)).

(** A tabular agent set up as its constructor does it: one Q-value per
    action in every row, at least one action, and an exploration rate that
    is a probability. *)
Definition well_formed {env} (self : Tabular.Agent env) : Prop :=
  rows_complete self
  /\ (0 < action_n env)%nat
  /\ 0 <= Tabular.epsilon self /\ Tabular.epsilon self <= 1.

(** A well-formed agent with the grid, the table shape and the parameters
    of [self0]. *)
Definition ready {env} (self0 self : Tabular.Agent env) : Prop :=
  well_formed self /\ same_setup self0 self.

Module Toy.

(** One observation coordinate in [[0, 1]], two actions: action 0 ends the
    episode with reward 1, action 1 goes on with reward 0. *)
Definition corridor : Env :=
  {| env_state := nat;
     obs_low := [0];
     obs_high := [1];
     action_n := 2;
     env_reset := fun _ => ret (0%nat, [0]);
     env_step := fun s a =>
       if Nat.eqb a 0 then ret (S s, [1 # 4], 1, true)
       else ret (S s, [1 # 2], 0, false);
     env_render := fun s => s;
     env_close := fun s => s |}.

(** The same corridor, except that the observation that ends the episode
    sits on the upper bound of the observation space. *)
Definition corridor_edge : Env :=
  {| env_state := nat;
     obs_low := [0];
     obs_high := [1];
     action_n := 2;
     env_reset := fun _ => ret (0%nat, [0]);
     env_step := fun s a =>
       if Nat.eqb a 0 then ret (S s, [1], 1, true)
       else ret (S s, [1 # 2], 0, false);
     env_render := fun s => s;
     env_close := fun s => s |}.

(** A network that ignores its input: the weights are the output row. *)
Definition bias_net : Net :=
  {| net_weights := list Q; net_predict := fun w _ => w |}.

(** An optimizer without memory: every weight moves by a tenth of the loss. *)
Definition plain_opt : Optimizer (list Q) :=
  {| opt_state := unit;
     opt_apply := fun s loss w => (s, map (fun x => x - (1 # 10) * loss w) w) |}.

(** A DQN agent on the corridor whose two networks (objects 0 and 1) start
    from the output row [w]. *)
Definition dqn_agent (w : list Q) : DQNAgent.Agent corridor bias_net plain_opt :=
  @DQNAgent.init corridor bias_net plain_opt 0%nat (fun _ => w) 0%nat 1%nat tt.

(** The tabular agent on the corridor with a grid of two cells. *)
Definition tabular_agent : Tabular.Agent corridor :=
  Tabular.init corridor 0%nat [2%Z].

(** A PG agent on the corridor whose policy gives both actions the
    probability one half. *)
Definition pg_agent : PGAgent.Agent corridor bias_net plain_opt :=
  @PGAgent.init corridor bias_net plain_opt 0%nat [1 # 2; 1 # 2] tt.

(** An actor-critic agent on the corridor: the same policy, a critic that
    values every state at 0, and a stand-in for the logarithm. *)
Definition ac_agent : ACAgent.Agent corridor bias_net bias_net plain_opt plain_opt :=
  @ACAgent.init corridor bias_net bias_net plain_opt plain_opt
                0%nat [1 # 2; 1 # 2] tt [0] tt.

Definition ac_log (x : Q) : Q := x - 1.

(** The tabular agent inside an episode: the statistics have their entry
    for the episode. *)
Definition tabular_started : Tabular.Agent corridor :=
  Tabular.set_stats tabular_agent [0].

(** The first result the SARSA loop lists from cell 0 with action 0. *)
Definition sarsa_run : Tabular.Agent corridor * bool :=
  nth_result 0 (SarsaAgent.loop 1 tabular_started [0%Z] 0) (tabular_started, false).

(** A DQN agent with small settings, inside an episode: minibatches of
    two, a memory of three that holds two transitions, a synchronisation
    every two passes. *)
Definition dqn_small : DQNAgent.Agent corridor bias_net plain_opt :=
  @DQNAgent.mkAgent corridor bias_net plain_opt
    2                                    (* num_episodes *)
    (99 # 100)                           (* gamma *)
    (1 # 10)                             (* epsilon *)
    (Deque.mkDeque 3 [([0], 1%nat, 0, [1 # 2], false);
                      ([1 # 2], 0%nat, 1, [1 # 4], true)])
    2                                    (* batch_size *)
    0%nat                                (* world *)
    1 2                                  (* state_size, action_size *)
    tt                                   (* optimizer *)
    0 1                                  (* model, target_model *)
    (fun _ => [0; 1])                    (* nets *)
    0 2                                  (* counter, frequency *)
    [0]                                  (* stats_rewards *)
    50 200.

Definition dqn_trained : DQNAgent.Agent corridor bias_net plain_opt :=
  nth_result 0 (DQNAgent.train dqn_small) dqn_small.

Definition dqn_small_1 : DQNAgent.Agent corridor bias_net plain_opt :=
  fst (nth_result 0 (DQNAgent.step dqn_small [0]) (dqn_small, None)).

Definition dqn_small_2 : DQNAgent.Agent corridor bias_net plain_opt :=
  fst (nth_result 0 (DQNAgent.step dqn_small_1 [0]) (dqn_small_1, None)).

Definition three_transitions : list DQNAgent.transition :=
  [([0], 1%nat, 0, [1 # 2], false);
   ([1 # 2], 1%nat, 0, [1 # 2], false);
   ([1 # 2], 0%nat, 1, [1 # 4], true)].

(** The actor-critic agent at the start of an episode and after one pass
    that takes action 1. *)
Definition ac_started : ACAgent.Agent corridor bias_net bias_net plain_opt plain_opt :=
  fst (nth_result 0 (ACAgent.begin_episode ac_agent) (ac_agent, [])).

Definition ac_after_1 : ACAgent.Agent corridor bias_net bias_net plain_opt plain_opt :=
  fst (nth_result 1 (ACAgent.step ac_log ac_started [0]) (ac_started, None)).

(** Two passes that take action 1, and then the pass that takes action 0
    and ends the episode. *)
Definition ac_after_2 : ACAgent.Agent corridor bias_net bias_net plain_opt plain_opt :=
  fst (nth_result 1 (ACAgent.step ac_log ac_after_1 [1 # 2]) (ac_after_1, None)).

Definition ac_after_3 : ACAgent.Agent corridor bias_net bias_net plain_opt plain_opt :=
  fst (nth_result 0 (ACAgent.step ac_log ac_after_2 [1 # 2]) (ac_after_2, None)).

(** The first minibatch [random.sample] lists for the small DQN agent: its
    two transitions, the second of which ends the episode. *)
Definition dqn_minibatch : list DQNAgent.transition :=
  nth_result 0 (random_sample (Deque.items (DQNAgent.memory dqn_small))
                              (DQNAgent.batch_size dqn_small)) [].

(** The first result the Q-learning loop lists from cell 0. *)
Definition q_learning_run : Tabular.Agent corridor * bool :=
  nth_result 0 (QLearningAgent.loop 1 tabular_started [0%Z]) (tabular_started, false).

(** The tabular agent set to train for a single episode. *)
Definition tabular_brief : Tabular.Agent corridor :=
  Tabular.mkAgent corridor
    0%nat                                (* world *)
    (Tabular.grid_size tabular_agent)
    [2%Z]                                (* shape *)
    (Tabular.q_table tabular_agent)
    1                                    (* num_episodes *)
    (3 # 10) (1 # 10) (99 # 100)         (* epsilon, alpha, gamma *)
    200 500                              (* verbose, to_show *)
    [].

Definition sarsa_brief_run : Tabular.Agent corridor * bool :=
  nth_result 0 (SarsaAgent.execute 2 tabular_brief) (tabular_brief, false).

Definition q_learning_brief_run : Tabular.Agent corridor * bool :=
  nth_result 0 (QLearningAgent.execute 2 tabular_brief) (tabular_brief, false).

(** A DQN agent whose memory holds a single transition while a minibatch
    needs two; its networks prefer action 0, which ends the episode. *)
Definition dqn_starved : DQNAgent.Agent corridor bias_net plain_opt :=
  @DQNAgent.mkAgent corridor bias_net plain_opt
    1                                    (* num_episodes *)
    (99 # 100)                           (* gamma *)
    0                                    (* epsilon *)
    (Deque.mkDeque 1 [])
    2                                    (* batch_size *)
    0%nat                                (* world *)
    1 2                                  (* state_size, action_size *)
    tt                                   (* optimizer *)
    0 1                                  (* model, target_model *)
    (fun _ => [1; 0])                    (* nets *)
    0 2                                  (* counter, frequency *)
    []                                   (* stats_rewards *)
    50 200.

Definition dqn_starved_run : DQNAgent.Agent corridor bias_net plain_opt * bool :=
  nth_result 0 (DQNAgent.execute 2 dqn_starved) (dqn_starved, false).

Definition dqn_starved_begun : DQNAgent.Agent corridor bias_net plain_opt :=
  fst (nth_result 0 (DQNAgent.begin_episode dqn_starved) (dqn_starved, [])).

Definition dqn_starved_1 : DQNAgent.Agent corridor bias_net plain_opt :=
  fst (nth_result 0 (DQNAgent.step dqn_starved_begun [0]) (dqn_starved_begun, None)).

(** The small DQN agent with a target update frequency of 0. *)
Definition dqn_unsynced : DQNAgent.Agent corridor bias_net plain_opt :=
  @DQNAgent.mkAgent corridor bias_net plain_opt
    2                                    (* num_episodes *)
    (99 # 100)                           (* gamma *)
    (1 # 10)                             (* epsilon *)
    (Deque.mkDeque 3 [([0], 1%nat, 0, [1 # 2], false);
                      ([1 # 2], 0%nat, 1, [1 # 4], true)])
    2                                    (* batch_size *)
    0%nat                                (* world *)
    1 2                                  (* state_size, action_size *)
    tt                                   (* optimizer *)
    0 1                                  (* model, target_model *)
    (fun _ => [0; 1])                    (* nets *)
    0 0                                  (* counter, frequency *)
    [0]                                  (* stats_rewards *)
    50 200.

Definition dqn_unsynced_1 : DQNAgent.Agent corridor bias_net plain_opt :=
  fst (nth_result 0 (DQNAgent.step dqn_unsynced [0]) (dqn_unsynced, None)).

(** The first result an episode of the PG agent lists, with [ac_log] for
    the logarithm. *)
Definition pg_episode_run : PGAgent.Agent corridor bias_net plain_opt * bool :=
  nth_result 0 (PGAgent.run_episode ac_log 2 pg_agent 1) (pg_agent, false).

(** The PG agent set to train for a single episode. *)
Definition pg_brief : PGAgent.Agent corridor bias_net plain_opt :=
  @PGAgent.mkAgent corridor bias_net plain_opt
    1                                    (* num_episodes *)
    (99 # 100)                           (* gamma *)
    0%nat                                (* world *)
    1 2                                  (* state_size, action_size *)
    [1 # 2; 1 # 2]                       (* model *)
    tt                                   (* optimizer *)
    [] [] []                             (* memory *)
    []                                   (* stats_rewards *)
    200 (-1).

Definition pg_brief_run : PGAgent.Agent corridor bias_net plain_opt * bool :=
  nth_result 0 (PGAgent.execute ac_log 2 pg_brief) (pg_brief, false).

(** The first result a rollout of the actor-critic agent lists. *)
Definition ac_act_run
  : ACAgent.Agent corridor bias_net bias_net plain_opt plain_opt * option Q :=
  nth_result 0 (ACAgent.act 2 ac_agent) (ac_agent, None).

(** An environment whose every action ends the episode, on an observation
    equal to the upper bound of the observation space. *)
Definition bandit : Env :=
  {| env_state := nat;
     obs_low := [0];
     obs_high := [1];
     action_n := 2;
     env_reset := fun _ => ret (0%nat, [0]);
     env_step := fun s a => ret (S s, [1], inject_Z (Z.of_nat a), true);
     env_render := fun s => s;
     env_close := fun s => s |}.

(** The tabular agent on the bandit with a grid of two cells, inside an
    episode. *)
Definition bandit_started : Tabular.Agent bandit :=
  Tabular.set_stats (Tabular.init bandit 0%nat [2%Z]) [0].

(** The tabular agent on the corridor with a grid of three cells, and the
    largest double below 1. *)
Definition tabular_three : Tabular.Agent corridor :=
  Tabular.init corridor 0%nat [3%Z].

Definition below_one : Q := (2 ^ 53 - 1) # (2 ^ 53).

(** A new DQN agent at the start of its first episode and after one pass
    through the loop body. *)
Definition dqn_new_begun : DQNAgent.Agent corridor bias_net plain_opt :=
  fst (nth_result 0 (DQNAgent.begin_episode (dqn_agent [1; 0])) (dqn_agent [1; 0], [])).

Definition dqn_new_1 : DQNAgent.Agent corridor bias_net plain_opt :=
  fst (nth_result 0 (DQNAgent.step dqn_new_begun [0]) (dqn_new_begun, None)).

End Toy.


(** * Verified properties *)

(** ** The discretizer *)

(** C1, at the boundary: on the unit interval cut into two cells, the
    observation equal to [high] is sent to the index 2, one past the last
    cell, and the lookup of its row in the Q-table is an IndexError. *)
Theorem C1_boundary_index_out_of_range :
  let agent := Tabular.init Toy.corridor 0%nat [2%Z] in
  Tabular.get_discrete_state agent (obs_high Toy.corridor) = [2%Z]
  /\ Tabular.shape agent = [2%Z]
  /\ Tabular.q_row agent (Tabular.get_discrete_state agent (obs_high Toy.corridor)) = None.
Proof. repeat split. Qed.

(** Inside the SARSA loop: when the environment returns an observation on
    the upper bound, the pass through the loop body has no result at all,
    the lookup [self.q_table[new_state]] having raised. *)
Example sarsa_step_at_boundary :
  SarsaAgent.step (Tabular.set_stats (Tabular.init Toy.corridor_edge 0%nat [2%Z]) [0])
                  [0%Z] 0
  = raise.
Proof. vm_compute. reflexivity. Qed.

(** ** Distributions *)

Lemma expect_ext {A} (d : dist A) (g h : A -> Q) :
  (forall a, g a == h a) -> expect d g == expect d h.
Proof.
  intros E. unfold expect. induction d as [| [w a] d IH]; simpl; [reflexivity |].
  rewrite IH, (E a). reflexivity.
Qed.

Lemma expect_app {A} (d1 d2 : dist A) (g : A -> Q) :
  expect (d1 ++ d2) g == expect d1 g + expect d2 g.
Proof.
  unfold expect. induction d1 as [| [w a] d1 IH]; simpl; [ring |].
  rewrite IH. ring.
Qed.

Lemma expect_scale {A} (w : Q) (d : dist A) (g : A -> Q) :
  expect (scale w d) g == w * expect d g.
Proof.
  unfold expect, scale. induction d as [| [v a] d IH]; simpl; [ring |].
  rewrite IH. ring.
Qed.

Lemma expect_bind {A B} (d : dist A) (f : A -> dist B) (g : B -> Q) :
  expect (bind d f) g == expect d (fun a => expect (f a) g).
Proof.
  unfold bind. induction d as [| [w a] d IH]; simpl; [reflexivity |].
  rewrite expect_app, expect_scale, IH. reflexivity.
Qed.

Lemma expect_ret {A} (a : A) (g : A -> Q) : expect (ret a) g == g a.
Proof. unfold expect, ret. simpl. ring. Qed.

Lemma expect_raise {A} (g : A -> Q) : expect raise g == 0.
Proof. reflexivity. Qed.

Lemma expect_uniform {A} (xs : list A) (g : A -> Q) :
  expect (uniform xs) g
  == 1 / inject_Z (Z.of_nat (length xs)) * Np.sum_list (map g xs).
Proof.
  unfold uniform. generalize (1 / inject_Z (Z.of_nat (length xs))). intros c.
  unfold expect. induction xs as [| x xs IH]; simpl; [ring |].
  rewrite IH. ring.
Qed.

Lemma expect_random_lt (eps : Q) (g : bool -> Q) :
  0 <= eps -> eps <= 1 ->
  expect (random_lt eps) g == eps * g true + (1 - eps) * g false.
Proof.
  intros H0 H1. unfold random_lt.
  destruct (Qle_bool eps 0) eqn:E0.
  - apply Qle_bool_iff in E0. assert (E : eps == 0) by lra.
    rewrite expect_ret, E. ring.
  - destruct (Qle_bool 1 eps) eqn:E1.
    + apply Qle_bool_iff in E1. assert (E : eps == 1) by lra.
      rewrite expect_ret, E. ring.
    + unfold expect. simpl. ring.
Qed.

(** Counting the occurrences of [a] in a list without repetition. *)
Lemma sum_indicator_nodup (a : nat) (l : list nat) :
  NoDup l ->
  Np.sum_list (map (fun x => if Nat.eqb a x then 1 else 0) l)
  == if existsb (Nat.eqb a) l then 1 else 0.
Proof.
  induction 1 as [| x l Hx Hl IH]; simpl; [reflexivity |].
  rewrite IH. destruct (Nat.eqb a x) eqn:E; simpl.
  - apply Nat.eqb_eq in E. subst x.
    destruct (existsb (Nat.eqb a) l) eqn:Ex; [| ring].
    apply existsb_exists in Ex. destruct Ex as [y [Hy Ey]].
    apply Nat.eqb_eq in Ey. subst y. contradiction.
  - ring.
Qed.

Lemma existsb_seq (a s n : nat) :
  existsb (Nat.eqb a) (seq s n) = (Nat.leb s a && Nat.ltb a (s + n))%bool.
Proof.
  revert s. induction n as [| n IH]; intros s; simpl.
  - destruct (Nat.leb s a) eqn:E1, (Nat.ltb a (s + 0)) eqn:E2; try reflexivity.
    apply Nat.leb_le in E1. apply Nat.ltb_lt in E2. lia.
  - rewrite IH.
    destruct (Nat.eqb a s) eqn:E, (Nat.leb (S s) a) eqn:E1, (Nat.ltb a (S s + n)) eqn:E2,
      (Nat.leb s a) eqn:E3, (Nat.ltb a (s + S n)) eqn:E4; simpl; try reflexivity;
      repeat match goal with
             | H : Nat.eqb _ _ = true |- _ => apply Nat.eqb_eq in H
             | H : Nat.eqb _ _ = false |- _ => apply Nat.eqb_neq in H
             | H : Nat.leb _ _ = true |- _ => apply Nat.leb_le in H
             | H : Nat.leb _ _ = false |- _ => apply Nat.leb_gt in H
             | H : Nat.ltb _ _ = true |- _ => apply Nat.ltb_lt in H
             | H : Nat.ltb _ _ = false |- _ => apply Nat.ltb_ge in H
             end; lia.
Qed.

(** [np.random.randint(0, n)] returns each of [0 .. n-1] with probability
    [1/n]. *)
Lemma pr_randint (n a : nat) :
  pr (randint 0 n) (Nat.eqb a) == uniform_on n a.
Proof.
  unfold pr, randint, uniform_on. rewrite expect_uniform.
  rewrite sum_indicator_nodup by apply seq_NoDup.
  rewrite existsb_seq, length_seq, Nat.sub_0_r. simpl.
  destruct (Nat.ltb a n); ring.
Qed.

Lemma nth_error_seq_all {A} (l : list A) :
  map (nth_error l) (seq 0 (length l)) = map Some l.
Proof.
  induction l as [| x l IH]; simpl; [reflexivity |].
  rewrite <- seq_shift, map_map. simpl. f_equal. exact IH.
Qed.

(** Drawing a position of [l] uniformly and returning the member there is
    drawing a member of [l] uniformly. *)
Lemma expect_uniform_position {A} (l : list A) (g : A -> Q) :
  expect (bind (randint 0 (length l)) (fun j => lift_opt (nth_error l j))) g
  == expect (uniform l) g.
Proof.
  rewrite expect_bind. unfold randint. rewrite !expect_uniform.
  rewrite length_seq, Nat.sub_0_r.
  replace (map (fun a => expect (lift_opt (nth_error l a)) g) (seq 0 (length l)))
    with (map (fun o => expect (lift_opt o) g) (map (nth_error l) (seq 0 (length l))))
    by (rewrite map_map; reflexivity).
  rewrite nth_error_seq_all, map_map.
  assert (E : Np.sum_list (map (fun x => expect (lift_opt (Some x)) g) l)
              == Np.sum_list (map g l)).
  { induction l as [| x l IH]; simpl; [reflexivity |].
    rewrite IH. unfold expect. simpl. ring. }
  rewrite E. reflexivity.
Qed.

(** ** [np.max], [np.argmax] and the list of maximizing indices *)

Lemma Qmax_cases (x y : Q) : (Qmax x y = x /\ y <= x) \/ (Qmax x y = y /\ x <= y).
Proof.
  unfold Qmax, GenericMinMax.gmax. destruct (x ?= y) eqn:E.
  - left. split; [reflexivity |]. apply Qeq_alt in E. lra.
  - right. split; [reflexivity |]. apply Qlt_alt in E. lra.
  - left. split; [reflexivity |]. apply Qgt_alt in E. lra.
Qed.

Lemma fold_max_spec (xs : list Q) (x : Q) :
  let m := fold_left Qmax xs x in
  In m (x :: xs) /\ forall y, In y (x :: xs) -> y <= m.
Proof.
  revert x. induction xs as [| z xs IH]; intros x; simpl.
  - split; [left; reflexivity |]. intros y [<- | []]. lra.
  - specialize (IH (Qmax x z)). simpl in IH. destruct IH as [Hin Hle].
    destruct (Qmax_cases x z) as [[E Hz] | [E Hz]]; rewrite E in *.
    + split.
      * destruct Hin as [H | H]; [left; exact H | right; right; exact H].
      * intros y [<- | [<- | H]].
        -- apply Hle. left. reflexivity.
        -- apply Qle_trans with x; [exact Hz | apply Hle; left; reflexivity].
        -- apply Hle. right. exact H.
    + split.
      * destruct Hin as [H | H]; [right; left; exact H | right; right; exact H].
      * intros y [<- | [<- | H]].
        -- apply Qle_trans with z; [exact Hz | apply Hle; left; reflexivity].
        -- apply Hle. left. reflexivity.
        -- apply Hle. right. exact H.
Qed.

Lemma np_max_spec (l : list Q) (m : Q) :
  Np.max l = Some m -> In m l /\ forall y, In y l -> y <= m.
Proof.
  destruct l as [| x xs]; simpl; [discriminate |].
  intros E. injection E as <-. apply (fold_max_spec xs x).
Qed.

Lemma np_max_some (l : list Q) : l <> [] -> exists m, Np.max l = Some m.
Proof. destruct l; [congruence |]. intros _. eexists. reflexivity. Qed.

Lemma map_fst_combine_seq {A} (l : list A) (s : nat) :
  map fst (combine (seq s (length l)) l) = seq s (length l).
Proof.
  revert s. induction l as [| x l IH]; intros s; simpl; [reflexivity |].
  rewrite IH. reflexivity.
Qed.

Lemma NoDup_map_fst_filter {A B} (p : A * B -> bool) (l : list (A * B)) :
  NoDup (map fst l) -> NoDup (map fst (filter p l)).
Proof.
  induction l as [| x l IH]; simpl; intros H; [constructor |].
  inversion H as [| ? ? Hx Hl]; subst.
  destruct (p x); simpl; [| apply IH; exact Hl].
  constructor; [| apply IH; exact Hl].
  intros Hin. apply Hx. apply in_map_iff in Hin. destruct Hin as [y [Ey Hy]].
  apply filter_In in Hy. apply in_map_iff. exists y. tauto.
Qed.

Lemma q_max_actions_NoDup (q_values : list Q) (m : Q) :
  NoDup (Tabular.q_max_actions q_values m).
Proof.
  unfold Tabular.q_max_actions, Np.enumerate.
  apply NoDup_map_fst_filter. rewrite map_fst_combine_seq. apply seq_NoDup.
Qed.

Lemma in_combine_seq {A} (l : list A) (s i : nat) (x : A) :
  In (i, x) (combine (seq s (length l)) l)
  <-> (s <= i)%nat /\ nth_error l (i - s) = Some x.
Proof.
  revert s. induction l as [| y l IH]; intros s; simpl.
  - split; [intros [] |]. intros [_ H]. destruct (i - s)%nat; discriminate.
  - rewrite IH. split.
    + intros [E | [Hs Hn]].
      * injection E as -> ->. rewrite Nat.sub_diag. split; [lia | reflexivity].
      * split; [lia |]. replace (i - s)%nat with (S (i - S s)) by lia. exact Hn.
    + intros [Hs Hn]. destruct (i - s)%nat as [| k] eqn:E.
      * left. simpl in Hn. injection Hn as ->. f_equal. lia.
      * right. split; [lia |]. simpl in Hn. replace (i - S s)%nat with k by lia.
        exact Hn.
Qed.

Lemma q_max_actions_In (q_values : list Q) (m : Q) (a : nat) :
  In a (Tabular.q_max_actions q_values m)
  <-> exists x, nth_error q_values a = Some x /\ x == m.
Proof.
  unfold Tabular.q_max_actions, Np.enumerate. rewrite in_map_iff. split.
  - intros [[i x] [E H]]. simpl in E. subst i.
    apply filter_In in H. destruct H as [H Hp]. simpl in Hp.
    apply in_combine_seq in H. rewrite Nat.sub_0_r in H.
    exists x. split; [tauto | apply Qeq_bool_iff; exact Hp].
  - intros [x [Hn Hx]]. exists (a, x). split; [reflexivity |].
    apply filter_In. split.
    + apply in_combine_seq. rewrite Nat.sub_0_r. split; [lia | exact Hn].
    + simpl. apply Qeq_bool_iff. exact Hx.
Qed.

(** The list the tabular selector draws from is exactly the set of
    maximizing indices. *)
Lemma q_max_actions_argmax (q_values : list Q) (m : Q) (a : nat) :
  Np.max q_values = Some m ->
  In a (Tabular.q_max_actions q_values m) <-> is_argmax q_values a.
Proof.
  intros Hm. apply np_max_spec in Hm. destruct Hm as [Hin Hle].
  rewrite q_max_actions_In. unfold is_argmax. split.
  - intros [x [Hn Hx]]. split.
    + apply nth_error_Some. congruence.
    + intros b Hb. rewrite (nth_error_nth _ _ 0 Hn), Hx.
      apply Hle. apply nth_In. exact Hb.
  - intros [Ha Hmax]. exists (nth a q_values 0). split.
    + apply nth_error_nth'. exact Ha.
    + apply Qle_antisym.
      * apply Hle. apply nth_In. exact Ha.
      * destruct (In_nth _ _ 0 Hin) as [b [Hb Eb]]. rewrite <- Eb. apply Hmax. exact Hb.
Qed.

Lemma pr_uniform_nodup (l : list nat) (a : nat) :
  NoDup l -> pr (uniform l) (Nat.eqb a) == uniform_over l a.
Proof.
  intros H. unfold pr, uniform_over. rewrite expect_uniform.
  rewrite sum_indicator_nodup by exact H.
  destruct (existsb (Nat.eqb a) l); ring.
Qed.

(** The tabular selector: with probability [eps] a uniform index, otherwise
    a uniform member of the list of maximizing indices. *)
Lemma pr_epsilon_greedy_selection (q_values : list Q) (eps m : Q) (a : nat) :
  0 <= eps -> eps <= 1 -> Np.max q_values = Some m ->
  pr (Tabular.epsilon_greedy_selection q_values eps) (Nat.eqb a)
  == eps * uniform_on (length q_values) a
     + (1 - eps) * uniform_over (Tabular.q_max_actions q_values m) a.
Proof.
  intros H0 H1 Hm. unfold pr, Tabular.epsilon_greedy_selection.
  rewrite expect_bind, expect_random_lt by assumption.
  rewrite Hm. fold (pr (randint 0 (length q_values)) (Nat.eqb a)).
  rewrite pr_randint.
  assert (E : expect (bind (lift_opt (Some m))
                (fun q_max => bind (randint 0 (length (Tabular.q_max_actions q_values q_max)))
                   (fun j => lift_opt (nth_error (Tabular.q_max_actions q_values q_max) j))))
                (fun x => if Nat.eqb a x then 1 else 0)
              == uniform_over (Tabular.q_max_actions q_values m) a).
  { rewrite expect_bind. simpl lift_opt. rewrite expect_ret.
    rewrite expect_uniform_position.
    apply pr_uniform_nodup. apply q_max_actions_NoDup. }
  rewrite E. reflexivity.
Qed.

Lemma argmax_from_spec (full l p : list Q) (i best : nat) (bv : Q) :
  full = p ++ l -> length p = i -> (best < i)%nat -> bv = nth best full 0 ->
  (forall b, (b < i)%nat -> nth b full 0 <= bv) ->
  (forall b, (b < best)%nat -> nth b full 0 < bv) ->
  let k := Np.argmax_from i best bv l in
  (k < length full)%nat
  /\ (forall b, (b < length full)%nat -> nth b full 0 <= nth k full 0)
  /\ (forall b, (b < k)%nat -> nth b full 0 < nth k full 0).
Proof.
  revert p i best bv. induction l as [| x xs IH]; intros p i best bv Hf Hp Hb Hbv Hle Hlt.
  - simpl. rewrite app_nil_r in Hf. subst full. rewrite Hp. rewrite <- Hbv.
    split; [exact Hb |]. split; assumption.
  - simpl. assert (Hx : nth i full 0 = x).
    { subst full. rewrite app_nth2 by lia. rewrite Hp, Nat.sub_diag. reflexivity. }
    assert (Hf' : full = (p ++ [x]) ++ xs) by (rewrite <- app_assoc; exact Hf).
    assert (Hp' : length (p ++ [x]) = S i) by (rewrite length_app; simpl; lia).
    destruct (Qlt_le_dec bv x) as [Hlt' | Hge].
    + apply (IH (p ++ [x]) (S i) i x Hf' Hp'); [lia | congruence | |].
      * intros b Hb'. destruct (Nat.eq_dec b i) as [-> | Hne].
        -- rewrite Hx. lra.
        -- apply Qle_trans with bv; [apply Hle; lia | lra].
      * intros b Hb'. apply Qle_lt_trans with bv; [apply Hle; exact Hb' | exact Hlt'].
    + apply (IH (p ++ [x]) (S i) best bv Hf' Hp'); [lia | exact Hbv | | exact Hlt].
      intros b Hb'. destruct (Nat.eq_dec b i) as [-> | Hne].
      * rewrite Hx. exact Hge.
      * apply Hle. lia.
Qed.

(** [np.argmax] returns the first of the maximizing indices. *)
Lemma argmax_spec (l : list Q) (k : nat) :
  Np.argmax l = Some k ->
  is_argmax l k /\ forall b, (b < k)%nat -> nth b l 0 < nth k l 0.
Proof.
  destruct l as [| x xs]; simpl; [discriminate |].
  intros E. injection E as <-.
  destruct (argmax_from_spec (x :: xs) xs [x] 1 0 x) as [H1 [H2 H3]];
    try reflexivity; try lia.
  - intros b Hb. replace b with 0%nat by lia. simpl. lra.
  - unfold is_argmax. split; [split |]; assumption.
Qed.

Lemma argmax_some (l : list Q) : l <> [] -> exists k, Np.argmax l = Some k.
Proof. destruct l; [congruence |]. intros _. eexists. reflexivity. Qed.

(** The DQN selector: with probability [eps] a uniform index, otherwise
    the index [np.argmax] returns. *)
Lemma pr_select_action {env net opt} (self : DQNAgent.Agent env net opt)
  (state : list Q) (eps : Q) (k a : nat) :
  0 <= eps -> eps <= 1 ->
  Np.argmax (net_predict net (DQNAgent.nets self (DQNAgent.model self)) state) = Some k ->
  pr (DQNAgent.select_action self state eps) (Nat.eqb a)
  == eps * uniform_on (DQNAgent.action_size self) a
     + (1 - eps) * (if Nat.eqb a k then 1 else 0).
Proof.
  intros H0 H1 Hk. unfold pr, DQNAgent.select_action.
  rewrite expect_bind, expect_random_lt by assumption.
  rewrite Hk. fold (pr (randint 0 (DQNAgent.action_size self)) (Nat.eqb a)).
  rewrite pr_randint. simpl lift_opt. rewrite expect_ret. reflexivity.
Qed.

Lemma sum_ones {A} (xs : list A) :
  Np.sum_list (map (fun _ => 1) xs) == inject_Z (Z.of_nat (length xs)).
Proof.
  induction xs as [| x xs IH]; [reflexivity |].
  cbn [map Np.sum_list fold_right length]. fold (Np.sum_list (map (fun _ : A => 1) xs)).
  rewrite IH, Nat2Z.inj_succ. unfold Z.succ. rewrite inject_Z_plus. ring.
Qed.

(** A uniform draw from a non-empty list always returns. *)
Lemma uniform_total {A} (xs : list A) :
  xs <> [] -> expect (uniform xs) (fun _ => 1) == 1.
Proof.
  intros H. rewrite expect_uniform, sum_ones. field.
  intros E. destruct xs; [congruence |].
  assert (Hp : inject_Z 0 < inject_Z (Z.of_nat (length (a :: xs))))
    by (rewrite <- Zlt_Qlt; simpl length; lia).
  rewrite E in Hp. exact (Qlt_irrefl _ Hp).
Qed.

(** On a non-empty value vector the tabular selector always returns an
    action: no probability is lost to an exception. *)
Lemma epsilon_greedy_selection_total (q_values : list Q) (eps : Q) :
  0 <= eps -> eps <= 1 -> q_values <> [] ->
  expect (Tabular.epsilon_greedy_selection q_values eps) (fun _ => 1) == 1.
Proof.
  intros H0 H1 Hne. unfold Tabular.epsilon_greedy_selection.
  rewrite expect_bind, expect_random_lt by assumption.
  destruct (np_max_some q_values Hne) as [m Hm]. rewrite Hm.
  assert (E1 : expect (randint 0 (length q_values)) (fun _ => 1) == 1).
  { unfold randint. apply uniform_total. destruct q_values; [congruence | discriminate]. }
  assert (E2 : expect (bind (lift_opt (Some m))
                 (fun q_max => bind (randint 0 (length (Tabular.q_max_actions q_values q_max)))
                    (fun j => lift_opt (nth_error (Tabular.q_max_actions q_values q_max) j))))
                 (fun _ => 1) == 1).
  { rewrite expect_bind. simpl lift_opt. rewrite expect_ret.
    rewrite expect_uniform_position. apply uniform_total.
    intros E. destruct (np_max_spec _ _ Hm) as [Hin _].
    destruct (In_nth _ _ 0 Hin) as [b [Hb Eb]].
    assert (Hb' : In b (Tabular.q_max_actions q_values m)).
    { apply q_max_actions_In. exists m. split; [| reflexivity].
      rewrite <- Eb. apply nth_error_nth'. exact Hb. }
    rewrite E in Hb'. exact Hb'. }
  rewrite E1, E2. ring.
Qed.

(** C2, as amended: for a non-empty value vector and an exploration
    probability in [[0, 1]], the tabular selector returns a uniformly random
    index with probability [eps] and otherwise a uniformly random member of
    the set of all maximizing indices; the DQN selector returns a uniformly
    random index with probability [eps] and otherwise the first maximizing
    index, with no random choice among ties. *)
Theorem C2_epsilon_greedy_selectors (q_values : list Q) (eps : Q) :
  0 <= eps -> eps <= 1 -> q_values <> [] ->
  (exists acts,
      NoDup acts /\ acts <> []
      /\ (forall a, In a acts <-> is_argmax q_values a)
      /\ forall a,
          pr (Tabular.epsilon_greedy_selection q_values eps) (Nat.eqb a)
          == eps * uniform_on (length q_values) a + (1 - eps) * uniform_over acts a)
  /\ (forall env net opt (self : DQNAgent.Agent env net opt) state,
         net_predict net (DQNAgent.nets self (DQNAgent.model self)) state = q_values ->
         exists k,
           is_argmax q_values k
           /\ (forall b, (b < k)%nat -> nth b q_values 0 < nth k q_values 0)
           /\ forall a,
               pr (DQNAgent.select_action self state eps) (Nat.eqb a)
               == eps * uniform_on (DQNAgent.action_size self) a
                  + (1 - eps) * (if Nat.eqb a k then 1 else 0)).
Proof.
  intros H0 H1 Hne. split.
  - destruct (np_max_some q_values Hne) as [m Hm].
    exists (Tabular.q_max_actions q_values m).
    split; [apply q_max_actions_NoDup |]. split; [| split].
    + intros E. destruct (np_max_spec _ _ Hm) as [Hin _].
      destruct (In_nth _ _ 0 Hin) as [b [Hb Eb]].
      assert (Hb' : In b (Tabular.q_max_actions q_values m)).
      { apply q_max_actions_In. exists m. split; [| reflexivity].
        rewrite <- Eb. apply nth_error_nth'. exact Hb. }
      rewrite E in Hb'. exact Hb'.
    + intros a. apply q_max_actions_argmax. exact Hm.
    + intros a. apply pr_epsilon_greedy_selection; assumption.
  - intros env net opt self state Hq.
    destruct (argmax_some q_values Hne) as [k Hk]. exists k.
    destruct (argmax_spec _ _ Hk) as [Hk1 Hk2].
    split; [exact Hk1 |]. split; [exact Hk2 |].
    intros a. apply pr_select_action; try assumption. rewrite Hq. exact Hk.
Qed.

(** ** Possible results *)

Lemma supp_ret {A} (a b : A) : supp (ret a) b <-> b = a.
Proof.
  unfold supp, ret. split.
  - intros [w [H | []]]. congruence.
  - intros ->. exists 1. left. reflexivity.
Qed.

Lemma supp_raise {A} (a : A) : ~ supp raise a.
Proof. intros [w []]. Qed.

Lemma supp_lift_opt {A} (o : option A) (a : A) : supp (lift_opt o) a <-> o = Some a.
Proof.
  destruct o as [x |]; simpl.
  - rewrite supp_ret. split; congruence.
  - split; [intros H; destruct (supp_raise _ H) | discriminate].
Qed.

Lemma supp_scale {A} (w : Q) (d : dist A) (a : A) : supp (scale w d) a <-> supp d a.
Proof.
  unfold supp, scale. split.
  - intros [v H]. apply in_map_iff in H. destruct H as [[u x] [E H]].
    simpl in E. injection E as _ ->. exists u. exact H.
  - intros [v H]. exists (w * v). apply in_map_iff. exists (v, a). split; [reflexivity | exact H].
Qed.

Lemma supp_bind {A B} (d : dist A) (f : A -> dist B) (b : B) :
  supp (bind d f) b <-> exists a, supp d a /\ supp (f a) b.
Proof.
  unfold bind. split.
  - intros [w H]. apply in_flat_map in H. destruct H as [[v a] [Ha Hb]].
    exists a. split; [exists v; exact Ha |].
    apply (supp_scale v). exists w. exact Hb.
  - intros [a [[v Ha] Hb]]. apply (supp_scale v) in Hb. destruct Hb as [w Hb].
    exists w. apply in_flat_map. exists (v, a). split; assumption.
Qed.

(** ** The tabular update *)

Lemma list_set_same {A} (l : list A) (i : nat) (v : A) :
  (i < length l)%nat -> nth_error (Np.list_set l i v) i = Some v.
Proof.
  revert i. induction l as [| x l IH]; intros [| i] H; simpl in *; try lia.
  - reflexivity.
  - apply IH. lia.
Qed.

Lemma list_set_other {A} (l : list A) (i j : nat) (v : A) :
  i <> j -> nth_error (Np.list_set l i v) j = nth_error l j.
Proof.
  revert i j. induction l as [| x l IH]; intros [| i] [| j] H; simpl; try reflexivity.
  - congruence.
  - apply IH. congruence.
Qed.

Lemma list_set_length {A} (l : list A) (i : nat) (v : A) :
  length (Np.list_set l i v) = length l.
Proof.
  revert i. induction l as [| x l IH]; intros [| i]; simpl; try reflexivity.
  rewrite IH. reflexivity.
Qed.

Lemma q_set_spec {env} (self self' : Tabular.Agent env) (state : list Z)
  (action : nat) (v : Q) :
  Tabular.q_set self state action v = Some self' ->
  exists cell,
    Np.norm_indices (Tabular.shape self) state = Some cell
    /\ nth_error (Tabular.q_table self' cell) action = Some v
    /\ (forall c a, c <> cell \/ a <> action ->
          nth_error (Tabular.q_table self' c) a = nth_error (Tabular.q_table self c) a)
    /\ same_setup self self'
    /\ Tabular.stats_rewards self' = Tabular.stats_rewards self
    /\ Tabular.world self' = Tabular.world self.
Proof.
  unfold Tabular.q_set. destruct (Np.norm_indices _ state) as [cell |]; [| discriminate].
  destruct (Nat.ltb action _) eqn:E; [| discriminate].
  apply Nat.ltb_lt in E. intros H. injection H as <-. exists cell. simpl.
  split; [reflexivity |]. split; [| split].
  - destruct (list_eq_dec Z.eq_dec cell cell); [| congruence].
    apply list_set_same. exact E.
  - intros c a Hca. destruct (list_eq_dec Z.eq_dec c cell) as [-> | Hc]; [| reflexivity].
    apply list_set_other. destruct Hca; congruence.
  - repeat split.
Qed.

Lemma stats_add_spec {env} (self self' : Tabular.Agent env) (reward : Q) :
  Tabular.stats_add self reward = Some self' ->
  Tabular.q_table self' = Tabular.q_table self
  /\ same_setup self self'
  /\ Tabular.world self' = Tabular.world self.
Proof.
  unfold Tabular.stats_add. destruct (Tabular.add_to_last _ _); [| discriminate].
  intros H. injection H as <-. repeat split.
Qed.

Lemma sarsa_step_law {env} (self : Tabular.Agent env) (state : list Z) (action : nat)
  (self' : Tabular.Agent env) (next : option (list Z * nat)) :
  supp (SarsaAgent.step self state action) (self', next) ->
  sarsa_law self state action self' next.
Proof.
  unfold SarsaAgent.step. intros H.
  apply supp_bind in H. destruct H as [[[[w new_obs] reward] done] [Hx H]].
  apply supp_bind in H. destruct H as [next_row [Hx0 H]].
  apply supp_bind in H. destruct H as [new_action [Hx1 H]].
  apply supp_bind in H. destruct H as [target [Hx2 H]].
  apply supp_bind in H. destruct H as [q_old [Hx3 H]].
  apply supp_bind in H. destruct H as [self2 [Hx4 H]].
  apply supp_bind in H. destruct H as [self3 [Hx5 H]].
  apply supp_lift_opt in Hx0, Hx2, Hx3, Hx4, Hx5.
  destruct (q_set_spec _ _ _ _ _ Hx4) as [cell [Hc [Hv [Ho [Hs _]]]]].
  destruct (stats_add_spec _ _ _ Hx5) as [Ht [Hs' _]].
  assert (Hfin : self' = self3
                 /\ next = if done then None
                           else Some (Tabular.get_discrete_state self new_obs, new_action)).
  { destruct done; apply supp_ret in H; injection H as -> ->; split; reflexivity. }
  destruct Hfin as [-> Hnext].
  exists w, new_obs, reward, done, next_row, new_action, target, q_old, cell.
  split; [exact Hx |]. split; [exact Hx0 |]. split; [exact Hx1 |].
  split.
  { unfold SarsaAgent.target in Hx2. simpl in Hx2. destruct done.
    - congruence.
    - destruct (nth_error next_row new_action) as [q |]; [| discriminate].
      exists q. split; [reflexivity | congruence]. }
  split; [exact Hc |]. split.
  { unfold Tabular.q_get, Tabular.q_row in Hx3. simpl in Hx3, Hc.
    rewrite Hc in Hx3. exact Hx3. }
  split; [rewrite Ht; exact Hv |].
  split; [intros c a Hca; rewrite Ht; apply Ho; exact Hca |].
  split.
  { unfold same_setup in *. simpl in *. intuition congruence. }
  exact Hnext.
Qed.

(** C3: every pass through the SARSA loop obeys the update rule
    ([sarsa_law]): the next action is a result of the epsilon-greedy
    selector on [Q[new_state]] with the agent's own [epsilon]; the target
    is [reward] when done and [reward + gamma * Q[new_state][new_action]]
    otherwise; [Q[state][action]] moves by [alpha * (target - Q[state][action])]
    and no other entry changes; and when the episode goes on, the rest of
    the loop runs from exactly the pair [(new_state, new_action)], so that
    the environment next executes the action the target used. *)
Theorem C3_sarsa_time_step {env} (fuel : nat) (self : Tabular.Agent env)
  (state : list Z) (action : nat) (r : Tabular.Agent env * bool) :
  supp (SarsaAgent.loop (S fuel) self state action) r ->
  exists self1 next,
    supp (SarsaAgent.step self state action) (self1, next)
    /\ sarsa_law self state action self1 next
    /\ match next with
       | None => r = (self1, true)
       | Some (state', action') => supp (SarsaAgent.loop fuel self1 state' action') r
       end.
Proof.
  simpl. intros H. apply supp_bind in H. destruct H as [[self1 next] [Hs H]].
  exists self1, next. split; [exact Hs |]. split; [apply sarsa_step_law; exact Hs |].
  destruct next as [[state' action'] |]; [exact H | apply supp_ret in H; exact H].
Qed.

(** ** SARSA and Q-learning targets *)

Lemma supp_uniform {A} (xs : list A) (a : A) : supp (uniform xs) a <-> In a xs.
Proof.
  unfold supp, uniform. split.
  - intros [w H]. apply in_map_iff in H. destruct H as [x [E H]]. congruence.
  - intros H. eexists. apply in_map_iff. exists a. split; [reflexivity | exact H].
Qed.

Lemma supp_randint (n a : nat) : supp (randint 0 n) a <-> (a < n)%nat.
Proof.
  unfold randint. rewrite supp_uniform, in_seq. lia.
Qed.

(** The tabular selector returns an index of the row it is given. *)
Lemma epsilon_greedy_selection_in_range (q_values : list Q) (eps : Q) (a : nat) :
  supp (Tabular.epsilon_greedy_selection q_values eps) a -> (a < length q_values)%nat.
Proof.
  unfold Tabular.epsilon_greedy_selection. intros H.
  apply supp_bind in H. destruct H as [[|] [_ H]].
  - apply supp_randint in H. exact H.
  - apply supp_bind in H. destruct H as [m [_ H]].
    apply supp_bind in H. destruct H as [j [_ H]].
    apply supp_lift_opt in H. apply nth_error_In in H.
    apply q_max_actions_In in H. destruct H as [x [H _]].
    apply nth_error_Some. congruence.
Qed.

Lemma is_argmax_value (l : list Q) (m : Q) (a : nat) :
  Np.max l = Some m -> (a < length l)%nat ->
  (nth a l 0 == m <-> is_argmax l a).
Proof.
  intros Hm Ha. rewrite <- (q_max_actions_argmax l m a Hm), q_max_actions_In.
  pose proof (nth_error_nth' l 0 Ha) as Hq. split.
  - intros E. eexists. split; [exact Hq | exact E].
  - intros [x [Hx E]]. rewrite Hq in Hx. injection Hx as <-. exact E.
Qed.

(** C4: in a transition that does not end the episode, the Q-learning
    target is [reward + gamma * m] with [m] the largest entry of
    [Q[new_state]]; the SARSA target, built from the entry of the chosen
    next action, equals it exactly when the chosen action is a greedy
    (maximizing) one and differs from it otherwise; in particular the two
    targets are equal when the chosen action is not the index [np.argmax]
    returns but holds an equal value.  The discount is taken non-zero, as
    the agents set it (0.99). *)
Theorem C4_sarsa_vs_q_learning_target {env} (self : Tabular.Agent env)
  (new_state : list Z) (next_row : list Q) (reward : Q) (new_action : nat) :
  ~ Tabular.gamma self == 0 ->
  Tabular.q_row self new_state = Some next_row ->
  supp (Tabular.epsilon_greedy_selection next_row (Tabular.epsilon self)) new_action ->
  exists m q,
    Np.max next_row = Some m
    /\ In m next_row /\ (forall y, In y next_row -> y <= m)
    /\ nth_error next_row new_action = Some q
    /\ QLearningAgent.target (Tabular.gamma self) reward false
                              (Tabular.q_row self new_state)
       = Some (reward + Tabular.gamma self * m)
    /\ SarsaAgent.target (Tabular.gamma self) reward false next_row new_action
       = Some (reward + Tabular.gamma self * q)
    /\ (reward + Tabular.gamma self * q == reward + Tabular.gamma self * m
        <-> is_argmax next_row new_action)
    /\ (forall k, Np.argmax next_row = Some k -> new_action <> k ->
                  q == nth k next_row 0 ->
                  reward + Tabular.gamma self * q == reward + Tabular.gamma self * m).
Proof.
  intros Hg Hrow Hsel. apply epsilon_greedy_selection_in_range in Hsel.
  assert (Hne : next_row <> []) by (destruct next_row; [simpl in Hsel; lia | discriminate]).
  destruct (np_max_some next_row Hne) as [m Hm].
  pose proof (nth_error_nth' next_row 0 Hsel) as Hq.
  exists m, (nth new_action next_row 0).
  destruct (np_max_spec _ _ Hm) as [Hin Hle].
  pose proof (is_argmax_value next_row m new_action Hm Hsel) as Hiff.
  split; [exact Hm |]. split; [exact Hin |]. split; [exact Hle |].
  split; [exact Hq |]. split; [| split; [| split]].
  - unfold QLearningAgent.target. rewrite Hrow, Hm. reflexivity.
  - unfold SarsaAgent.target. rewrite Hq. reflexivity.
  - rewrite <- Hiff. split.
    + intros E.
      assert (E' : Tabular.gamma self * nth new_action next_row 0
                   == Tabular.gamma self * m) by lra.
      apply Qmult_inj_l in E'; assumption.
    + intros E. rewrite E. reflexivity.
  - intros k Hk _ E. destruct (argmax_spec _ _ Hk) as [Hk' _].
    pose proof Hk' as [Hlt _].
    apply (is_argmax_value next_row m k Hm Hlt) in Hk'. rewrite E, Hk'. reflexivity.
Qed.

(** ** The replay buffer *)

Lemma deque_append_maxlen {A} (d : Deque.deque A) (x : A) :
  Deque.maxlen (Deque.append d x) = Deque.maxlen d.
Proof.
  unfold Deque.append. destruct (Nat.eqb (Deque.maxlen d) 0); [reflexivity |].
  destruct (Nat.eqb _ _); reflexivity.
Qed.

Lemma deque_append_items {A} (d : Deque.deque A) (x : A) :
  (length (Deque.items d) <= Deque.maxlen d)%nat ->
  Deque.items (Deque.append d x)
  = skipn (length (Deque.items d ++ [x]) - Deque.maxlen d) (Deque.items d ++ [x]).
Proof.
  intros H. unfold Deque.append. rewrite length_app. simpl.
  destruct (Nat.eqb (Deque.maxlen d) 0) eqn:E0.
  - apply Nat.eqb_eq in E0. rewrite E0 in *.
    destruct (Deque.items d) as [| y l]; [reflexivity | simpl in H; lia].
  - apply Nat.eqb_neq in E0.
    destruct (Nat.eqb (length (Deque.items d)) (Deque.maxlen d)) eqn:E; simpl.
    + apply Nat.eqb_eq in E. rewrite <- E.
      replace (length (Deque.items d) + 1 - length (Deque.items d))%nat with 1%nat by lia.
      destruct (Deque.items d) as [| y l]; [simpl in E; lia | reflexivity].
    + apply Nat.eqb_neq in E.
      replace (length (Deque.items d) + 1 - Deque.maxlen d)%nat with 0%nat by lia.
      reflexivity.
Qed.

(** A deque filled from empty holds the last [maxlen] items appended, oldest
    first. *)
Lemma deque_fill {A} (cap : nat) (xs : list A) :
  let d := fold_left Deque.append xs (Deque.empty cap) in
  Deque.maxlen d = cap /\ Deque.items d = skipn (length xs - cap) xs.
Proof.
  induction xs as [| x xs IH] using rev_ind; simpl.
  - split; reflexivity.
  - rewrite fold_left_app. simpl. destruct IH as [Hm Hi].
    set (d := fold_left Deque.append xs (Deque.empty cap)) in *.
    split; [rewrite deque_append_maxlen; exact Hm |].
    assert (Hl : length (Deque.items d) = Nat.min (length xs) cap).
    { rewrite Hi, length_skipn. lia. }
    rewrite deque_append_items by (rewrite Hm; lia).
    rewrite Hm, !length_app, Hl, Hi. simpl.
    destruct (Nat.le_gt_cases cap (length xs)) as [Hc | Hc].
    + rewrite !skipn_app, skipn_skipn, !length_skipn.
      replace (Nat.min (length xs) cap + 1 - cap)%nat with 1%nat by lia.
      replace (1 + (length xs - cap))%nat with (length xs + 1 - cap)%nat by lia.
      replace (1 - (length xs - (length xs - cap)))%nat with (1 - cap)%nat by lia.
      replace (length xs + 1 - cap - length xs)%nat with (1 - cap)%nat by lia.
      reflexivity.
    + replace (Nat.min (length xs) cap + 1 - cap)%nat with 0%nat by lia.
      replace (length xs - cap)%nat with 0%nat by lia.
      replace (length xs + 1 - cap)%nat with 0%nat by lia.
      reflexivity.
Qed.

(** ** DQN: training *)

Lemma in_picks {A} (l : list A) (x : A) (rest : list A) :
  In (x, rest) (picks l) -> In x l /\ forall y, In y rest -> In y l.
Proof.
  revert x rest. induction l as [| z l IH]; intros x rest; simpl; [intros [] |].
  intros [E | H].
  - injection E as -> ->. split; [left; reflexivity | intros y Hy; right; exact Hy].
  - apply in_map_iff in H. destruct H as [[x' rest'] [E H]]. simpl in E.
    injection E as -> <-. destruct (IH _ _ H) as [H1 H2]. split; [right; exact H1 |].
    intros y [<- | Hy]; [left; reflexivity | right; apply H2; exact Hy].
Qed.

Lemma in_arrangements {A} (k : nat) (l s : list A) :
  In s (arrangements k l) -> length s = k /\ forall x, In x s -> In x l.
Proof.
  revert l s. induction k as [| k IH]; intros l s; simpl.
  - intros [<- | []]. split; [reflexivity | intros x []].
  - intros H. apply in_flat_map in H. destruct H as [[x rest] [Hp H]].
    apply in_map_iff in H. destruct H as [s' [<- Hs']]. simpl.
    destruct (in_picks _ _ _ Hp) as [Hx Hrest]. destruct (IH _ _ Hs') as [Hl Hin].
    split; [rewrite Hl; reflexivity |].
    intros y [<- | Hy]; [exact Hx | apply Hrest, Hin; exact Hy].
Qed.

(** [random.sample] returns [k] members of the population. *)
Lemma supp_random_sample {A} (population : list A) (k : nat) (s : list A) :
  supp (random_sample population k) s ->
  length s = k /\ forall x, In x s -> In x population.
Proof.
  unfold random_sample. destruct (Nat.ltb _ _).
  - intros H. destruct (supp_raise _ H).
  - intros H. apply supp_uniform in H. apply in_arrangements. exact H.
Qed.

Section DQN.

Context {env : Env} {net : Net} {opt : Optimizer (net_weights net)}.

Local Notation "'agent'" := (DQNAgent.Agent env net opt) (only parsing).

Lemma targets_nil (self : agent) : DQNAgent.targets self [] = Some [].
Proof. reflexivity. Qed.

Lemma targets_cons (self : agent) (t : DQNAgent.transition)
  (minibatch : list DQNAgent.transition) :
  DQNAgent.targets self (t :: minibatch)
  = match Np.max (net_predict net (DQNAgent.nets self (DQNAgent.target_model self))
                              (DQNAgent.tr_next t)),
          DQNAgent.targets self minibatch with
    | Some m, Some rows =>
        match DQNAgent.row_set
                (net_predict net (DQNAgent.nets self (DQNAgent.model self))
                             (DQNAgent.tr_state t))
                (DQNAgent.tr_action t)
                (DQNAgent.tr_reward t
                 + DQNAgent.gamma self * DQNAgent.one_minus (DQNAgent.tr_done t) * m)
        with
        | Some row => Some (row :: rows)
        | None => None
        end
    | _, _ => None
    end.
Proof.
  unfold DQNAgent.targets. simpl.
  destruct (Np.max _) as [m |]; [| reflexivity].
  destruct (DQNAgent.amax_rows _) as [ms |]; [| reflexivity]. simpl.
  destruct (DQNAgent.row_set _ _ _) as [row |];
    destruct (DQNAgent.overwrite _ _ _) as [rows |]; reflexivity.
Qed.

Lemma row_set_spec (row row' : list Q) (a : nat) (v : Q) :
  DQNAgent.row_set row a v = Some row' ->
  (a < length row)%nat /\ length row' = length row
  /\ nth_error row' a = Some v
  /\ forall b, b <> a -> nth_error row' b = nth_error row b.
Proof.
  unfold DQNAgent.row_set. destruct (Nat.ltb a (length row)) eqn:E; [| discriminate].
  apply Nat.ltb_lt in E. intros H. injection H as <-.
  split; [exact E |]. split; [apply list_set_length |].
  split; [apply list_set_same; exact E |].
  intros b Hb. apply list_set_other. congruence.
Qed.

(** The factor [1 - done] removes the bootstrap term of a transition that
    ended its episode. *)
Lemma bootstrap_masked (gamma reward m : Q) (done : bool) :
  reward + gamma * DQNAgent.one_minus done * m
  == (if done then reward else reward + gamma * m).
Proof. destruct done; unfold DQNAgent.one_minus; ring. Qed.

(** Every row of the target matrix is the online prediction with the
    entry of the taken action overwritten. *)
Lemma targets_rows (self : agent) (minibatch : list DQNAgent.transition)
  (target : list (list Q)) :
  DQNAgent.targets self minibatch = Some target ->
  Forall2 (DQNAgent.target_row self) minibatch target.
Proof.
  revert target. induction minibatch as [| t minibatch IH]; intros target.
  - rewrite targets_nil. intros H. injection H as <-. constructor.
  - rewrite targets_cons.
    destruct (Np.max _) as [m |] eqn:Em; [| discriminate].
    destruct (DQNAgent.targets self minibatch) as [rows |]; [| discriminate].
    destruct (DQNAgent.row_set _ _ _) as [row |] eqn:Er; [| discriminate].
    intros H. injection H as <-. constructor; [| apply IH; reflexivity].
    apply row_set_spec in Er. destruct Er as [_ [H1 [H2 H3]]].
    exists m. eexists. split; [exact Em |]. split; [exact H1 |].
    split; [exact H2 |]. split; [apply bootstrap_masked | exact H3].
Qed.

Lemma sq_err_same (p : list Q) :
  Np.sum_list (Np.zip_with (fun x y => (x - y) * (x - y)) p p) == 0.
Proof.
  induction p as [| x p IH]; simpl; [reflexivity |]. rewrite IH. ring.
Qed.

Lemma sq_err_row (p : list Q) (a : nat) (y q : Q) :
  nth_error p a = Some q ->
  Np.sum_list (Np.zip_with (fun x y => (x - y) * (x - y)) (Np.list_set p a y) p)
  == (y - q) * (y - q).
Proof.
  revert a. induction p as [| x p IH]; intros [| a] H; simpl in *; try discriminate.
  - injection H as ->. rewrite sq_err_same. ring.
  - rewrite (IH a H). ring.
Qed.

(** At the weights the targets were built from, only the entries of the
    taken actions contribute to the summed squared error. *)
Lemma sum_sq_err_masked (self : agent) (minibatch : list DQNAgent.transition)
  (target : list (list Q)) :
  DQNAgent.targets self minibatch = Some target ->
  DQNAgent.sum_sq_err target
    (map (net_predict net (DQNAgent.nets self (DQNAgent.model self)))
         (map DQNAgent.tr_state minibatch))
  == Np.sum_list (map (DQNAgent.sq_td_error self) minibatch).
Proof.
  revert target. induction minibatch as [| t minibatch IH]; intros target.
  - rewrite targets_nil. intros H. injection H as <-. reflexivity.
  - rewrite targets_cons. unfold DQNAgent.sq_td_error at 1. simpl.
    destruct (Np.max _) as [m |] eqn:Em; [| discriminate].
    destruct (DQNAgent.targets self minibatch) as [rows |]; [| discriminate].
    destruct (DQNAgent.row_set _ _ _) as [row |] eqn:Er; [| discriminate].
    intros H. injection H as <-.
    unfold DQNAgent.sum_sq_err in *. simpl. rewrite (IH rows eq_refl).
    unfold DQNAgent.row_set in Er.
    destruct (Nat.ltb _ _) eqn:El; [| discriminate]. injection Er as <-.
    apply Nat.ltb_lt in El.
    destruct (nth_error _ (DQNAgent.tr_action t)) as [q |] eqn:Eq.
    + rewrite (sq_err_row _ _ _ q Eq). rewrite bootstrap_masked. reflexivity.
    + apply nth_error_None in Eq. lia.
Qed.

(** What one call of [train] does. *)
Lemma train_spec (self self' : agent) :
  supp (DQNAgent.train self) self' ->
  ((Deque.len (DQNAgent.memory self) < DQNAgent.batch_size self)%nat /\ self' = self)
  \/ ((DQNAgent.batch_size self <= Deque.len (DQNAgent.memory self))%nat
      /\ exists minibatch target,
          supp (random_sample (Deque.items (DQNAgent.memory self))
                              (DQNAgent.batch_size self)) minibatch
          /\ DQNAgent.targets self minibatch = Some target
          /\ let upd := opt_apply opt (DQNAgent.optimizer self)
                          (DQNAgent.loss (DQNAgent.batch_size self)
                                         (map DQNAgent.tr_state minibatch) target)
                          (DQNAgent.nets self (DQNAgent.model self)) in
             self' = DQNAgent.set_nets self (fst upd)
                       (DQNAgent.heap_set (DQNAgent.nets self) (DQNAgent.model self)
                                          (snd upd))).
Proof.
  unfold DQNAgent.train. destruct (Nat.ltb _ _) eqn:E.
  - apply Nat.ltb_lt in E. intros H. apply supp_ret in H. left. split; assumption.
  - apply Nat.ltb_ge in E. intros H. right. split; [exact E |].
    apply supp_bind in H. destruct H as [minibatch [Hs H]].
    apply supp_bind in H. destruct H as [target [Ht H]].
    apply supp_bind in H. destruct H as [[] [_ H]].
    apply supp_lift_opt in Ht. exists minibatch, target.
    split; [exact Hs |]. split; [exact Ht |].
    destruct (opt_apply opt _ _ _) as [o w]. apply supp_ret in H. exact H.
Qed.

(** C5, as amended: when the memory holds a minibatch, [train] samples
    [batch_size] transitions of the memory; the target matrix has, for each
    sampled transition, the online network's prediction for its state with
    only the entry of the taken action overwritten, by [reward] when the
    transition ended the episode and by
    [reward + gamma * max_a Q_target(next_state)[a]] otherwise
    ([target_row]); the loss handed to the optimizer is the squared error
    between targets and online predictions summed over all action entries
    and divided by [batch_size] (not by the number of entries), which at
    the current weights is the mean over the minibatch of the squared
    temporal-difference errors; and the step replaces the weights of the
    online network only: every other network object (the target network
    among them) and the replay memory are as before. *)
Theorem C5_dqn_train (self self' : agent) :
  (DQNAgent.batch_size self <= Deque.len (DQNAgent.memory self))%nat ->
  supp (DQNAgent.train self) self' ->
  exists minibatch target,
    supp (random_sample (Deque.items (DQNAgent.memory self))
                        (DQNAgent.batch_size self)) minibatch
    /\ length minibatch = DQNAgent.batch_size self
    /\ (forall t, In t minibatch -> In t (Deque.items (DQNAgent.memory self)))
    /\ Forall2 (DQNAgent.target_row self) minibatch target
    /\ let states := map DQNAgent.tr_state minibatch in
       let online := DQNAgent.nets self (DQNAgent.model self) in
       let loss := DQNAgent.loss (DQNAgent.batch_size self) states target in
       (forall w, loss w
                  = 1 / inject_Z (Z.of_nat (DQNAgent.batch_size self))
                    * DQNAgent.sum_sq_err target (map (net_predict net w) states))
       /\ loss online
          == 1 / inject_Z (Z.of_nat (DQNAgent.batch_size self))
             * Np.sum_list (map (DQNAgent.sq_td_error self) minibatch)
       /\ DQNAgent.nets self' (DQNAgent.model self)
          = snd (opt_apply opt (DQNAgent.optimizer self) loss online)
       /\ DQNAgent.optimizer self'
          = fst (opt_apply opt (DQNAgent.optimizer self) loss online)
       /\ (forall r, r <> DQNAgent.model self ->
                     DQNAgent.nets self' r = DQNAgent.nets self r)
       /\ DQNAgent.memory self' = DQNAgent.memory self
       /\ DQNAgent.model self' = DQNAgent.model self
       /\ DQNAgent.target_model self' = DQNAgent.target_model self.
Proof.
  intros Hb H. apply train_spec in H. destruct H as [[Hlt _] | [_ H]]; [lia |].
  destruct H as [minibatch [target [Hs [Ht Hu]]]]. exists minibatch, target.
  destruct (supp_random_sample _ _ _ Hs) as [Hl Hin].
  split; [exact Hs |]. split; [exact Hl |]. split; [exact Hin |].
  split; [apply targets_rows; exact Ht |].
  cbv zeta in *. subst self'. simpl.
  split; [reflexivity |]. split.
  { unfold DQNAgent.loss. rewrite (sum_sq_err_masked self minibatch target Ht).
    reflexivity. }
  split.
  { unfold DQNAgent.heap_set. rewrite Nat.eqb_refl. reflexivity. }
  split; [reflexivity |]. split; [| repeat split].
  intros r Hr. unfold DQNAgent.heap_set. apply Nat.eqb_neq in Hr. rewrite Hr.
  reflexivity.
Qed.

(** ** DQN: the loop body, the replay memory and the target network *)

(** [train] touches the weights of the online network and the state of
    the optimizer, nothing else. *)
Lemma train_frame (self self' : agent) :
  supp (DQNAgent.train self) self' ->
  DQNAgent.memory self' = DQNAgent.memory self
  /\ DQNAgent.model self' = DQNAgent.model self
  /\ DQNAgent.target_model self' = DQNAgent.target_model self
  /\ DQNAgent.target_update_counter self' = DQNAgent.target_update_counter self
  /\ DQNAgent.target_update_frequency self' = DQNAgent.target_update_frequency self
  /\ DQNAgent.stats_rewards self' = DQNAgent.stats_rewards self
  /\ DQNAgent.world self' = DQNAgent.world self
  /\ (forall r, r <> DQNAgent.model self ->
                DQNAgent.nets self' r = DQNAgent.nets self r).
Proof.
  intros H. apply train_spec in H. destruct H as [[_ ->] | [_ H]].
  - repeat split.
  - destruct H as [minibatch [target [_ [_ H]]]]. cbv zeta in H. subst self'. simpl.
    repeat split. intros r Hr. unfold DQNAgent.heap_set.
    apply Nat.eqb_neq in Hr. rewrite Hr. reflexivity.
Qed.

Lemma dqn_stats_add_spec (self self' : agent) (reward : Q) :
  DQNAgent.stats_add self reward = Some self' ->
  exists r, self' = DQNAgent.set_stats self r.
Proof.
  unfold DQNAgent.stats_add. destruct (Tabular.add_to_last _ _) as [r |]; [| discriminate].
  intros H. injection H as <-. exists r. reflexivity.
Qed.

(** One pass through the loop body, taken apart. *)
Lemma dqn_step_spec (self : agent) (state : list Q) (self' : agent)
  (next : option (list Q)) :
  supp (DQNAgent.step self state) (self', next) ->
  exists action w new_state reward done self_t,
    supp (DQNAgent.select_action self state (DQNAgent.epsilon self)) action
    /\ supp (env_step env (DQNAgent.world self) action) (w, new_state, reward, done)
    /\ supp (DQNAgent.train
               (DQNAgent.set_memory (DQNAgent.set_world self w)
                  (Deque.append (DQNAgent.memory self)
                                (state, action, reward, new_state, done)))) self_t
    /\ DQNAgent.stats_add (DQNAgent.sync_target self_t) reward = Some self'
    /\ next = if done then None else Some new_state.
Proof.
  unfold DQNAgent.step. intros H.
  apply supp_bind in H. destruct H as [action [Ha H]].
  apply supp_bind in H. destruct H as [[[[w new_state] reward] done] [He H]].
  apply supp_bind in H. destruct H as [self_t [Ht H]].
  apply supp_bind in H. destruct H as [self_s [Hs H]].
  apply supp_lift_opt in Hs.
  exists action, w, new_state, reward, done, self_t.
  split; [exact Ha |]. split; [exact He |]. split; [exact Ht |].
  destruct done; apply supp_ret in H; injection H as -> ->; split; auto.
Qed.

Lemma sync_target_spec (self : agent) :
  let self' := DQNAgent.sync_target self in
  DQNAgent.memory self' = DQNAgent.memory self
  /\ DQNAgent.model self' = DQNAgent.model self
  /\ DQNAgent.target_model self' = DQNAgent.target_model self
  /\ DQNAgent.target_update_frequency self' = DQNAgent.target_update_frequency self
  /\ (S (DQNAgent.target_update_counter self) = DQNAgent.target_update_frequency self ->
      DQNAgent.target_update_counter self' = 0%nat
      /\ DQNAgent.nets self' (DQNAgent.target_model self)
         = DQNAgent.nets self (DQNAgent.model self)
      /\ forall r, r <> DQNAgent.target_model self ->
                   DQNAgent.nets self' r = DQNAgent.nets self r)
  /\ (S (DQNAgent.target_update_counter self) <> DQNAgent.target_update_frequency self ->
      DQNAgent.target_update_counter self' = S (DQNAgent.target_update_counter self)
      /\ DQNAgent.nets self' = DQNAgent.nets self).
Proof.
  unfold DQNAgent.sync_target.
  cbn [DQNAgent.set_counter DQNAgent.target_update_counter
       DQNAgent.target_update_frequency].
  destruct (Nat.eqb (S (DQNAgent.target_update_counter self))
                    (DQNAgent.target_update_frequency self)) eqn:E; simpl.
  - apply Nat.eqb_eq in E. repeat split; try (intros; lia).
    + unfold DQNAgent.heap_set. rewrite Nat.eqb_refl. reflexivity.
    + intros r Hr. unfold DQNAgent.heap_set. apply Nat.eqb_neq in Hr. rewrite Hr.
      reflexivity.
  - apply Nat.eqb_neq in E. repeat split; try (intros; lia).
Qed.

(** The loop body appends the observed transition to the memory and does
    nothing else to it. *)
Lemma dqn_step_memory (self : agent) (state : list Q) (self' : agent)
  (next : option (list Q)) :
  supp (DQNAgent.step self state) (self', next) ->
  exists action reward new_state done,
    DQNAgent.memory self'
    = Deque.append (DQNAgent.memory self) (state, action, reward, new_state, done).
Proof.
  intros H. apply dqn_step_spec in H.
  destruct H as [action [w [new_state [reward [done [self_t [_ [_ [Ht [Hs _]]]]]]]]]].
  exists action, reward, new_state, done.
  apply train_frame in Ht. destruct Ht as [Hm _].
  apply dqn_stats_add_spec in Hs. destruct Hs as [r ->]. simpl.
  destruct (sync_target_spec self_t) as [Hm' _]. rewrite Hm', Hm. reflexivity.
Qed.

(** The loop body and the target network: the counter goes up by one; when
    it reaches the frequency it is reset and the target network receives
    the weights the online network has after this pass's training;
    otherwise the target network keeps its weights. *)
Lemma dqn_step_target (self : agent) (state : list Q) (self' : agent)
  (next : option (list Q)) :
  DQNAgent.model self <> DQNAgent.target_model self ->
  supp (DQNAgent.step self state) (self', next) ->
  DQNAgent.model self' = DQNAgent.model self
  /\ DQNAgent.target_model self' = DQNAgent.target_model self
  /\ DQNAgent.target_update_frequency self' = DQNAgent.target_update_frequency self
  /\ (S (DQNAgent.target_update_counter self) = DQNAgent.target_update_frequency self ->
      DQNAgent.target_update_counter self' = 0%nat
      /\ DQNAgent.nets self' (DQNAgent.target_model self)
         = DQNAgent.nets self' (DQNAgent.model self))
  /\ (S (DQNAgent.target_update_counter self) <> DQNAgent.target_update_frequency self ->
      DQNAgent.target_update_counter self' = S (DQNAgent.target_update_counter self)
      /\ DQNAgent.nets self' (DQNAgent.target_model self)
         = DQNAgent.nets self (DQNAgent.target_model self)).
Proof.
  intros Hne H. apply dqn_step_spec in H.
  destruct H as [action [w [new_state [reward [done [self_t [_ [_ [Ht [Hs _]]]]]]]]]].
  apply train_frame in Ht. simpl in Ht.
  destruct Ht as [_ [Hmo [Htm [Hc [Hf [_ [_ Hn]]]]]]].
  apply dqn_stats_add_spec in Hs. destruct Hs as [r ->]. simpl.
  destruct (sync_target_spec self_t) as [_ [Hmo' [Htm' [Hf' [Hsync Hkeep]]]]].
  rewrite Hc, Hf, Hmo, Htm in *.
  split; [congruence |]. split; [congruence |]. split; [congruence |]. split.
  - intros E. destruct (Hsync E) as [H0 [H1 H2]].
    split; [exact H0 |]. rewrite H1. symmetry. apply H2. exact Hne.
  - intros E. destruct (Hkeep E) as [H0 H1].
    split; [exact H0 |]. rewrite H1. apply Hn. congruence.
Qed.

Lemma dqn_set_world_eta (self : agent) :
  DQNAgent.set_world self (DQNAgent.world self) = self.
Proof. destruct self. reflexivity. Qed.

Lemma dqn_act_loop_frame (fuel : nat) (self : agent) (state : list Q) (total : Q)
  (self' : agent) (result : option Q) :
  supp (DQNAgent.act_loop fuel self state total) (self', result) ->
  self' = DQNAgent.set_world self (DQNAgent.world self').
Proof.
  revert self state total. induction fuel as [| fuel IH]; intros self state total; simpl.
  - intros H. apply supp_ret in H. injection H as -> _.
    symmetry. apply dqn_set_world_eta.
  - intros H. apply supp_bind in H. destruct H as [action [_ H]].
    apply supp_bind in H. destruct H as [[[[w state'] reward] done] [_ H]].
    destruct done.
    + apply supp_ret in H. injection H as -> _. reflexivity.
    + apply IH in H. exact H.
Qed.

(** The evaluation rollout of the DQN agent changes nothing of the agent
    but the state of its environment. *)
Lemma dqn_act_frame (fuel : nat) (self self' : agent) (result : option Q) :
  supp (DQNAgent.act fuel self) (self', result) ->
  self' = DQNAgent.set_world self (DQNAgent.world self').
Proof.
  unfold DQNAgent.act. intros H.
  apply supp_bind in H. destruct H as [[w state] [_ H]].
  apply supp_bind in H. destruct H as [[self1 total] [Hl H]].
  apply supp_ret in H. injection H as -> _.
  apply dqn_act_loop_frame in Hl. rewrite Hl. reflexivity.
Qed.

Lemma dqn_begin_episode_frame (self self' : agent) (state : list Q) :
  supp (DQNAgent.begin_episode self) (self', state) ->
  self' = DQNAgent.set_world
            (DQNAgent.set_stats self (DQNAgent.stats_rewards self ++ [0]))
            (DQNAgent.world self').
Proof.
  unfold DQNAgent.begin_episode. intros H.
  apply supp_bind in H. destruct H as [[w s] [_ H]].
  apply supp_ret in H. injection H as -> _. reflexivity.
Qed.

(** Episode starts and evaluation rollouts leave both networks, the
    counter and the memory alone. *)
Lemma steps_zero (n : nat) (self self' : agent) :
  DQNAgent.steps n self self' -> n = 0%nat ->
  DQNAgent.nets self' = DQNAgent.nets self
  /\ DQNAgent.target_update_counter self' = DQNAgent.target_update_counter self
  /\ DQNAgent.memory self' = DQNAgent.memory self.
Proof.
  induction 1 as [self | n self state self1 next self2 Hs _ _
                 | n self self1 state self2 Hb _ IH
                 | n fuel self self1 total self2 Ha _ IH]; intros E.
  - repeat split.
  - discriminate.
  - apply dqn_begin_episode_frame in Hb. destruct (IH E) as [H1 [H2 H3]].
    rewrite H1, H2, H3, Hb. repeat split.
  - apply dqn_act_frame in Ha. destruct (IH E) as [H1 [H2 H3]].
    rewrite H1, H2, H3, Ha. repeat split.
Qed.

Lemma steps_target (k : nat) (self self' : agent) :
  DQNAgent.model self <> DQNAgent.target_model self ->
  DQNAgent.steps k self self' ->
  DQNAgent.model self' = DQNAgent.model self
  /\ DQNAgent.target_model self' = DQNAgent.target_model self
  /\ DQNAgent.target_update_frequency self' = DQNAgent.target_update_frequency self
  /\ ((DQNAgent.target_update_counter self + k
       < DQNAgent.target_update_frequency self)%nat ->
      DQNAgent.nets self' (DQNAgent.target_model self)
      = DQNAgent.nets self (DQNAgent.target_model self)
      /\ DQNAgent.target_update_counter self'
         = (DQNAgent.target_update_counter self + k)%nat)
  /\ ((0 < k)%nat ->
      (DQNAgent.target_update_counter self + k)%nat
      = DQNAgent.target_update_frequency self ->
      DQNAgent.nets self' (DQNAgent.target_model self)
      = DQNAgent.nets self' (DQNAgent.model self)
      /\ DQNAgent.target_update_counter self' = 0%nat).
Proof.
  intros Hne H. revert Hne.
  induction H as [self | n self state self1 next self2 Hs Hrest IH
                 | n self self1 state self2 Hb _ IH
                 | n fuel self self1 total self2 Ha _ IH]; intros Hne.
  - repeat split; try lia.
  - destruct (dqn_step_target _ _ _ _ Hne Hs) as [Hm [Ht [Hf [Hsync Hkeep]]]].
    assert (Hne1 : DQNAgent.model self1 <> DQNAgent.target_model self1) by congruence.
    destruct (IH Hne1) as [Hm2 [Ht2 [Hf2 [Hlt Heq]]]].
    rewrite Hm, Ht, Hf in *.
    split; [exact Hm2 |]. split; [exact Ht2 |]. split; [exact Hf2 |]. split.
    + intros Hk. destruct Hkeep as [Hc Hn]; [lia |].
      rewrite Hc in Hlt. destruct Hlt as [H1 H2]; [lia |].
      split; [congruence | lia].
    + intros _ Hk. destruct n as [| n].
      * destruct Hsync as [Hc Hn]; [lia |].
        destruct (steps_zero _ _ _ Hrest eq_refl) as [H1 [H2 _]].
        rewrite H1, H2. split; [exact Hn | exact Hc].
      * destruct Hkeep as [Hc Hn]; [lia |].
        rewrite Hc in Heq. apply Heq; lia.
  - apply dqn_begin_episode_frame in Hb.
    assert (Hne1 : DQNAgent.model self1 <> DQNAgent.target_model self1)
      by (rewrite Hb; exact Hne).
    destruct (IH Hne1) as [Hm2 [Ht2 [Hf2 [Hlt Heq]]]].
    rewrite Hb in Hm2, Ht2, Hf2, Hlt, Heq. simpl in *.
    repeat split; try tauto; try (apply Hlt; assumption); apply Heq; assumption.
  - apply dqn_act_frame in Ha.
    assert (Hne1 : DQNAgent.model self1 <> DQNAgent.target_model self1)
      by (rewrite Ha; exact Hne).
    destruct (IH Hne1) as [Hm2 [Ht2 [Hf2 [Hlt Heq]]]].
    rewrite Ha in Hm2, Ht2, Hf2, Hlt, Heq. simpl in *.
    repeat split; try tauto; try (apply Hlt; assumption); apply Heq; assumption.
Qed.

(** Every run of the loop, of an episode and of [execute] is made of such
    passes, episode starts and rollouts. *)
Lemma dqn_loop_steps (fuel : nat) (self : agent) (state : list Q) (self' : agent)
  (finished : bool) :
  supp (DQNAgent.loop fuel self state) (self', finished) ->
  exists n, DQNAgent.steps n self self'.
Proof.
  revert self state. induction fuel as [| fuel IH]; intros self state; simpl; intros H.
  - apply supp_ret in H. injection H as -> _. exists 0%nat. constructor.
  - apply supp_bind in H. destruct H as [[self1 next] [Hs H]].
    destruct next as [state' |].
    + destruct (IH _ _ H) as [n Hn]. exists (S n).
      eapply DQNAgent.steps_step; eassumption.
    + apply supp_ret in H. injection H as -> _. exists 1%nat.
      eapply DQNAgent.steps_step; [eassumption | constructor].
Qed.

Lemma steps_trans (n m : nat) (a b c : agent) :
  DQNAgent.steps n a b -> DQNAgent.steps m b c -> DQNAgent.steps (n + m) a c.
Proof.
  induction 1; intros H'; simpl.
  - exact H'.
  - eapply DQNAgent.steps_step; [eassumption | auto].
  - eapply DQNAgent.steps_begin; [eassumption | auto].
  - eapply DQNAgent.steps_act; [eassumption | auto].
Qed.

Lemma dqn_run_episode_steps (fuel : nat) (self : agent) (episode : nat)
  (self' : agent) (finished : bool) :
  supp (DQNAgent.run_episode fuel self episode) (self', finished) ->
  exists n, DQNAgent.steps n self self'.
Proof.
  unfold DQNAgent.run_episode. intros H.
  apply supp_bind in H. destruct H as [[self1 state] [Hb H]].
  apply supp_bind in H. destruct H as [[self2 fin] [Hl H]].
  destruct (dqn_loop_steps _ _ _ _ _ Hl) as [n Hn].
  assert (H12 : DQNAgent.steps n self self2)
    by (eapply DQNAgent.steps_begin; eassumption).
  destruct fin; simpl in H.
  - destruct (_ && _)%bool.
    + apply supp_bind in H. destruct H as [[self3 total] [Ha H]].
      apply supp_ret in H. injection H as -> _. exists (n + 0)%nat.
      eapply steps_trans; [exact H12 |].
      eapply DQNAgent.steps_act; [eassumption | constructor].
    + apply supp_ret in H. injection H as -> _. exists n. exact H12.
  - apply supp_ret in H. injection H as -> _. exists n. exact H12.
Qed.

Lemma dqn_execute_steps (fuel : nat) (self self' : agent) (finished : bool) :
  supp (DQNAgent.execute fuel self) (self', finished) ->
  exists n, DQNAgent.steps n self self'.
Proof.
  unfold DQNAgent.execute. generalize (seq 1 (DQNAgent.num_episodes self)).
  intros episodes. revert self.
  induction episodes as [| episode rest IH]; intros self; simpl; intros H.
  - apply supp_ret in H. injection H as -> _. exists 0%nat. constructor.
  - apply supp_bind in H. destruct H as [[self1 fin] [He H]].
    destruct (dqn_run_episode_steps _ _ _ _ _ He) as [n Hn].
    destruct fin.
    + destruct (IH _ H) as [m Hm]. exists (n + m)%nat.
      eapply steps_trans; eassumption.
    + apply supp_ret in H. injection H as -> _. exists n. exact Hn.
Qed.

(** A new agent starts with the counter at zero and the target network
    equal to the online network. *)
Lemma dqn_init_synced (w : env_state env) (heap : nat -> net_weights net)
  (model target_model : nat) (o : opt_state opt) :
  let self := @DQNAgent.init env net opt w heap model target_model o in
  DQNAgent.target_update_counter self = 0%nat
  /\ DQNAgent.nets self (DQNAgent.target_model self)
     = DQNAgent.nets self (DQNAgent.model self)
  /\ DQNAgent.memory self = Deque.empty 10000.
Proof.
  simpl. unfold DQNAgent.heap_set. rewrite Nat.eqb_refl.
  destruct (Nat.eqb model target_model) eqn:E; repeat split.
Qed.

(** C6: with the two networks distinct objects, [k] passes through the
    loop body (whatever episode starts and rollouts lie in between) that
    keep the counter below [target_update_frequency] leave the weights of
    the target network as they were, while the counter counts the passes;
    the pass on which the counter reaches the frequency resets it to zero
    and leaves the target network with the weights the online network has
    at that instant; and a training step never changes the weights of the
    target network. *)
Theorem C6_target_network_sync (k : nat) (self self' : agent) :
  DQNAgent.model self <> DQNAgent.target_model self ->
  DQNAgent.steps k self self' ->
  ((DQNAgent.target_update_counter self + k
    < DQNAgent.target_update_frequency self)%nat ->
   DQNAgent.nets self' (DQNAgent.target_model self)
   = DQNAgent.nets self (DQNAgent.target_model self)
   /\ DQNAgent.target_update_counter self'
      = (DQNAgent.target_update_counter self + k)%nat)
  /\ ((0 < k)%nat ->
      (DQNAgent.target_update_counter self + k)%nat
      = DQNAgent.target_update_frequency self ->
      DQNAgent.nets self' (DQNAgent.target_model self)
      = DQNAgent.nets self' (DQNAgent.model self)
      /\ DQNAgent.target_update_counter self' = 0%nat)
  /\ (forall trained, supp (DQNAgent.train self) trained ->
        DQNAgent.nets trained (DQNAgent.target_model self)
        = DQNAgent.nets self (DQNAgent.target_model self)).
Proof.
  intros Hne H. destruct (steps_target k self self' Hne H) as [_ [_ [_ [H1 H2]]]].
  split; [exact H1 |]. split; [exact H2 |].
  intros trained Ht. apply train_frame in Ht.
  destruct Ht as [_ [_ [_ [_ [_ [_ [_ Hn]]]]]]]. apply Hn. congruence.
Qed.

Lemma deque_append_len {A} (d : Deque.deque A) (x : A) :
  (Deque.len d <= Deque.maxlen d)%nat ->
  (Deque.len (Deque.append d x) <= Deque.maxlen (Deque.append d x))%nat.
Proof.
  unfold Deque.len. intros H. rewrite deque_append_maxlen.
  rewrite deque_append_items by exact H.
  rewrite length_skipn, length_app. simpl. lia.
Qed.

Lemma deque_fold_len {A} (xs : list A) (d : Deque.deque A) :
  (Deque.len d <= Deque.maxlen d)%nat ->
  (Deque.len (fold_left Deque.append xs d) <= Deque.maxlen d)%nat
  /\ Deque.maxlen (fold_left Deque.append xs d) = Deque.maxlen d.
Proof.
  revert d. induction xs as [| x xs IH]; intros d H; simpl; [split; [exact H | reflexivity] |].
  destruct (IH (Deque.append d x) (deque_append_len d x H)) as [H1 H2].
  rewrite deque_append_maxlen in H1, H2. split; assumption.
Qed.

(** The memory after [n] passes is the memory before with [n] transitions
    appended. *)
Lemma steps_memory (n : nat) (self self' : agent) :
  DQNAgent.steps n self self' ->
  exists ts, length ts = n
             /\ DQNAgent.memory self' = fold_left Deque.append ts (DQNAgent.memory self).
Proof.
  induction 1 as [self | n self state self1 next self2 Hs _ IH
                 | n self self1 state self2 Hb _ IH
                 | n fuel self self1 total self2 Ha _ IH].
  - exists []. split; reflexivity.
  - destruct IH as [ts [Hl Hm]].
    destruct (dqn_step_memory _ _ _ _ Hs) as [a [r [s' [d E]]]].
    exists ((state, a, r, s', d) :: ts). split; [simpl; lia |].
    simpl. rewrite <- E. exact Hm.
  - destruct IH as [ts [Hl Hm]]. apply dqn_begin_episode_frame in Hb.
    exists ts. split; [exact Hl |]. rewrite Hm, Hb. reflexivity.
  - destruct IH as [ts [Hl Hm]]. apply dqn_act_frame in Ha.
    exists ts. split; [exact Hl |]. rewrite Hm, Ha. reflexivity.
Qed.

(** C7: after [capacity + k] insertions into an empty buffer the buffer
    holds exactly [capacity] transitions, the last [capacity] inserted, in
    the order of insertion; after any number of insertions its length is
    at most the capacity; and a run of the DQN agent only ever appends to
    its memory, one transition per pass through the loop, so the memory
    never grows past its capacity. *)
Theorem C7_replay_buffer (capacity k : nat) (xs : list DQNAgent.transition) :
  length xs = (capacity + k)%nat ->
  (let d := fold_left Deque.append xs (Deque.empty capacity) in
   Deque.len d = capacity /\ Deque.items d = skipn k xs)
  /\ (forall n, (Deque.len (fold_left Deque.append (firstn n xs) (Deque.empty capacity))
                 <= capacity)%nat)
  /\ (forall (self self' : agent) n,
        DQNAgent.steps n self self' ->
        (Deque.len (DQNAgent.memory self) <= Deque.maxlen (DQNAgent.memory self))%nat ->
        (exists ts, length ts = n
                    /\ DQNAgent.memory self'
                       = fold_left Deque.append ts (DQNAgent.memory self))
        /\ Deque.maxlen (DQNAgent.memory self') = Deque.maxlen (DQNAgent.memory self)
        /\ (Deque.len (DQNAgent.memory self') <= Deque.maxlen (DQNAgent.memory self'))%nat).
Proof.
  intros Hl. split; [| split].
  - destruct (deque_fill capacity xs) as [_ Hi]. cbv zeta. unfold Deque.len.
    rewrite Hi, Hl. replace (capacity + k - capacity)%nat with k by lia.
    split; [rewrite length_skipn, Hl; lia | reflexivity].
  - intros n. destruct (deque_fold_len (firstn n xs) (Deque.empty capacity)) as [H _].
    + unfold Deque.len. simpl. lia.
    + exact H.
  - intros self self' n Hs Hle. destruct (steps_memory _ _ _ Hs) as [ts [Hn Hm]].
    split; [exists ts; split; assumption |].
    destruct (deque_fold_len ts (DQNAgent.memory self) Hle) as [H1 H2].
    rewrite Hm. split; [exact H2 |]. rewrite H2. exact H1.
Qed.

End DQN.

(** ** REINFORCE: discounted returns *)

Section PG.

Context {env : Env} {net : Net} {opt : Optimizer (net_weights net)}.

Local Notation "'agent'" := (PGAgent.Agent env net opt) (only parsing).

Lemma list_set_middle {A} (z : A) (s : nat) (rest : list A) (v : A) :
  Np.list_set (repeat z (S s) ++ rest) s v = repeat z s ++ v :: rest.
Proof.
  induction s as [| s IH]; simpl; [reflexivity |].
  f_equal. exact IH.
Qed.

(** The backward loop of [calc_returns] into a float array, over the
    positions of [post], the last rewards of the episode: no store raises. *)
Lemma returns_backward (gamma : Q) (z : PGAgent.pynum)
  (pre post : list PGAgent.pynum) :
  fold_right (fun t acc => PGAgent.returns_pass gamma (pre ++ post) PGAgent.float64 acc t)
             (Some (0, repeat z (length (pre ++ post))))
             (seq (length pre) (length post))
  = Some (discounted_return gamma (map PGAgent.to_float post),
          repeat z (length pre)
          ++ map PGAgent.PyFloat (discounted_returns gamma (map PGAgent.to_float post))).
Proof.
  revert pre. induction post as [| r post IH]; intros pre.
  - simpl. rewrite !app_nil_r. reflexivity.
  - simpl seq. simpl fold_right.
    replace (pre ++ r :: post) with ((pre ++ [r]) ++ post) by (rewrite <- app_assoc; reflexivity).
    replace (S (length pre)) with (length (pre ++ [r])) by (rewrite length_app; simpl; lia).
    rewrite IH. unfold PGAgent.returns_pass.
    rewrite <- app_assoc. simpl app at 1.
    rewrite nth_error_app2 by lia. rewrite Nat.sub_diag. simpl nth_error.
    cbn [PGAgent.cast]. rewrite length_app. simpl length.
    replace (length pre + 1)%nat with (S (length pre)) by lia.
    rewrite list_set_middle. reflexivity.
Qed.

(** [calc_returns] into a float array, in closed form: at every step the
    discounted return from that step on. *)
Lemma calc_returns_float64 (self : agent) (rewards : list PGAgent.pynum) :
  PGAgent.dtype_of rewards = PGAgent.float64 ->
  PGAgent.calc_returns self rewards
  = Some (map PGAgent.PyFloat
              (discounted_returns (PGAgent.gamma self) (map PGAgent.to_float rewards))).
Proof.
  intros Hd. unfold PGAgent.calc_returns, PGAgent.zeros_like. rewrite Hd.
  pose proof (fold_left_rev_right
                (fun t acc => PGAgent.returns_pass (PGAgent.gamma self) rewards
                                PGAgent.float64 acc t)
                (rev (seq 0 (length rewards)))
                (Some (0, repeat (PGAgent.zero PGAgent.float64) (length rewards))))
    as E.
  rewrite rev_involutive in E.
  pose proof (returns_backward (PGAgent.gamma self) (PGAgent.zero PGAgent.float64)
                [] rewards) as B.
  simpl in B. cbn [PGAgent.zero] in E |- *. rewrite B in E.
  transitivity (option_map snd
                  (Some (discounted_return (PGAgent.gamma self)
                                           (map PGAgent.to_float rewards),
                         map PGAgent.PyFloat
                             (discounted_returns (PGAgent.gamma self)
                                                 (map PGAgent.to_float rewards)))));
    [| reflexivity].
  f_equal. symmetry. exact E.
Qed.

Lemma dtype_of_floats (rewards : list Q) :
  PGAgent.dtype_of (map PGAgent.PyFloat rewards) = PGAgent.float64.
Proof. destruct rewards; reflexivity. Qed.

Lemma discounted_returns_length (gamma : Q) (rewards : list Q) :
  length (discounted_returns gamma rewards) = length rewards.
Proof. induction rewards; simpl; congruence. Qed.

Lemma discounted_returns_nth (gamma : Q) (rewards : list Q) (t : nat) :
  nth_error (discounted_returns gamma rewards) t
  = if Nat.ltb t (length rewards)
    then Some (discounted_return gamma (skipn t rewards)) else None.
Proof.
  revert t. induction rewards as [| r rewards IH]; intros [| t]; simpl; try reflexivity.
  rewrite IH. reflexivity.
Qed.

(** On a sequence of float rewards [calc_returns] returns one float return
    per step; the last return is the last reward, and every earlier return
    is its reward plus [gamma] times the return of the next step; with
    [gamma = 0.5] the float rewards [1.0, 1.0, 1.0] give [1.75, 1.5, 1]. *)
Lemma calc_returns_float_rewards (self : agent) (rewards : list Q) :
  (exists returns,
      PGAgent.calc_returns self (map PGAgent.PyFloat rewards)
      = Some (map PGAgent.PyFloat returns)
      /\ length returns = length rewards
      /\ (forall t r g,
            S t = length rewards ->
            nth_error rewards t = Some r -> nth_error returns t = Some g ->
            g == r)
      /\ (forall t r g g',
            nth_error rewards t = Some r -> nth_error returns t = Some g ->
            nth_error returns (S t) = Some g' ->
            g == r + PGAgent.gamma self * g'))
  /\ exists returns,
      PGAgent.calc_returns (PGAgent.set_gamma self (1 # 2))
                           (map PGAgent.PyFloat [1; 1; 1])
      = Some returns
      /\ Forall2 Qeq (map PGAgent.to_float returns) [7 # 4; 3 # 2; 1].
Proof.
  split.
  - exists (discounted_returns (PGAgent.gamma self) rewards).
    rewrite calc_returns_float64 by apply dtype_of_floats.
    rewrite map_map. simpl PGAgent.to_float.
    rewrite map_id. split; [reflexivity |].
    split; [apply discounted_returns_length |]. split.
    + intros t r g Ht Hr Hg. rewrite discounted_returns_nth in Hg.
      destruct (Nat.ltb t (length rewards)); [| discriminate]. injection Hg as <-.
      assert (E : skipn t rewards = [r]).
      { clear - Ht Hr. revert t Ht Hr.
        induction rewards as [| x rewards IH]; intros [| t] Ht Hr; simpl in *;
          try discriminate.
        - injection Hr as ->. destruct rewards; [reflexivity | discriminate].
        - apply IH; [lia | exact Hr]. }
      rewrite E. simpl. ring.
    + intros t r g g' Hr Hg Hg'. rewrite discounted_returns_nth in Hg, Hg'.
      destruct (Nat.ltb t (length rewards)); [| discriminate].
      destruct (Nat.ltb (S t) (length rewards)); [| discriminate].
      injection Hg as <-. injection Hg' as <-.
      assert (E : skipn t rewards = r :: skipn (S t) rewards).
      { clear - Hr. revert t Hr.
        induction rewards as [| x rewards IH]; intros [| t] Hr; simpl in *;
          try discriminate.
        - injection Hr as ->. reflexivity.
        - apply IH. exact Hr. }
      rewrite E. simpl. reflexivity.
  - eexists. split; [apply calc_returns_float64; reflexivity |]. simpl.
    repeat constructor; reflexivity.
Qed.

(** C8, on the claim's own list: for the rewards [[1, 1, 1]], a list of
    Python ints, and [gamma = 0.5], [np.zeros_like(rewards)] is an integer
    array, every return stored into it is truncated, and [calc_returns]
    returns [[1, 1, 1]]; the backward recursion gives [1.75, 1.5, 1], which
    is what the function returns for the same rewards written as floats. *)
Theorem C8_calc_returns_truncates_int_rewards (self : agent) :
  PGAgent.calc_returns (PGAgent.set_gamma self (1 # 2))
                       [PGAgent.PyInt 1; PGAgent.PyInt 1; PGAgent.PyInt 1]
  = Some [PGAgent.PyInt 1; PGAgent.PyInt 1; PGAgent.PyInt 1]
  /\ Forall2 Qeq (discounted_returns (1 # 2) [1; 1; 1]) [7 # 4; 3 # 2; 1]
  /\ ~ Forall2 Qeq
        (map PGAgent.to_float [PGAgent.PyInt 1; PGAgent.PyInt 1; PGAgent.PyInt 1])
        [7 # 4; 3 # 2; 1]
  /\ PGAgent.calc_returns (PGAgent.set_gamma self (1 # 2))
                          [PGAgent.PyFloat 1; PGAgent.PyFloat 1; PGAgent.PyFloat 1]
     = Some (map PGAgent.PyFloat (discounted_returns (1 # 2) [1; 1; 1])).
Proof.
  split; [reflexivity |]. split; [repeat constructor; reflexivity |]. split.
  - intros H. inversion H as [| x y l l' E _]; subst.
    simpl in E. discriminate.
  - apply (calc_returns_float64 (PGAgent.set_gamma self (1 # 2))
             [PGAgent.PyFloat 1; PGAgent.PyFloat 1; PGAgent.PyFloat 1]).
    reflexivity.
Qed.

End PG.

(** ** Actor-Critic: the decay factor [I] *)

Section AC.

Context {env : Env} {actor critic : Net}
  {aopt : Optimizer (net_weights actor)} {copt : Optimizer (net_weights critic)}.

Variable log : Q -> Q.

Local Notation "'agent'" := (ACAgent.Agent env actor critic aopt copt) (only parsing).

Lemma ac_train_spec (self : agent) (state action_one_hot new_state : list Q)
  (reward : Q) (done : bool) (self' : agent) :
  supp (ACAgent.train log self state action_one_hot new_state reward done) self' ->
  exists new_value value,
    ACAgent.critic_target self new_state reward done = Some new_value
    /\ hd_error (net_predict critic (ACAgent.critic_model self) state) = Some value
    /\ let delta := new_value - value in
       let c := opt_apply copt (ACAgent.critic_optimizer self)
                          (ACAgent.critic_loss delta state) (ACAgent.critic_model self) in
       let a := opt_apply aopt (ACAgent.actor_optimizer self)
                          (ACAgent.actor_loss log delta (ACAgent.I self) state
                                              action_one_hot)
                          (ACAgent.actor_model self) in
       self' = ACAgent.set_actor (ACAgent.set_critic self (fst c) (snd c)) (fst a) (snd a).
Proof.
  unfold ACAgent.train. intros H.
  apply supp_bind in H. destruct H as [new_value [Hn H]].
  apply supp_bind in H. destruct H as [value [Hv H]].
  apply supp_lift_opt in Hn, Hv. exists new_value, value.
  split; [exact Hn |]. split; [exact Hv |]. cbv zeta.
  destruct (opt_apply copt _ _ _) as [co cw]. simpl in H.
  destruct (opt_apply aopt _ _ _) as [ao aw]. apply supp_ret in H. exact H.
Qed.

Lemma ac_stats_add_spec (self self' : agent) (reward : Q) :
  ACAgent.stats_add self reward = Some self' ->
  exists r, self' = ACAgent.set_stats self r.
Proof.
  unfold ACAgent.stats_add. destruct (Tabular.add_to_last _ _) as [r |]; [| discriminate].
  intros H. injection H as <-. exists r. reflexivity.
Qed.

(** The sum against the one-hot row picks the probability of the action
    taken. *)
Lemma dot_one_hot (n action : nat) (action_one_hot prob : list Q) :
  ACAgent.one_hot n action = Some action_one_hot ->
  length prob = n ->
  ACAgent.dot action_one_hot prob == nth action prob 0.
Proof.
  unfold ACAgent.one_hot. destruct (Nat.ltb action n) eqn:E; [| discriminate].
  apply Nat.ltb_lt in E. intros H. injection H as <-. intros Hl. subst n.
  unfold ACAgent.dot. revert action E.
  induction prob as [| p prob IH]; intros action E; simpl in *; [lia |].
  destruct action as [| action]; simpl.
  - assert (Z0 : forall l, fold_right Qplus 0
                             (Np.zip_with Qmult (repeat 0 (length l)) l) == 0).
    { induction l as [| x l IHl]; simpl; [reflexivity |]. rewrite IHl. ring. }
    rewrite Z0. ring.
  - rewrite IH by lia. ring.
Qed.

Lemma ac_step_law (self : agent) (state : list Q) (self' : agent)
  (next : option (list Q)) :
  supp (ACAgent.step log self state) (self', next) ->
  ACAgent.step_law log self state self' next.
Proof.
  unfold ACAgent.step. intros H.
  apply supp_bind in H. destruct H as [action [Ha H]].
  apply supp_bind in H. destruct H as [[[[w new_state] reward] done] [He H]].
  apply supp_bind in H. destruct H as [action_one_hot [Ho H]].
  apply supp_bind in H. destruct H as [self_t [Ht H]].
  apply supp_bind in H. destruct H as [self_s [Hs H]].
  apply supp_lift_opt in Ho, Hs.
  apply ac_train_spec in Ht. destruct Ht as [target [value [Hn [Hv Ht]]]].
  apply ac_stats_add_spec in Hs. destruct Hs as [r ->]. cbv zeta in Ht. subst self_t.
  unfold ACAgent.critic_target in Hn.
  cbn [ACAgent.set_world ACAgent.critic_model ACAgent.gamma ACAgent.action_size] in *.
  destruct (hd_error (net_predict critic (ACAgent.critic_model self) new_state))
    as [new_value |] eqn:Ev; [| discriminate].
  injection Hn as <-.
  set (delta := reward + DQNAgent.one_minus done * ACAgent.gamma self * new_value - value)
    in *.
  exists action, w, new_state, reward, done, value, new_value, delta,
    (ACAgent.critic_loss delta state),
    (ACAgent.actor_loss log delta (ACAgent.I self) state action_one_hot).
  split; [exact Ha |]. split; [exact He |]. split.
  { unfold ACAgent.one_hot in Ho.
    destruct (Nat.ltb action (ACAgent.action_size self)) eqn:E; [| discriminate].
    apply Nat.ltb_lt. exact E. }
  split; [exact Hv |]. split; [exact Ev |]. split.
  { subst delta. destruct done; unfold DQNAgent.one_minus; ring. }
  assert (Hfin : self'
                 = (let trained :=
                      ACAgent.set_stats
                        (ACAgent.set_actor
                           (ACAgent.set_critic (ACAgent.set_world self w)
                              (fst (opt_apply copt (ACAgent.critic_optimizer self)
                                      (ACAgent.critic_loss delta state)
                                      (ACAgent.critic_model self)))
                              (snd (opt_apply copt (ACAgent.critic_optimizer self)
                                      (ACAgent.critic_loss delta state)
                                      (ACAgent.critic_model self))))
                           (fst (opt_apply aopt (ACAgent.actor_optimizer self)
                                   (ACAgent.actor_loss log delta (ACAgent.I self) state
                                                       action_one_hot)
                                   (ACAgent.actor_model self)))
                           (snd (opt_apply aopt (ACAgent.actor_optimizer self)
                                   (ACAgent.actor_loss log delta (ACAgent.I self) state
                                                       action_one_hot)
                                   (ACAgent.actor_model self)))) r in
                    if done then trained
                    else ACAgent.set_I trained (ACAgent.I self * ACAgent.gamma self))
                 /\ next = if done then None else Some new_state).
  { destruct done; apply supp_ret in H; injection H as -> ->; split; reflexivity. }
  destruct Hfin as [-> ->]. cbv zeta.
  split; [destruct done; reflexivity |].
  split; [intros c; reflexivity |].
  split; [destruct done; reflexivity |].
  split.
  { intros a Hl. exists (ACAgent.dot action_one_hot (net_predict actor a state)).
    split; [| reflexivity].
    exact (dot_one_hot _ _ _ _ Ho Hl). }
  split; [destruct done; reflexivity |].
  split; [destruct done; reflexivity | reflexivity].
Qed.

Lemma passes_I (k : nat) (self : agent) (state : list Q) (self' : agent)
  (state' : list Q) :
  ACAgent.passes log k self state self' state' ->
  ACAgent.gamma self' = ACAgent.gamma self
  /\ ACAgent.I self' == ACAgent.I self * ACAgent.gamma self ^ Z.of_nat k.
Proof.
  induction 1 as [self state | k self state self1 state1 self2 state2 Hs _ IH].
  - split; [reflexivity |]. simpl. ring.
  - apply ac_step_law in Hs.
    destruct Hs as [action [w [new_state [reward [done [v [v' [delta [cl [al Hs]]]]]]]]]].
    destruct Hs as [_ [_ [_ [_ [_ [_ [_ [_ [_ [_ [HI [Hg Hn]]]]]]]]]]]].
    destruct done; [discriminate |].
    destruct IH as [Hg2 HI2]. split; [congruence |].
    rewrite HI2, HI, Hg, Nat2Z.inj_succ.
    unfold Z.succ. rewrite Qpower_plus' by lia. simpl (_ ^ 1). ring.
Qed.

(** C9: the episode starts with [I = 1]; after [k] passes through the loop
    body that do not end the episode [I] is [gamma^k] (one multiplication
    by [gamma] per pass); and the pass that follows updates the actor on
    the loss [- log(p) * delta * I], where [p] is the probability the
    actor gives in the current state to the action taken, [delta] is the
    TD error of the critic ([reward - V(state)] at the end of the episode,
    [reward + gamma * V(new_state) - V(state)] otherwise) and [I] is the
    value from before the pass's own multiplication ([step_law]). *)
Theorem C9_actor_critic_decay (k : nat) (self self0 self_k : agent)
  (state0 state_k : list Q) :
  supp (ACAgent.begin_episode self) (self0, state0) ->
  ACAgent.passes log k self0 state0 self_k state_k ->
  ACAgent.I self0 = 1
  /\ ACAgent.I self_k == ACAgent.gamma self ^ Z.of_nat k
  /\ forall self' next,
       supp (ACAgent.step log self_k state_k) (self', next) ->
       ACAgent.step_law log self_k state_k self' next.
Proof.
  intros Hb Hp. unfold ACAgent.begin_episode in Hb.
  apply supp_bind in Hb. destruct Hb as [[w s] [_ Hb]].
  apply supp_ret in Hb. injection Hb as E _. subst self0.
  destruct (passes_I _ _ _ _ _ Hp) as [_ HI]. simpl in HI.
  split; [reflexivity |]. split; [rewrite HI; ring |].
  intros self' next Hs. apply ac_step_law. exact Hs.
Qed.

End AC.

(** ** The evaluation rollout *)

Lemma tabular_set_world_eta {env} (self : Tabular.Agent env) :
  Tabular.set_world self (Tabular.world self) = self.
Proof. destruct self. reflexivity. Qed.

Lemma tabular_act_loop_frame {env} (fuel : nat) (self : Tabular.Agent env)
  (state : list Q) (self' : Tabular.Agent env) (finished : bool) :
  supp (Tabular.act_loop fuel self state) (self', finished) ->
  self' = Tabular.set_world self (Tabular.world self').
Proof.
  revert self state. induction fuel as [| fuel IH]; intros self state; simpl.
  - intros H. apply supp_ret in H. injection H as -> _.
    symmetry. apply tabular_set_world_eta.
  - intros H. apply supp_bind in H. destruct H as [q_values [_ H]].
    apply supp_bind in H. destruct H as [action [_ H]].
    apply supp_bind in H. destruct H as [[[[w state'] reward] done] [_ H]].
    destruct done.
    + apply supp_ret in H. injection H as -> _. reflexivity.
    + apply IH in H. exact H.
Qed.

Lemma tabular_act_frame {env} (fuel : nat) (self self' : Tabular.Agent env)
  (finished : bool) :
  supp (Tabular.act fuel self) (self', finished) ->
  self' = Tabular.set_world self (Tabular.world self').
Proof.
  unfold Tabular.act. intros H.
  apply supp_bind in H. destruct H as [[w state] [_ H]].
  apply supp_bind in H. destruct H as [[self1 fin] [Hl H]].
  apply supp_ret in H. injection H as -> _.
  apply tabular_act_loop_frame in Hl. rewrite Hl. reflexivity.
Qed.

Lemma pg_set_world_eta {env net opt} (self : PGAgent.Agent env net opt) :
  PGAgent.set_world self (PGAgent.world self) = self.
Proof. destruct self. reflexivity. Qed.

Lemma pg_act_loop_frame {env net opt} (fuel : nat) (self : PGAgent.Agent env net opt)
  (state : list Q) (total : Q) (self' : PGAgent.Agent env net opt)
  (result : option Q) :
  supp (PGAgent.act_loop fuel self state total) (self', result) ->
  self' = PGAgent.set_world self (PGAgent.world self').
Proof.
  revert self state total. induction fuel as [| fuel IH]; intros self state total; simpl.
  - intros H. apply supp_ret in H. injection H as -> _.
    symmetry. apply pg_set_world_eta.
  - intros H. apply supp_bind in H. destruct H as [action [_ H]].
    apply supp_bind in H. destruct H as [[[[w state'] reward] done] [_ H]].
    destruct done.
    + apply supp_ret in H. injection H as -> _. reflexivity.
    + apply IH in H. exact H.
Qed.

Lemma pg_act_frame {env net opt} (fuel : nat) (self self' : PGAgent.Agent env net opt)
  (result : option Q) :
  supp (PGAgent.act fuel self) (self', result) ->
  self' = PGAgent.set_world self (PGAgent.world self').
Proof.
  unfold PGAgent.act. intros H.
  apply supp_bind in H. destruct H as [[w state] [_ H]].
  apply supp_bind in H. destruct H as [[self1 total] [Hl H]].
  apply supp_ret in H. injection H as -> _.
  apply pg_act_loop_frame in Hl. rewrite Hl. reflexivity.
Qed.

(** With [epsilon = 0] the tabular selector is greedy. *)
Lemma epsilon_greedy_selection_greedy (q_values : list Q) (a : nat) :
  supp (Tabular.epsilon_greedy_selection q_values 0) a -> is_argmax q_values a.
Proof.
  unfold Tabular.epsilon_greedy_selection. intros H.
  apply supp_bind in H. destruct H as [explore [He H]].
  unfold random_lt in He. change (Qle_bool 0 0) with true in He. cbv iota in He.
  apply supp_ret in He. subst explore.
  apply supp_bind in H. destruct H as [m [Hm H]]. apply supp_lift_opt in Hm.
  apply supp_bind in H. destruct H as [j [_ H]]. apply supp_lift_opt in H.
  apply nth_error_In in H. apply (q_max_actions_argmax q_values m a Hm). exact H.
Qed.

(** With [epsilon = 0] the DQN selector is greedy. *)
Lemma select_action_greedy {env net opt} (self : DQNAgent.Agent env net opt)
  (state : list Q) (a : nat) :
  supp (DQNAgent.select_action self state 0) a ->
  is_argmax (net_predict net (DQNAgent.nets self (DQNAgent.model self)) state) a.
Proof.
  unfold DQNAgent.select_action. intros H.
  apply supp_bind in H. destruct H as [explore [He H]].
  unfold random_lt in He. change (Qle_bool 0 0) with true in He. cbv iota in He.
  apply supp_ret in He. subst explore.
  apply supp_lift_opt in H. apply argmax_spec in H. tauto.
Qed.

(** C10: whatever a call of [act] returns, for however long it runs, the
    agent after the call is the agent before it with only the state of the
    environment changed: the Q-table and the statistics of a tabular
    agent, both networks, the optimizer, the replay memory, the counter
    and the statistics of the DQN agent, and the policy, the episode
    memory and the statistics of the REINFORCE agent are the same; and
    the value-based agents choose every action of the rollout with
    [epsilon = 0], that is, among the maximizing actions. *)
Theorem C10_act_leaves_learning_state :
  (forall env fuel (self self' : Tabular.Agent env) finished,
      supp (Tabular.act fuel self) (self', finished) ->
      self' = Tabular.set_world self (Tabular.world self')
      /\ Tabular.q_table self' = Tabular.q_table self
      /\ Tabular.stats_rewards self' = Tabular.stats_rewards self)
  /\ (forall env net opt fuel (self self' : DQNAgent.Agent env net opt) result,
        supp (DQNAgent.act fuel self) (self', result) ->
        self' = DQNAgent.set_world self (DQNAgent.world self')
        /\ DQNAgent.nets self' = DQNAgent.nets self
        /\ DQNAgent.memory self' = DQNAgent.memory self
        /\ DQNAgent.stats_rewards self' = DQNAgent.stats_rewards self)
  /\ (forall env net opt fuel (self self' : PGAgent.Agent env net opt) result,
        supp (PGAgent.act fuel self) (self', result) ->
        self' = PGAgent.set_world self (PGAgent.world self')
        /\ PGAgent.model self' = PGAgent.model self
        /\ PGAgent.stats_rewards self' = PGAgent.stats_rewards self)
  /\ (forall q_values a,
        supp (Tabular.epsilon_greedy_selection q_values 0) a -> is_argmax q_values a)
  /\ (forall env net opt (self : DQNAgent.Agent env net opt) state a,
        supp (DQNAgent.select_action self state 0) a ->
        is_argmax (net_predict net (DQNAgent.nets self (DQNAgent.model self)) state) a).
Proof.
  split; [| split; [| split; [| split]]].
  - intros env fuel self self' finished H. apply tabular_act_frame in H.
    split; [exact H |]. rewrite H. split; reflexivity.
  - intros env net opt fuel self self' result H. apply dqn_act_frame in H.
    split; [exact H |]. rewrite H. repeat split.
  - intros env net opt fuel self self' result H. apply pg_act_frame in H.
    split; [exact H |]. rewrite H. split; reflexivity.
  - exact epsilon_greedy_selection_greedy.
  - intros env net opt. exact (@select_action_greedy env net opt).
Qed.

(** ** The properties at work on a small corridor *)

Lemma nth_result_supp {A} (n : nat) (d : dist A) (default : A) :
  Nat.ltb n (length d) = true -> supp d (nth_result n d default).
Proof.
  intros H. apply Nat.ltb_lt in H. unfold supp, nth_result.
  exists (fst (nth n d (0, default))).
  rewrite <- surjective_pairing. apply nth_In. exact H.
Qed.

Lemma supp_listed (d : dist nat) (a : nat) :
  existsb (Nat.eqb a) (map snd d) = true -> supp d a.
Proof.
  intros H. apply existsb_exists in H. destruct H as [x [Hx E]].
  apply Nat.eqb_eq in E. subst x. apply in_map_iff in Hx.
  destruct Hx as [[w a'] [E H]]. simpl in E. subst a'. exists w. exact H.
Qed.

(** C2 as stated fails for the DQN selector: on the value row [1, 1] both
    indices are maximizing, yet with [epsilon = 0] the index 1 is returned
    with probability 0, not with the probability 1/2 a uniform choice
    among the maximizing indices gives it. *)
Lemma C2_dqn_tie_counterexample :
  let self := Toy.dqn_agent [1; 1] in
  let q_values :=
    net_predict Toy.bias_net (DQNAgent.nets self (DQNAgent.model self)) [0] in
  is_argmax q_values 0 /\ is_argmax q_values 1
  /\ pr (DQNAgent.select_action self [0] 0) (Nat.eqb 1) == 0
  /\ uniform_over [0; 1]%nat 1 == 1 # 2
  /\ ~ pr (DQNAgent.select_action self [0] 0) (Nat.eqb 1)
       == 0 * uniform_on 2 1 + (1 - 0) * uniform_over [0; 1]%nat 1.
Proof.
  cbv zeta. split; [| split; [| split; [| split]]].
  - split; [simpl; lia |]. intros [| [| b]] Hb; simpl in *; try lra; lia.
  - split; [simpl; lia |]. intros [| [| b]] Hb; simpl in *; try lra; lia.
  - vm_compute. reflexivity.
  - vm_compute. reflexivity.
  - vm_compute. discriminate.
Qed.

Lemma C2_epsilon_greedy_selectors_witness :
  0 <= 3 # 10 /\ 3 # 10 <= 1 /\ [1; 1] <> []
  /\ exists acts,
      NoDup acts /\ acts <> []
      /\ (forall a, In a acts <-> is_argmax [1; 1] a)
      /\ forall a,
          pr (Tabular.epsilon_greedy_selection [1; 1] (3 # 10)) (Nat.eqb a)
          == (3 # 10) * uniform_on (length [1; 1]) a
             + (1 - (3 # 10)) * uniform_over acts a.
Proof.
  assert (H0 : 0 <= 3 # 10) by (unfold Qle; simpl; lia).
  assert (H1 : 3 # 10 <= 1) by (unfold Qle; simpl; lia).
  assert (Hne : [1; 1] <> []) by discriminate.
  split; [exact H0 |]. split; [exact H1 |]. split; [exact Hne |].
  exact (proj1 (C2_epsilon_greedy_selectors [1; 1] (3 # 10) H0 H1 Hne)).
Defined.

Lemma C3_sarsa_time_step_witness :
  supp (SarsaAgent.loop 1 Toy.tabular_started [0%Z] 0) Toy.sarsa_run
  /\ exists self1 next,
      supp (SarsaAgent.step Toy.tabular_started [0%Z] 0) (self1, next)
      /\ sarsa_law Toy.tabular_started [0%Z] 0 self1 next
      /\ match next with
         | None => Toy.sarsa_run = (self1, true)
         | Some (state', action') => supp (SarsaAgent.loop 0 self1 state' action') Toy.sarsa_run
         end.
Proof.
  assert (H : supp (SarsaAgent.loop 1 Toy.tabular_started [0%Z] 0) Toy.sarsa_run)
    by (apply nth_result_supp; vm_compute; reflexivity).
  split; [exact H |].
  exact (C3_sarsa_time_step 0 Toy.tabular_started [0%Z] 0 Toy.sarsa_run H).
Defined.

Lemma C4_sarsa_vs_q_learning_target_witness :
  ~ Tabular.gamma Toy.tabular_agent == 0
  /\ Tabular.q_row Toy.tabular_agent [0%Z] = Some [0; 0]
  /\ supp (Tabular.epsilon_greedy_selection [0; 0] (Tabular.epsilon Toy.tabular_agent))
          1%nat
  /\ exists m q,
      Np.max [0; 0] = Some m
      /\ nth_error [0; 0] 1 = Some q
      /\ QLearningAgent.target (Tabular.gamma Toy.tabular_agent) 1 false
                                (Tabular.q_row Toy.tabular_agent [0%Z])
         = Some (1 + Tabular.gamma Toy.tabular_agent * m)
      /\ SarsaAgent.target (Tabular.gamma Toy.tabular_agent) 1 false [0; 0] 1
         = Some (1 + Tabular.gamma Toy.tabular_agent * q)
      /\ (1 + Tabular.gamma Toy.tabular_agent * q == 1 + Tabular.gamma Toy.tabular_agent * m
          <-> is_argmax [0; 0] 1).
Proof.
  assert (Hg : ~ Tabular.gamma Toy.tabular_agent == 0)
    by (unfold Qeq; simpl; lia).
  assert (Hr : Tabular.q_row Toy.tabular_agent [0%Z] = Some [0; 0]) by reflexivity.
  assert (Hs : supp (Tabular.epsilon_greedy_selection [0; 0]
                       (Tabular.epsilon Toy.tabular_agent)) 1%nat)
    by (apply supp_listed; vm_compute; reflexivity).
  split; [exact Hg |]. split; [exact Hr |]. split; [exact Hs |].
  destruct (C4_sarsa_vs_q_learning_target Toy.tabular_agent [0%Z] [0; 0] 1 1%nat Hg Hr Hs)
    as [m [q [H1 [_ [_ [H2 [H3 [H4 [H5 _]]]]]]]]].
  exists m, q. split; [exact H1 |]. split; [exact H2 |]. split; [exact H3 |].
  split; [exact H4 | exact H5].
Defined.

Lemma nth_result_pair_supp {A B} (n : nat) (d : dist (A * B)) (default : A * B) (b : B) :
  Nat.ltb n (length d) = true ->
  snd (nth_result n d default) = b ->
  supp d (fst (nth_result n d default), b).
Proof.
  intros H <-. rewrite <- surjective_pairing. apply nth_result_supp. exact H.
Qed.

(** C5 as stated fails: for the small agent's minibatch of two
    transitions (squared temporal-difference errors 1/10000 and 1, over
    two actions) the loss handed to the optimizer is 10001/20000, the
    summed squared error divided by the batch size, while the mean of the
    squared error over the four action entries is 10001/40000. *)
Lemma C5_loss_not_mean_over_entries :
  let self := Toy.dqn_small in
  let states := map DQNAgent.tr_state Toy.dqn_minibatch in
  let online := DQNAgent.nets self (DQNAgent.model self) in
  supp (random_sample (Deque.items (DQNAgent.memory self)) (DQNAgent.batch_size self))
       Toy.dqn_minibatch
  /\ exists target,
      DQNAgent.targets self Toy.dqn_minibatch = Some target
      /\ length (concat target) = 4%nat
      /\ DQNAgent.loss (DQNAgent.batch_size self) states target online == 10001 # 20000
      /\ DQNAgent.mean_sq_err target (map (net_predict Toy.bias_net online) states)
         == 10001 # 40000
      /\ ~ DQNAgent.loss (DQNAgent.batch_size self) states target online
           == DQNAgent.mean_sq_err target (map (net_predict Toy.bias_net online) states).
Proof.
  cbv zeta. split; [apply nth_result_supp; vm_compute; reflexivity |].
  eexists. split; [vm_compute; reflexivity |]. split; [reflexivity |].
  split; [vm_compute; reflexivity |]. split; [vm_compute; reflexivity |].
  vm_compute. discriminate.
Qed.

Lemma C5_dqn_train_witness :
  (DQNAgent.batch_size Toy.dqn_small <= Deque.len (DQNAgent.memory Toy.dqn_small))%nat
  /\ supp (DQNAgent.train Toy.dqn_small) Toy.dqn_trained
  /\ exists minibatch target,
      length minibatch = 2%nat
      /\ Forall2 (DQNAgent.target_row Toy.dqn_small) minibatch target
      /\ DQNAgent.loss 2 (map DQNAgent.tr_state minibatch) target
                       (DQNAgent.nets Toy.dqn_small (DQNAgent.model Toy.dqn_small))
         == 1 / inject_Z 2
            * Np.sum_list (map (DQNAgent.sq_td_error Toy.dqn_small) minibatch)
      /\ DQNAgent.nets Toy.dqn_trained 1%nat = DQNAgent.nets Toy.dqn_small 1%nat
      /\ DQNAgent.memory Toy.dqn_trained = DQNAgent.memory Toy.dqn_small.
Proof.
  assert (Hb : (DQNAgent.batch_size Toy.dqn_small
                <= Deque.len (DQNAgent.memory Toy.dqn_small))%nat)
    by (vm_compute; lia).
  assert (Hs : supp (DQNAgent.train Toy.dqn_small) Toy.dqn_trained)
    by (apply nth_result_supp; vm_compute; reflexivity).
  split; [exact Hb |]. split; [exact Hs |].
  destruct (C5_dqn_train Toy.dqn_small Toy.dqn_trained Hb Hs)
    as [minibatch [target [_ [Hl [_ [Hrows Hrest]]]]]].
  cbv zeta in Hrest. destruct Hrest as [_ [Hloss [_ [_ [Hn [Hm _]]]]]].
  exists minibatch, target. split; [exact Hl |]. split; [exact Hrows |].
  split; [exact Hloss |].
  split; [apply Hn; discriminate | exact Hm].
Defined.

Lemma C6_target_network_sync_witness :
  DQNAgent.model Toy.dqn_small <> DQNAgent.target_model Toy.dqn_small
  /\ DQNAgent.steps 2 Toy.dqn_small Toy.dqn_small_2
  /\ DQNAgent.nets Toy.dqn_small_2 (DQNAgent.target_model Toy.dqn_small)
     = DQNAgent.nets Toy.dqn_small_2 (DQNAgent.model Toy.dqn_small)
  /\ DQNAgent.target_update_counter Toy.dqn_small_2 = 0%nat.
Proof.
  assert (Hne : DQNAgent.model Toy.dqn_small <> DQNAgent.target_model Toy.dqn_small)
    by discriminate.
  assert (S1 : supp (DQNAgent.step Toy.dqn_small [0]) (Toy.dqn_small_1, None)).
  { unfold Toy.dqn_small_1. apply nth_result_pair_supp; vm_compute; reflexivity. }
  assert (S2 : supp (DQNAgent.step Toy.dqn_small_1 [0]) (Toy.dqn_small_2, None)).
  { unfold Toy.dqn_small_2. apply nth_result_pair_supp; vm_compute; reflexivity. }
  assert (Hs : DQNAgent.steps 2 Toy.dqn_small Toy.dqn_small_2).
  { exact (DQNAgent.steps_step 1 _ [0] _ None _ S1
             (DQNAgent.steps_step 0 _ [0] _ None _ S2 (DQNAgent.steps_done _))). }
  split; [exact Hne |]. split; [exact Hs |].
  destruct (C6_target_network_sync 2 Toy.dqn_small Toy.dqn_small_2 Hne Hs)
    as [_ [H _]].
  apply H; [lia | reflexivity].
Defined.

Lemma C7_replay_buffer_witness :
  length Toy.three_transitions = (2 + 1)%nat
  /\ Deque.len (fold_left Deque.append Toy.three_transitions (Deque.empty 2)) = 2%nat
  /\ Deque.items (fold_left Deque.append Toy.three_transitions (Deque.empty 2))
     = skipn 1 Toy.three_transitions.
Proof.
  split; [reflexivity |].
  exact (proj1 (@C7_replay_buffer Toy.corridor Toy.bias_net Toy.plain_opt
                  2 1 Toy.three_transitions eq_refl)).
Defined.

Lemma C9_actor_critic_decay_witness :
  supp (ACAgent.begin_episode Toy.ac_agent) (Toy.ac_started, [0])
  /\ ACAgent.passes Toy.ac_log 2 Toy.ac_started [0] Toy.ac_after_2 [1 # 2]
  /\ supp (ACAgent.step Toy.ac_log Toy.ac_after_2 [1 # 2]) (Toy.ac_after_3, None)
  /\ ACAgent.I Toy.ac_started = 1
  /\ ACAgent.I Toy.ac_after_2 == ACAgent.gamma Toy.ac_agent ^ 2
  /\ ACAgent.step_law Toy.ac_log Toy.ac_after_2 [1 # 2] Toy.ac_after_3 None.
Proof.
  assert (Hb : supp (ACAgent.begin_episode Toy.ac_agent) (Toy.ac_started, [0])).
  { unfold Toy.ac_started. apply nth_result_pair_supp; vm_compute; reflexivity. }
  assert (S1 : supp (ACAgent.step Toy.ac_log Toy.ac_started [0])
                    (Toy.ac_after_1, Some [1 # 2])).
  { unfold Toy.ac_after_1. apply nth_result_pair_supp; vm_compute; reflexivity. }
  assert (S2 : supp (ACAgent.step Toy.ac_log Toy.ac_after_1 [1 # 2])
                    (Toy.ac_after_2, Some [1 # 2])).
  { unfold Toy.ac_after_2. apply nth_result_pair_supp; vm_compute; reflexivity. }
  assert (S3 : supp (ACAgent.step Toy.ac_log Toy.ac_after_2 [1 # 2])
                    (Toy.ac_after_3, None)).
  { unfold Toy.ac_after_3. apply nth_result_pair_supp; vm_compute; reflexivity. }
  assert (Hp : ACAgent.passes Toy.ac_log 2 Toy.ac_started [0] Toy.ac_after_2 [1 # 2]).
  { exact (ACAgent.passes_more Toy.ac_log 1 _ _ _ _ _ _ S1
             (ACAgent.passes_more Toy.ac_log 0 _ _ _ _ _ _ S2
                (ACAgent.passes_none Toy.ac_log _ _))). }
  split; [exact Hb |]. split; [exact Hp |]. split; [exact S3 |].
  destruct (C9_actor_critic_decay Toy.ac_log 2 Toy.ac_agent Toy.ac_started
              Toy.ac_after_2 [0] [1 # 2] Hb Hp) as [H1 [H2 H3]].
  split; [exact H1 |]. split; [exact H2 |]. exact (H3 _ _ S3).
Defined.

(** The rollouts of C10 do return on the corridor: with enough fuel [act]
    lists results that ended by themselves. *)
Example act_returns_on_corridor :
  supp (Tabular.act 3 Toy.tabular_agent)
       (nth_result 0 (Tabular.act 3 Toy.tabular_agent) (Toy.tabular_agent, false))
  /\ snd (nth_result 0 (Tabular.act 3 Toy.tabular_agent) (Toy.tabular_agent, false)) = true
  /\ snd (nth_result 0 (DQNAgent.act 3 (Toy.dqn_agent [1; 0]))
                      (Toy.dqn_agent [1; 0], None))
     = Some 1
  /\ snd (nth_result 0 (PGAgent.act 3 Toy.pg_agent) (Toy.pg_agent, None)) = Some 1.
Proof.
  split; [apply nth_result_supp; vm_compute; reflexivity |].
  split; [vm_compute; reflexivity |]. split; vm_compute; reflexivity.
Qed.


(** * Further properties of the agents *)

(** ** Lookups in the Q-table *)

Lemma norm_index_wrap (n i : Z) :
  (- n <= i < n)%Z -> Np.norm_index n i = Some (i mod n)%Z.
Proof.
  intros H. unfold Np.norm_index.
  destruct ((0 <=? i)%Z && (i <? n)%Z) eqn:E.
  - apply andb_true_iff in E. destruct E as [E1 E2].
    apply Z.leb_le in E1. apply Z.ltb_lt in E2.
    rewrite Z.mod_small by lia. reflexivity.
  - assert (Hi : (i < 0)%Z).
    { destruct (Z.ltb_spec i 0) as [Hlt | Hge]; [exact Hlt |].
      exfalso. apply andb_false_iff in E. destruct E as [E | E].
      - apply Z.leb_gt in E. lia.
      - apply Z.ltb_ge in E. lia. }
    replace ((- n <=? i)%Z && (i <? 0)%Z) with true
      by (symmetry; apply andb_true_iff; split; [apply Z.leb_le | apply Z.ltb_lt]; lia).
    f_equal. apply Z.mod_unique with (-1)%Z; lia.
Qed.

Lemma norm_indices_wrap (grid idx : list Z) :
  index_ok grid idx -> Np.norm_indices grid idx = Some (Np.zip_with Z.modulo idx grid).
Proof.
  unfold index_ok. induction 1 as [| i n idx grid Hi _ IH]; [reflexivity |].
  simpl. rewrite (norm_index_wrap n i Hi), IH. reflexivity.
Qed.



(** ** Q-learning *)

Lemma q_learning_step_law {env} (self : Tabular.Agent env) (state : list Z)
  (self' : Tabular.Agent env) (next : option (list Z)) :
  supp (QLearningAgent.step self state) (self', next) ->
  q_learning_law self state self' next.
Proof.
  unfold QLearningAgent.step. intros H.
  apply supp_bind in H. destruct H as [row [Hrow H]].
  apply supp_bind in H. destruct H as [action [Hact H]].
  apply supp_bind in H. destruct H as [[[[w new_obs] reward] done] [Henv H]].
  apply supp_bind in H. destruct H as [target [Htar H]].
  apply supp_bind in H. destruct H as [q_old [Hold H]].
  apply supp_bind in H. destruct H as [self2 [Hset H]].
  apply supp_bind in H. destruct H as [self3 [Hstat H]].
  apply supp_lift_opt in Hrow, Htar, Hold, Hset, Hstat.
  destruct (q_set_spec _ _ _ _ _ Hset) as [cell [Hc [Hv [Ho [Hs _]]]]].
  destruct (stats_add_spec _ _ _ Hstat) as [Ht [Hs' _]].
  assert (Hfin : self' = self3
                 /\ next = if done then None
                           else Some (Tabular.get_discrete_state self new_obs)).
  { destruct done; apply supp_ret in H; injection H as -> ->; split; reflexivity. }
  destruct Hfin as [-> Hn].
  exists row, action, w, new_obs, reward, done, target, q_old, cell.
  split; [exact Hrow |]. split; [exact Hact |]. split; [exact Henv |].
  split.
  { unfold QLearningAgent.target in Htar. destruct done.
    - congruence.
    - change (Tabular.q_row (Tabular.set_world self w)
                (Tabular.get_discrete_state (Tabular.set_world self w) new_obs))
        with (Tabular.q_row self (Tabular.get_discrete_state self new_obs)) in Htar.
      destruct (Tabular.q_row self (Tabular.get_discrete_state self new_obs))
        as [next_row |]; [| discriminate].
      destruct (Np.max next_row) as [m |] eqn:Em; [| discriminate].
      exists next_row, m. split; [reflexivity |]. split; [exact Em |].
      simpl in Htar. congruence. }
  split; [exact Hc |]. split.
  { unfold Tabular.q_get, Tabular.q_row in Hold. simpl in Hold, Hc.
    rewrite Hc in Hold. exact Hold. }
  split; [rewrite Ht; exact Hv |].
  split; [intros c a Hca; rewrite Ht; apply Ho; exact Hca |].
  split; [| exact Hn].
  unfold same_setup in *. simpl in *. intuition congruence.
Qed.

(** X4: every pass through the body of the Q-learning loop that completes
    obeys the update rule ([q_learning_law]): the action executed is a
    result of the epsilon-greedy selector on [Q[state]]; the target is the
    reward at the end of the episode, where [Q[new_state]] is not looked
    up, and otherwise [reward + gamma * max_a Q[new_state][a]], whatever
    action comes next;
    [Q[state][action]] moves by [alpha * (target - Q[state][action])] and no
    other entry of the table changes; and the rest of the loop runs from
    [new_state]. *)
Theorem X4_q_learning_time_step {env} (fuel : nat) (self : Tabular.Agent env)
  (state : list Z) (r : Tabular.Agent env * bool) :
  supp (QLearningAgent.loop (S fuel) self state) r ->
  exists self1 next,
    supp (QLearningAgent.step self state) (self1, next)
    /\ q_learning_law self state self1 next
    /\ match next with
       | None => r = (self1, true)
       | Some state' => supp (QLearningAgent.loop fuel self1 state') r
       end.
Proof.
  simpl. intros H. apply supp_bind in H. destruct H as [[self1 next] [Hs H]].
  exists self1, next. split; [exact Hs |].
  split; [apply q_learning_step_law; exact Hs |].
  destruct next as [state' |]; [exact H | apply supp_ret in H; exact H].
Qed.

Lemma X4_q_learning_time_step_witness :
  supp (QLearningAgent.loop 1 Toy.tabular_started [0%Z]) Toy.q_learning_run
  /\ exists self1 next,
      supp (QLearningAgent.step Toy.tabular_started [0%Z]) (self1, next)
      /\ q_learning_law Toy.tabular_started [0%Z] self1 next
      /\ match next with
         | None => Toy.q_learning_run = (self1, true)
         | Some state' => supp (QLearningAgent.loop 0 self1 state') Toy.q_learning_run
         end.
Proof.
  assert (H : supp (QLearningAgent.loop 1 Toy.tabular_started [0%Z]) Toy.q_learning_run)
    by (apply nth_result_supp; vm_compute; reflexivity).
  split; [exact H |].
  exact (X4_q_learning_time_step 0 Toy.tabular_started [0%Z] Toy.q_learning_run H).
Defined.

(** ** Invariants of tabular training *)

Section TabularInvariant.

Context {env : Env}.

(** A property of the agent that does not look at the state of the
    environment nor at the statistics. *)
Variable P : Tabular.Agent env -> Prop.
Hypothesis P_world : forall self w, P self -> P (Tabular.set_world self w).
Hypothesis P_stats : forall self r, P self -> P (Tabular.set_stats self r).

Lemma act_keeps (fuel : nat) (self self' : Tabular.Agent env) (finished : bool) :
  P self -> supp (Tabular.act fuel self) (self', finished) -> P self'.
Proof.
  intros HP H. apply tabular_act_frame in H. rewrite H. apply P_world. exact HP.
Qed.

Section Sarsa.

Hypothesis P_step : forall self state action self' next,
    P self -> supp (SarsaAgent.step self state action) (self', next) -> P self'.

Lemma sarsa_loop_keeps (fuel : nat) (self : Tabular.Agent env) (state : list Z)
  (action : nat) (self' : Tabular.Agent env) (finished : bool) :
  P self -> supp (SarsaAgent.loop fuel self state action) (self', finished) -> P self'.
Proof.
  revert self state action. induction fuel as [| fuel IH]; intros self state action HP H;
    simpl in H.
  - apply supp_ret in H. injection H as -> _. exact HP.
  - apply supp_bind in H. destruct H as [[self1 next] [Hs H]].
    pose proof (P_step _ _ _ _ _ HP Hs) as HP1.
    destruct next as [[state' action'] |].
    + exact (IH _ _ _ HP1 H).
    + apply supp_ret in H. injection H as -> _. exact HP1.
Qed.

Lemma sarsa_run_episode_keeps (fuel : nat) (self : Tabular.Agent env) (episode : nat)
  (self' : Tabular.Agent env) (finished : bool) :
  P self -> supp (SarsaAgent.run_episode fuel self episode) (self', finished) -> P self'.
Proof.
  unfold SarsaAgent.run_episode. intros HP H.
  apply supp_bind in H. destruct H as [[w obs] [_ H]].
  apply supp_bind in H. destruct H as [row [_ H]].
  apply supp_bind in H. destruct H as [action [_ H]].
  apply supp_bind in H. destruct H as [[self1 fin] [Hl H]].
  apply sarsa_loop_keeps in Hl; [| apply P_world, P_stats; exact HP].
  destruct fin; simpl in H.
  - destruct (_ && _)%bool.
    + exact (act_keeps _ _ _ _ Hl H).
    + apply supp_ret in H. injection H as -> _. exact Hl.
  - apply supp_ret in H. injection H as -> _. exact Hl.
Qed.

Lemma sarsa_execute_keeps (fuel : nat) (self self' : Tabular.Agent env)
  (finished : bool) :
  P self -> supp (SarsaAgent.execute fuel self) (self', finished) -> P self'.
Proof.
  unfold SarsaAgent.execute. generalize (seq 0 (Tabular.num_episodes self)).
  intros episodes. revert self.
  induction episodes as [| episode rest IH]; intros self HP H; simpl in H.
  - apply supp_ret in H. injection H as -> _. exact HP.
  - apply supp_bind in H. destruct H as [[self1 fin] [He H]].
    apply sarsa_run_episode_keeps in He; [| exact HP].
    destruct fin.
    + exact (IH _ He H).
    + apply supp_ret in H. injection H as -> _. exact He.
Qed.

End Sarsa.

Section QLearning.

Hypothesis P_step : forall self state self' next,
    P self -> supp (QLearningAgent.step self state) (self', next) -> P self'.

Lemma q_learning_loop_keeps (fuel : nat) (self : Tabular.Agent env) (state : list Z)
  (self' : Tabular.Agent env) (finished : bool) :
  P self -> supp (QLearningAgent.loop fuel self state) (self', finished) -> P self'.
Proof.
  revert self state. induction fuel as [| fuel IH]; intros self state HP H; simpl in H.
  - apply supp_ret in H. injection H as -> _. exact HP.
  - apply supp_bind in H. destruct H as [[self1 next] [Hs H]].
    pose proof (P_step _ _ _ _ HP Hs) as HP1.
    destruct next as [state' |].
    + exact (IH _ _ HP1 H).
    + apply supp_ret in H. injection H as -> _. exact HP1.
Qed.

Lemma q_learning_run_episode_keeps (fuel : nat) (self : Tabular.Agent env)
  (episode : nat) (self' : Tabular.Agent env) (finished : bool) :
  P self -> supp (QLearningAgent.run_episode fuel self episode) (self', finished) ->
  P self'.
Proof.
  unfold QLearningAgent.run_episode. intros HP H.
  apply supp_bind in H. destruct H as [[w obs] [_ H]].
  apply supp_bind in H. destruct H as [[self1 fin] [Hl H]].
  apply q_learning_loop_keeps in Hl; [| apply P_world, P_stats; exact HP].
  destruct fin; simpl in H.
  - destruct (_ && _)%bool.
    + exact (act_keeps _ _ _ _ Hl H).
    + apply supp_ret in H. injection H as -> _. exact Hl.
  - apply supp_ret in H. injection H as -> _. exact Hl.
Qed.

Lemma q_learning_execute_keeps (fuel : nat) (self self' : Tabular.Agent env)
  (finished : bool) :
  P self -> supp (QLearningAgent.execute fuel self) (self', finished) -> P self'.
Proof.
  unfold QLearningAgent.execute. generalize (seq 0 (Tabular.num_episodes self)).
  intros episodes. revert self.
  induction episodes as [| episode rest IH]; intros self HP H; simpl in H.
  - apply supp_ret in H. injection H as -> _. exact HP.
  - apply supp_bind in H. destruct H as [[self1 fin] [He H]].
    apply q_learning_run_episode_keeps in He; [| exact HP].
    destruct fin.
    + exact (IH _ He H).
    + apply supp_ret in H. injection H as -> _. exact He.
Qed.

End QLearning.

End TabularInvariant.

Lemma update_within (lo hi alpha q_old target : Q) :
  0 <= alpha -> alpha <= 1 ->
  lo <= q_old -> q_old <= hi -> lo <= target -> target <= hi ->
  lo <= q_old + alpha * (target - q_old) /\ q_old + alpha * (target - q_old) <= hi.
Proof.
  intros. split; nra.
Qed.

Lemma q_bounded_update {env} (lo hi : Q) (self self' : Tabular.Agent env)
  (cell : list Z) (action : nat) (v : Q) :
  q_bounded lo hi self ->
  nth_error (Tabular.q_table self' cell) action = Some v ->
  (forall c a, c <> cell \/ a <> action ->
     nth_error (Tabular.q_table self' c) a = nth_error (Tabular.q_table self c) a) ->
  lo <= v -> v <= hi ->
  q_bounded lo hi self'.
Proof.
  intros Hb Hv Ho H1 H2 c a q Hq.
  destruct (list_eq_dec Z.eq_dec c cell) as [-> | Hc].
  - destruct (Nat.eq_dec a action) as [-> | Ha].
    + rewrite Hv in Hq. injection Hq as <-. split; assumption.
    + rewrite Ho in Hq by (right; exact Ha). exact (Hb _ _ _ Hq).
  - rewrite Ho in Hq by (left; exact Hc). exact (Hb _ _ _ Hq).
Qed.

(** The conditions under which the table stays bounded, as a property of
    the agent. *)
Lemma bounded_sarsa_step {env} (rmin rmax lo hi : Q) (self : Tabular.Agent env)
  (state : list Z) (action : nat) (self' : Tabular.Agent env)
  (next : option (list Z * nat)) :
  rewards_within env rmin rmax -> lo <= rmin -> rmax <= hi ->
  (q_bounded lo hi self
   /\ 0 <= Tabular.alpha self /\ Tabular.alpha self <= 1 /\ 0 <= Tabular.gamma self
   /\ lo <= rmin + Tabular.gamma self * lo /\ rmax + Tabular.gamma self * hi <= hi) ->
  supp (SarsaAgent.step self state action) (self', next) ->
  (q_bounded lo hi self'
   /\ 0 <= Tabular.alpha self' /\ Tabular.alpha self' <= 1 /\ 0 <= Tabular.gamma self'
   /\ lo <= rmin + Tabular.gamma self' * lo /\ rmax + Tabular.gamma self' * hi <= hi).
Proof.
  intros Hr Hlo Hhi [Hb [Ha0 [Ha1 [Hg [Hl Hu]]]]] H.
  apply sarsa_step_law in H.
  destruct H as [w [new_obs [reward [done [next_row [new_action [target [q_old [cell H]]]]]]]]].
  destruct H as [Henv [Hrow [_ [Htar [Hc [Hold [Hnew [Ho [Hs _]]]]]]]]].
  destruct Hs as [_ [_ [_ [Ea Eg]]]]. rewrite Ea, Eg.
  split; [| repeat split; assumption].
  destruct (Hr _ _ _ _ _ _ Henv) as [Hr1 Hr2].
  destruct (Hb _ _ _ Hold) as [Ho1 Ho2].
  assert (Ht : lo <= target /\ target <= hi).
  { destruct done.
    - subst target. split; lra.
    - destruct Htar as [q [Hq ->]].
      unfold Tabular.q_row in Hrow.
      destruct (Np.norm_indices _ _) as [c |]; [| discriminate].
      injection Hrow as <-. destruct (Hb _ _ _ Hq) as [Hq1 Hq2].
      split; nra. }
  destruct Ht as [Ht1 Ht2].
  destruct (update_within lo hi (Tabular.alpha self) q_old target) as [Hn1 Hn2];
    try assumption.
  exact (q_bounded_update lo hi self self' cell action _ Hb Hnew Ho Hn1 Hn2).
Qed.

Lemma bounded_q_learning_step {env} (rmin rmax lo hi : Q) (self : Tabular.Agent env)
  (state : list Z) (self' : Tabular.Agent env) (next : option (list Z)) :
  rewards_within env rmin rmax -> lo <= rmin -> rmax <= hi ->
  (q_bounded lo hi self
   /\ 0 <= Tabular.alpha self /\ Tabular.alpha self <= 1 /\ 0 <= Tabular.gamma self
   /\ lo <= rmin + Tabular.gamma self * lo /\ rmax + Tabular.gamma self * hi <= hi) ->
  supp (QLearningAgent.step self state) (self', next) ->
  (q_bounded lo hi self'
   /\ 0 <= Tabular.alpha self' /\ Tabular.alpha self' <= 1 /\ 0 <= Tabular.gamma self'
   /\ lo <= rmin + Tabular.gamma self' * lo /\ rmax + Tabular.gamma self' * hi <= hi).
Proof.
  intros Hr Hlo Hhi [Hb [Ha0 [Ha1 [Hg [Hl Hu]]]]] H.
  apply q_learning_step_law in H.
  destruct H as [row [action [w [new_obs [reward [done [target [q_old [cell H]]]]]]]]].
  destruct H as [_ [_ [Henv [Htar [Hc [Hold [Hnew [Ho [Hs _]]]]]]]]].
  destruct Hs as [_ [_ [_ [Ea Eg]]]]. rewrite Ea, Eg.
  split; [| repeat split; assumption].
  destruct (Hr _ _ _ _ _ _ Henv) as [Hr1 Hr2].
  destruct (Hb _ _ _ Hold) as [Ho1 Ho2].
  assert (Ht : lo <= target /\ target <= hi).
  { destruct done.
    - subst target. split; lra.
    - destruct Htar as [next_row [m [Hrow [Hm ->]]]].
      unfold Tabular.q_row in Hrow.
      destruct (Np.norm_indices _ _) as [c |]; [| discriminate].
      injection Hrow as <-.
      destruct (np_max_spec _ _ Hm) as [Hin _].
      destruct (In_nth_error _ _ Hin) as [a Hq].
      destruct (Hb _ _ _ Hq) as [Hq1 Hq2].
      split; nra. }
  destruct Ht as [Ht1 Ht2].
  destruct (update_within lo hi (Tabular.alpha self) q_old target) as [Hn1 Hn2];
    try assumption.
  exact (q_bounded_update lo hi self self' cell action _ Hb Hnew Ho Hn1 Hn2).
Qed.

(** X5: SARSA keeps the Q-values bounded.  When every reward of the
    environment lies in [[rmin, rmax]], the learning rate lies in [[0, 1]],
    the discount is not negative, and [[lo, hi]] is an interval that holds
    the rewards and is closed under [q |-> reward + gamma * q], a table
    with all entries in [[lo, hi]] still has all entries in [[lo, hi]] after
    any run of [execute], however long and wherever it is cut. *)
Theorem X5_sarsa_q_values_bounded {env} (rmin rmax lo hi : Q) (fuel : nat)
  (self self' : Tabular.Agent env) (finished : bool) :
  rewards_within env rmin rmax ->
  0 <= Tabular.alpha self -> Tabular.alpha self <= 1 -> 0 <= Tabular.gamma self ->
  lo <= rmin -> rmax <= hi ->
  lo <= rmin + Tabular.gamma self * lo -> rmax + Tabular.gamma self * hi <= hi ->
  q_bounded lo hi self ->
  supp (SarsaAgent.execute fuel self) (self', finished) ->
  q_bounded lo hi self'.
Proof.
  intros Hr Ha0 Ha1 Hg Hlo Hhi Hl Hu Hb H.
  apply (sarsa_execute_keeps
           (fun a => q_bounded lo hi a
                     /\ 0 <= Tabular.alpha a /\ Tabular.alpha a <= 1
                     /\ 0 <= Tabular.gamma a
                     /\ lo <= rmin + Tabular.gamma a * lo
                     /\ rmax + Tabular.gamma a * hi <= hi)) in H.
  - tauto.
  - intros a w Ha. exact Ha.
  - intros a r Ha. exact Ha.
  - intros a state action a' next Ha Hs.
    exact (bounded_sarsa_step rmin rmax lo hi a state action a' next Hr Hlo Hhi Ha Hs).
  - tauto.
Qed.

(** X6: Q-learning keeps the Q-values bounded.  When every reward of the
    environment lies in [[rmin, rmax]], the learning rate lies in [[0, 1]],
    the discount is not negative, and [[lo, hi]] is an interval that holds
    the rewards and is closed under [q |-> reward + gamma * q], a table
    with all entries in [[lo, hi]] still has all entries in [[lo, hi]] after
    any run of [execute] of the Q-learning agent. *)
Theorem X6_q_learning_q_values_bounded {env} (rmin rmax lo hi : Q) (fuel : nat)
  (self self' : Tabular.Agent env) (finished : bool) :
  rewards_within env rmin rmax ->
  0 <= Tabular.alpha self -> Tabular.alpha self <= 1 -> 0 <= Tabular.gamma self ->
  lo <= rmin -> rmax <= hi ->
  lo <= rmin + Tabular.gamma self * lo -> rmax + Tabular.gamma self * hi <= hi ->
  q_bounded lo hi self ->
  supp (QLearningAgent.execute fuel self) (self', finished) ->
  q_bounded lo hi self'.
Proof.
  intros Hr Ha0 Ha1 Hg Hlo Hhi Hl Hu Hb H.
  apply (q_learning_execute_keeps
           (fun a => q_bounded lo hi a
                     /\ 0 <= Tabular.alpha a /\ Tabular.alpha a <= 1
                     /\ 0 <= Tabular.gamma a
                     /\ lo <= rmin + Tabular.gamma a * lo
                     /\ rmax + Tabular.gamma a * hi <= hi)) in H.
  - tauto.
  - intros a w Ha. exact Ha.
  - intros a r Ha. exact Ha.
  - intros a state a' next Ha Hs.
    exact (bounded_q_learning_step rmin rmax lo hi a state a' next Hr Hlo Hhi Ha Hs).
  - tauto.
Qed.

Lemma corridor_rewards : rewards_within Toy.corridor 0 1.
Proof.
  intros s a w obs reward done H. simpl in H.
  destruct (Nat.eqb a 0); apply supp_ret in H; injection H as _ _ -> _;
    split; unfold Qle; simpl; lia.
Qed.

Lemma tabular_brief_bounded : q_bounded 0 100 Toy.tabular_brief.
Proof.
  intros cell a q H. simpl in H.
  destruct a as [| [| a]]; simpl in H; try (destruct a; discriminate);
    injection H as <-; split; unfold Qle; simpl; lia.
Qed.

Lemma X5_sarsa_q_values_bounded_witness :
  rewards_within Toy.corridor 0 1
  /\ q_bounded 0 100 Toy.tabular_brief
  /\ supp (SarsaAgent.execute 2 Toy.tabular_brief)
          (fst Toy.sarsa_brief_run, true)
  /\ q_bounded 0 100 (fst Toy.sarsa_brief_run).
Proof.
  assert (Hs : supp (SarsaAgent.execute 2 Toy.tabular_brief)
                    (fst Toy.sarsa_brief_run, true)).
  { unfold Toy.sarsa_brief_run. apply nth_result_pair_supp; vm_compute; reflexivity. }
  split; [exact corridor_rewards |]. split; [exact tabular_brief_bounded |].
  split; [exact Hs |].
  apply (X5_sarsa_q_values_bounded 0 1 0 100 2 Toy.tabular_brief
           (fst Toy.sarsa_brief_run) true corridor_rewards);
    try exact tabular_brief_bounded; try exact Hs; unfold Qle; simpl; lia.
Defined.

Lemma X6_q_learning_q_values_bounded_witness :
  rewards_within Toy.corridor 0 1
  /\ q_bounded 0 100 Toy.tabular_brief
  /\ supp (QLearningAgent.execute 2 Toy.tabular_brief)
          (fst Toy.q_learning_brief_run, true)
  /\ q_bounded 0 100 (fst Toy.q_learning_brief_run).
Proof.
  assert (Hs : supp (QLearningAgent.execute 2 Toy.tabular_brief)
                    (fst Toy.q_learning_brief_run, true)).
  { unfold Toy.q_learning_brief_run.
    apply nth_result_pair_supp; vm_compute; reflexivity. }
  split; [exact corridor_rewards |]. split; [exact tabular_brief_bounded |].
  split; [exact Hs |].
  apply (X6_q_learning_q_values_bounded 0 1 0 100 2 Toy.tabular_brief
           (fst Toy.q_learning_brief_run) true corridor_rewards);
    try exact tabular_brief_bounded; try exact Hs; unfold Qle; simpl; lia.
Defined.

Lemma length_by_nth_error {A} (l1 l2 : list A) :
  (forall i, nth_error l1 i = None <-> nth_error l2 i = None) ->
  length l1 = length l2.
Proof.
  intros H.
  pose proof (proj1 (H (length l1)) (proj2 (nth_error_None l1 _) (Nat.le_refl _))) as H1.
  pose proof (proj2 (H (length l2)) (proj2 (nth_error_None l2 _) (Nat.le_refl _))) as H2.
  apply nth_error_None in H1, H2. lia.
Qed.

Lemma rows_after_update {env} (self self' : Tabular.Agent env) (cell : list Z)
  (action : nat) (q_old v : Q) :
  nth_error (Tabular.q_table self cell) action = Some q_old ->
  nth_error (Tabular.q_table self' cell) action = Some v ->
  (forall c a, c <> cell \/ a <> action ->
     nth_error (Tabular.q_table self' c) a = nth_error (Tabular.q_table self c) a) ->
  forall c, length (Tabular.q_table self' c) = length (Tabular.q_table self c).
Proof.
  intros Hold Hnew Ho c. apply length_by_nth_error. intros i.
  destruct (list_eq_dec Z.eq_dec c cell) as [-> | Hc].
  - destruct (Nat.eq_dec i action) as [-> | Hi].
    + rewrite Hold, Hnew. split; discriminate.
    + rewrite Ho by (right; exact Hi). reflexivity.
  - rewrite Ho by (left; exact Hc). reflexivity.
Qed.

Lemma same_setup_trans {env} (a b c : Tabular.Agent env) :
  same_setup a b -> same_setup b c -> same_setup a c.
Proof. unfold same_setup. intuition congruence. Qed.

(** X7: training never reshapes a tabular agent.  After any run of
    [execute], of the SARSA agent or of the Q-learning agent, every row of
    the Q-table still has one entry per action, and the grid, the shape of
    the table and the parameters [epsilon], [alpha] and [gamma] are what
    they were. *)
Theorem X7_training_keeps_table_shape {env} (fuel : nat) (self : Tabular.Agent env) :
  rows_complete self ->
  (forall self' finished,
      supp (SarsaAgent.execute fuel self) (self', finished) ->
      rows_complete self' /\ same_setup self self')
  /\ (forall self' finished,
        supp (QLearningAgent.execute fuel self) (self', finished) ->
        rows_complete self' /\ same_setup self self').
Proof.
  intros Hr.
  assert (Hself : rows_complete self /\ same_setup self self)
    by (split; [exact Hr | repeat split]).
  split; intros self' finished H.
  - apply (sarsa_execute_keeps (fun a => rows_complete a /\ same_setup self a)) in H;
      try assumption.
    + intros a w Ha. exact Ha.
    + intros a r Ha. exact Ha.
    + intros a state action a' next [Ha1 Ha2] Hs. apply sarsa_step_law in Hs.
      destruct Hs as [w [new_obs [reward [done [next_row [new_action [target [q_old [cell Hs]]]]]]]]].
      destruct Hs as [_ [_ [_ [_ [_ [Hold [Hnew [Ho [Hsetup _]]]]]]]]].
      split; [| exact (same_setup_trans _ _ _ Ha2 Hsetup)].
      intros c. rewrite (rows_after_update a a' cell action q_old _ Hold Hnew Ho c).
      apply Ha1.
  - apply (q_learning_execute_keeps (fun a => rows_complete a /\ same_setup self a)) in H;
      try assumption.
    + intros a w Ha. exact Ha.
    + intros a r Ha. exact Ha.
    + intros a state a' next [Ha1 Ha2] Hs. apply q_learning_step_law in Hs.
      destruct Hs as [row [action [w [new_obs [reward [done [target [q_old [cell Hs]]]]]]]]].
      destruct Hs as [_ [_ [_ [_ [_ [Hold [Hnew [Ho [Hsetup _]]]]]]]]].
      split; [| exact (same_setup_trans _ _ _ Ha2 Hsetup)].
      intros c. rewrite (rows_after_update a a' cell action q_old _ Hold Hnew Ho c).
      apply Ha1.
Qed.

Lemma X7_training_keeps_table_shape_witness :
  rows_complete Toy.tabular_brief
  /\ supp (SarsaAgent.execute 2 Toy.tabular_brief) (fst Toy.sarsa_brief_run, true)
  /\ supp (QLearningAgent.execute 2 Toy.tabular_brief) (fst Toy.q_learning_brief_run, true)
  /\ (rows_complete (fst Toy.sarsa_brief_run)
      /\ same_setup Toy.tabular_brief (fst Toy.sarsa_brief_run))
  /\ (rows_complete (fst Toy.q_learning_brief_run)
      /\ same_setup Toy.tabular_brief (fst Toy.q_learning_brief_run)).
Proof.
  assert (Hr : rows_complete Toy.tabular_brief) by (intros cell; reflexivity).
  assert (Hs : supp (SarsaAgent.execute 2 Toy.tabular_brief)
                    (fst Toy.sarsa_brief_run, true)).
  { unfold Toy.sarsa_brief_run. apply nth_result_pair_supp; vm_compute; reflexivity. }
  assert (Hq : supp (QLearningAgent.execute 2 Toy.tabular_brief)
                    (fst Toy.q_learning_brief_run, true)).
  { unfold Toy.q_learning_brief_run. apply nth_result_pair_supp; vm_compute; reflexivity. }
  split; [exact Hr |]. split; [exact Hs |]. split; [exact Hq |].
  destruct (X7_training_keeps_table_shape 2 Toy.tabular_brief Hr) as [H1 H2].
  split; [exact (H1 _ _ Hs) | exact (H2 _ _ Hq)].
Defined.

(** ** The selector on ties and a greedy SARSA *)

Lemma filter_all {A} (p : A -> bool) (l : list A) :
  (forall x, In x l -> p x = true) -> filter p l = l.
Proof.
  induction l as [| x l IH]; intros H; simpl; [reflexivity |].
  rewrite (H x) by (left; reflexivity). f_equal. apply IH.
  intros y Hy. apply H. right. exact Hy.
Qed.

Lemma q_max_actions_all_equal (q_values : list Q) (m : Q) :
  (forall x, In x q_values -> x == m) ->
  Tabular.q_max_actions q_values m = seq 0 (length q_values).
Proof.
  intros H. unfold Tabular.q_max_actions, Np.enumerate.
  rewrite filter_all; [apply map_fst_combine_seq |].
  intros [i x] Hin. simpl. apply Qeq_bool_iff. apply H.
  exact (in_combine_r _ _ _ _ Hin).
Qed.

(** X8: on a row whose entries are all equal, as every row of a new table
    is, the tabular selector returns every action with the same
    probability, whatever [epsilon] is. *)
Theorem X8_selector_uniform_on_ties (q_values : list Q) (eps : Q) (a : nat) :
  0 <= eps -> eps <= 1 -> q_values <> [] ->
  (forall x y, In x q_values -> In y q_values -> x == y) ->
  pr (Tabular.epsilon_greedy_selection q_values eps) (Nat.eqb a)
  == uniform_on (length q_values) a.
Proof.
  intros H0 H1 Hne Heq.
  destruct (np_max_some q_values Hne) as [m Hm].
  rewrite (pr_epsilon_greedy_selection q_values eps m a H0 H1 Hm).
  destruct (np_max_spec _ _ Hm) as [Hin _].
  rewrite (q_max_actions_all_equal q_values m) by (intros x Hx; apply Heq; assumption).
  unfold uniform_over, uniform_on. rewrite existsb_seq, length_seq. simpl.
  destruct (Nat.ltb a (length q_values)); ring.
Qed.

Lemma X8_selector_uniform_on_ties_witness :
  0 <= 3 # 10 /\ 3 # 10 <= 1
  /\ pr (Tabular.epsilon_greedy_selection [0; 0] (3 # 10)) (Nat.eqb 1)
     == uniform_on (length [0; 0]) 1.
Proof.
  assert (H0 : 0 <= 3 # 10) by (unfold Qle; simpl; lia).
  assert (H1 : 3 # 10 <= 1) by (unfold Qle; simpl; lia).
  split; [exact H0 |]. split; [exact H1 |].
  apply (X8_selector_uniform_on_ties [0; 0] (3 # 10) 1%nat H0 H1); [discriminate |].
  intros x y [<- | [<- | []]] [<- | [<- | []]]; reflexivity.
Defined.

(** X9: a greedy SARSA is Q-learning.  When the next action comes from
    the selector with [epsilon = 0], the SARSA target and the Q-learning
    target of a transition, both built from the row [Q[new_state]], are
    both defined and equal. *)
Theorem X9_greedy_sarsa_target (gamma reward : Q) (done : bool) (next_row : list Q)
  (new_action : nat) :
  supp (Tabular.epsilon_greedy_selection next_row 0) new_action ->
  exists sarsa q_learning,
    SarsaAgent.target gamma reward done next_row new_action = Some sarsa
    /\ QLearningAgent.target gamma reward done (Some next_row) = Some q_learning
    /\ sarsa == q_learning.
Proof.
  intros H. apply epsilon_greedy_selection_greedy in H.
  pose proof H as [Hlt _].
  assert (Hne : next_row <> []) by (destruct next_row; [simpl in Hlt; lia | discriminate]).
  destruct (np_max_some next_row Hne) as [m Hm].
  apply (is_argmax_value next_row m new_action Hm Hlt) in H.
  unfold SarsaAgent.target, QLearningAgent.target. rewrite Hm.
  rewrite (nth_error_nth' next_row 0 Hlt).
  destruct done; eexists; eexists; split; try reflexivity; split; try reflexivity.
  rewrite H. reflexivity.
Qed.

Lemma X9_greedy_sarsa_target_witness :
  supp (Tabular.epsilon_greedy_selection [0; 1] 0) 1%nat
  /\ exists sarsa q_learning,
      SarsaAgent.target (99 # 100) 1 false [0; 1] 1 = Some sarsa
      /\ QLearningAgent.target (99 # 100) 1 false (Some [0; 1]) = Some q_learning
      /\ sarsa == q_learning.
Proof.
  assert (H : supp (Tabular.epsilon_greedy_selection [0; 1] 0) 1%nat)
    by (apply supp_listed; vm_compute; reflexivity).
  split; [exact H |].
  exact (X9_greedy_sarsa_target (99 # 100) 1 false [0; 1] 1%nat H).
Defined.

(** ** DQN: when the agent does not train, and when it never synchronises *)

Section DQNExtra.

Context {env : Env} {net : Net} {opt : Optimizer (net_weights net)}.

Local Notation "'agent'" := (DQNAgent.Agent env net opt) (only parsing).

Lemma deque_append_len_le {A} (d : Deque.deque A) (x : A) :
  (Deque.len (Deque.append d x) <= S (Deque.len d))%nat.
Proof.
  unfold Deque.append, Deque.len.
  destruct (Nat.eqb (Deque.maxlen d) 0); [lia |].
  destruct (Nat.eqb _ _); simpl; rewrite length_app; simpl.
  - destruct (Deque.items d); simpl; lia.
  - lia.
Qed.

(** What a pass through the loop body leaves alone when the memory, with
    the new transition in it, is still shorter than a minibatch. *)
Lemma dqn_step_idle (self : agent) (state : list Q) (self' : agent)
  (next : option (list Q)) :
  (forall t, (Deque.len (Deque.append (DQNAgent.memory self) t)
              < DQNAgent.batch_size self)%nat) ->
  supp (DQNAgent.step self state) (self', next) ->
  DQNAgent.batch_size self' = DQNAgent.batch_size self
  /\ DQNAgent.model self' = DQNAgent.model self
  /\ DQNAgent.optimizer self' = DQNAgent.optimizer self
  /\ DQNAgent.nets self' (DQNAgent.model self) = DQNAgent.nets self (DQNAgent.model self).
Proof.
  intros Hlen H. apply dqn_step_spec in H.
  destruct H as [action [w [new_state [reward [done [self_t [_ [_ [Ht [Hs _]]]]]]]]]].
  apply train_spec in Ht. destruct Ht as [[_ ->] | [Hge _]].
  - apply dqn_stats_add_spec in Hs. destruct Hs as [r ->].
    unfold DQNAgent.sync_target.
    cbn [DQNAgent.set_counter DQNAgent.target_update_counter
         DQNAgent.target_update_frequency DQNAgent.set_memory DQNAgent.set_world].
    destruct (Nat.eqb _ _); simpl; repeat split.
    unfold DQNAgent.heap_set. destruct (Nat.eqb _ _); reflexivity.
  - simpl in Hge. specialize (Hlen (state, action, reward, new_state, done)). lia.
Qed.

Lemma dqn_quiet_frame (self self1 : agent) :
  (exists w, self1 = DQNAgent.set_world self w)
  \/ (exists w, self1 = DQNAgent.set_world
                          (DQNAgent.set_stats self (DQNAgent.stats_rewards self ++ [0])) w) ->
  DQNAgent.batch_size self1 = DQNAgent.batch_size self
  /\ DQNAgent.model self1 = DQNAgent.model self
  /\ DQNAgent.target_model self1 = DQNAgent.target_model self
  /\ DQNAgent.optimizer self1 = DQNAgent.optimizer self
  /\ DQNAgent.nets self1 = DQNAgent.nets self
  /\ DQNAgent.memory self1 = DQNAgent.memory self
  /\ DQNAgent.target_update_counter self1 = DQNAgent.target_update_counter self
  /\ DQNAgent.target_update_frequency self1 = DQNAgent.target_update_frequency self.
Proof. intros [[w ->] | [w ->]]; repeat split. Qed.

Lemma steps_idle (n : nat) (self self' : agent) :
  DQNAgent.steps n self self' ->
  (Deque.len (DQNAgent.memory self) + n < DQNAgent.batch_size self)%nat ->
  DQNAgent.batch_size self' = DQNAgent.batch_size self
  /\ DQNAgent.model self' = DQNAgent.model self
  /\ DQNAgent.optimizer self' = DQNAgent.optimizer self
  /\ DQNAgent.nets self' (DQNAgent.model self) = DQNAgent.nets self (DQNAgent.model self).
Proof.
  induction 1 as [self | n self state self1 next self2 Hs _ IH
                 | n self self1 state self2 Hb _ IH
                 | n fuel self self1 total self2 Ha _ IH]; intros Hlt.
  - repeat split.
  - destruct (dqn_step_memory _ _ _ _ Hs) as [a [r [s' [d Hm]]]].
    pose proof (deque_append_len_le (DQNAgent.memory self) (state, a, r, s', d)) as Hle.
    destruct (dqn_step_idle self state self1 next) as [Hb [Hmo [Ho Hn]]];
      [intros t; pose proof (deque_append_len_le (DQNAgent.memory self) t); lia
      | exact Hs |].
    destruct IH as [Hb2 [Hmo2 [Ho2 Hn2]]]; [rewrite Hm, Hb; lia |].
    rewrite Hmo in Hn2. repeat split; congruence.
  - apply dqn_begin_episode_frame in Hb.
    destruct (dqn_quiet_frame self self1) as [H1 [H2 [_ [H4 [H5 [H6 _]]]]]];
      [right; eexists; exact Hb |].
    destruct IH as [Hb2 [Hmo2 [Ho2 Hn2]]]; [rewrite H6, H1; exact Hlt |].
    rewrite H2, H5 in Hn2. repeat split; congruence.
  - apply dqn_act_frame in Ha.
    destruct (dqn_quiet_frame self self1) as [H1 [H2 [_ [H4 [H5 [H6 _]]]]]];
      [left; eexists; exact Ha |].
    destruct IH as [Hb2 [Hmo2 [Ho2 Hn2]]]; [rewrite H6, H1; exact Hlt |].
    rewrite H2, H5 in Hn2. repeat split; congruence.
Qed.

(** X10: the DQN agent does not learn before its memory holds a
    minibatch.  As long as the transitions in the memory and the passes
    through the loop body together stay below [batch_size], the weights
    of the online network and the state of the optimizer are what they
    were, whatever episode starts, target synchronisations and rollouts
    happen in between. *)
Theorem X10_dqn_no_training_before_batch (n : nat) (self self' : agent) :
  DQNAgent.steps n self self' ->
  (Deque.len (DQNAgent.memory self) + n < DQNAgent.batch_size self)%nat ->
  DQNAgent.model self' = DQNAgent.model self
  /\ DQNAgent.nets self' (DQNAgent.model self') = DQNAgent.nets self (DQNAgent.model self)
  /\ DQNAgent.optimizer self' = DQNAgent.optimizer self.
Proof.
  intros Hs Hlt. destruct (steps_idle n self self' Hs Hlt) as [_ [Hm [Ho Hn]]].
  split; [exact Hm |]. split; [rewrite Hm; exact Hn | exact Ho].
Qed.

Lemma steps_starved (n : nat) (self self' : agent) :
  DQNAgent.steps n self self' ->
  (Deque.len (DQNAgent.memory self) <= Deque.maxlen (DQNAgent.memory self))%nat ->
  (Deque.maxlen (DQNAgent.memory self) < DQNAgent.batch_size self)%nat ->
  DQNAgent.batch_size self' = DQNAgent.batch_size self
  /\ DQNAgent.model self' = DQNAgent.model self
  /\ DQNAgent.optimizer self' = DQNAgent.optimizer self
  /\ DQNAgent.nets self' (DQNAgent.model self) = DQNAgent.nets self (DQNAgent.model self).
Proof.
  induction 1 as [self | n self state self1 next self2 Hs _ IH
                 | n self self1 state self2 Hb _ IH
                 | n fuel self self1 total self2 Ha _ IH]; intros Hle Hlt.
  - repeat split.
  - destruct (dqn_step_memory _ _ _ _ Hs) as [a [r [s' [d Hm]]]].
    assert (Happ : forall t, (Deque.len (Deque.append (DQNAgent.memory self) t)
                              <= Deque.maxlen (DQNAgent.memory self))%nat).
    { intros t. pose proof (deque_append_len (DQNAgent.memory self) t Hle) as H.
      rewrite deque_append_maxlen in H. exact H. }
    destruct (dqn_step_idle self state self1 next) as [Hb [Hmo [Ho Hn]]];
      [intros t; specialize (Happ t); lia | exact Hs |].
    destruct IH as [Hb2 [Hmo2 [Ho2 Hn2]]].
    + rewrite Hm, deque_append_maxlen. apply Happ.
    + rewrite Hm, deque_append_maxlen, Hb. exact Hlt.
    + rewrite Hmo in Hn2. repeat split; congruence.
  - apply dqn_begin_episode_frame in Hb.
    destruct (dqn_quiet_frame self self1) as [H1 [H2 [_ [H4 [H5 [H6 _]]]]]];
      [right; eexists; exact Hb |].
    destruct IH as [Hb2 [Hmo2 [Ho2 Hn2]]]; [rewrite H6; exact Hle | rewrite H6, H1; exact Hlt |].
    rewrite H2, H5 in Hn2. repeat split; congruence.
  - apply dqn_act_frame in Ha.
    destruct (dqn_quiet_frame self self1) as [H1 [H2 [_ [H4 [H5 [H6 _]]]]]];
      [left; eexists; exact Ha |].
    destruct IH as [Hb2 [Hmo2 [Ho2 Hn2]]]; [rewrite H6; exact Hle | rewrite H6, H1; exact Hlt |].
    rewrite H2, H5 in Hn2. repeat split; congruence.
Qed.

(** X11: a replay memory that cannot hold a minibatch makes the DQN agent
    never learn.  With the capacity of the memory below [batch_size], a
    whole run of [execute], however long, leaves the weights of the online
    network and the state of the optimizer as they were: the memory never
    reaches the size of a minibatch, and the agent just does not train. *)
Theorem X11_dqn_small_memory_never_trains (fuel : nat) (self self' : agent)
  (finished : bool) :
  (Deque.len (DQNAgent.memory self) <= Deque.maxlen (DQNAgent.memory self))%nat ->
  (Deque.maxlen (DQNAgent.memory self) < DQNAgent.batch_size self)%nat ->
  supp (DQNAgent.execute fuel self) (self', finished) ->
  DQNAgent.model self' = DQNAgent.model self
  /\ DQNAgent.nets self' (DQNAgent.model self') = DQNAgent.nets self (DQNAgent.model self)
  /\ DQNAgent.optimizer self' = DQNAgent.optimizer self.
Proof.
  intros Hle Hlt H. apply dqn_execute_steps in H. destruct H as [n Hs].
  destruct (steps_starved n self self' Hs Hle Hlt) as [_ [Hm [Ho Hn]]].
  split; [exact Hm |]. split; [rewrite Hm; exact Hn | exact Ho].
Qed.

Lemma steps_never_sync (n : nat) (self self' : agent) :
  DQNAgent.steps n self self' ->
  DQNAgent.model self <> DQNAgent.target_model self ->
  (DQNAgent.target_update_frequency self <= DQNAgent.target_update_counter self)%nat ->
  DQNAgent.target_model self' = DQNAgent.target_model self
  /\ DQNAgent.target_update_counter self' = (DQNAgent.target_update_counter self + n)%nat
  /\ DQNAgent.nets self' (DQNAgent.target_model self)
     = DQNAgent.nets self (DQNAgent.target_model self).
Proof.
  induction 1 as [self | n self state self1 next self2 Hs _ IH
                 | n self self1 state self2 Hb _ IH
                 | n fuel self self1 total self2 Ha _ IH]; intros Hne Hle.
  - repeat split. lia.
  - destruct (dqn_step_target _ _ _ _ Hne Hs) as [Hm [Ht [Hf [_ Hkeep]]]].
    destruct Hkeep as [Hc Hn]; [lia |].
    destruct IH as [Ht2 [Hc2 Hn2]]; [congruence | rewrite Hf, Hc; lia |].
    rewrite Ht in Hn2. split; [congruence |]. split; [lia | congruence].
  - apply dqn_begin_episode_frame in Hb.
    destruct (dqn_quiet_frame self self1) as [_ [H2 [H3 [_ [H5 [_ [H7 H8]]]]]]];
      [right; eexists; exact Hb |].
    destruct IH as [Ht2 [Hc2 Hn2]]; [congruence | lia |].
    rewrite H3, H5 in Hn2. split; [congruence |]. split; [lia | exact Hn2].
  - apply dqn_act_frame in Ha.
    destruct (dqn_quiet_frame self self1) as [_ [H2 [H3 [_ [H5 [_ [H7 H8]]]]]]];
      [left; eexists; exact Ha |].
    destruct IH as [Ht2 [Hc2 Hn2]]; [congruence | lia |].
    rewrite H3, H5 in Hn2. split; [congruence |]. split; [lia | exact Hn2].
Qed.

(** X12: a counter that is already at or past
    [target_update_frequency] never meets it again.  The test is an
    equality made after the increment, so with the frequency at most the
    counter (a frequency of 0 on a new agent, say) the counter only grows,
    by one per pass, and the target network keeps its weights for the rest
    of the run, however much the online network is trained. *)
Theorem X12_dqn_frequency_passed_never_syncs (n : nat) (self self' : agent) :
  DQNAgent.steps n self self' ->
  DQNAgent.model self <> DQNAgent.target_model self ->
  (DQNAgent.target_update_frequency self <= DQNAgent.target_update_counter self)%nat ->
  DQNAgent.target_update_counter self' = (DQNAgent.target_update_counter self + n)%nat
  /\ DQNAgent.nets self' (DQNAgent.target_model self')
     = DQNAgent.nets self (DQNAgent.target_model self).
Proof.
  intros Hs Hne Hle. destruct (steps_never_sync n self self' Hs Hne Hle) as [Ht [Hc Hn]].
  split; [exact Hc |]. rewrite Ht. exact Hn.
Qed.

End DQNExtra.

Lemma X10_dqn_no_training_before_batch_witness :
  DQNAgent.steps 1 Toy.dqn_starved Toy.dqn_starved_1
  /\ (Deque.len (DQNAgent.memory Toy.dqn_starved) + 1
      < DQNAgent.batch_size Toy.dqn_starved)%nat
  /\ DQNAgent.nets Toy.dqn_starved_1 (DQNAgent.model Toy.dqn_starved_1)
     = DQNAgent.nets Toy.dqn_starved (DQNAgent.model Toy.dqn_starved).
Proof.
  assert (S0 : supp (DQNAgent.begin_episode Toy.dqn_starved) (Toy.dqn_starved_begun, [0])).
  { unfold Toy.dqn_starved_begun. apply nth_result_pair_supp; vm_compute; reflexivity. }
  assert (S1 : supp (DQNAgent.step Toy.dqn_starved_begun [0]) (Toy.dqn_starved_1, None)).
  { unfold Toy.dqn_starved_1. apply nth_result_pair_supp; vm_compute; reflexivity. }
  assert (Hs : DQNAgent.steps 1 Toy.dqn_starved Toy.dqn_starved_1).
  { exact (DQNAgent.steps_begin 1 _ _ [0] _ S0
             (DQNAgent.steps_step 0 _ [0] _ None _ S1 (DQNAgent.steps_done _))). }
  assert (Hlt : (Deque.len (DQNAgent.memory Toy.dqn_starved) + 1
                 < DQNAgent.batch_size Toy.dqn_starved)%nat) by (vm_compute; lia).
  split; [exact Hs |]. split; [exact Hlt |].
  exact (proj1 (proj2 (X10_dqn_no_training_before_batch 1 Toy.dqn_starved
                         Toy.dqn_starved_1 Hs Hlt))).
Defined.

Lemma X11_dqn_small_memory_never_trains_witness :
  (Deque.len (DQNAgent.memory Toy.dqn_starved)
   <= Deque.maxlen (DQNAgent.memory Toy.dqn_starved))%nat
  /\ (Deque.maxlen (DQNAgent.memory Toy.dqn_starved)
      < DQNAgent.batch_size Toy.dqn_starved)%nat
  /\ supp (DQNAgent.execute 2 Toy.dqn_starved) (fst Toy.dqn_starved_run, true)
  /\ DQNAgent.optimizer (fst Toy.dqn_starved_run) = DQNAgent.optimizer Toy.dqn_starved.
Proof.
  assert (Hle : (Deque.len (DQNAgent.memory Toy.dqn_starved)
                 <= Deque.maxlen (DQNAgent.memory Toy.dqn_starved))%nat)
    by (vm_compute; lia).
  assert (Hlt : (Deque.maxlen (DQNAgent.memory Toy.dqn_starved)
                 < DQNAgent.batch_size Toy.dqn_starved)%nat) by (vm_compute; lia).
  assert (Hs : supp (DQNAgent.execute 2 Toy.dqn_starved) (fst Toy.dqn_starved_run, true)).
  { unfold Toy.dqn_starved_run. apply nth_result_pair_supp; vm_compute; reflexivity. }
  split; [exact Hle |]. split; [exact Hlt |]. split; [exact Hs |].
  exact (proj2 (proj2 (X11_dqn_small_memory_never_trains 2 Toy.dqn_starved _ true
                         Hle Hlt Hs))).
Defined.

Lemma X12_dqn_frequency_passed_never_syncs_witness :
  DQNAgent.steps 1 Toy.dqn_unsynced Toy.dqn_unsynced_1
  /\ (DQNAgent.target_update_frequency Toy.dqn_unsynced
      <= DQNAgent.target_update_counter Toy.dqn_unsynced)%nat
  /\ DQNAgent.target_update_counter Toy.dqn_unsynced_1
     = (DQNAgent.target_update_counter Toy.dqn_unsynced + 1)%nat
  /\ DQNAgent.nets Toy.dqn_unsynced_1 (DQNAgent.target_model Toy.dqn_unsynced_1)
     = DQNAgent.nets Toy.dqn_unsynced (DQNAgent.target_model Toy.dqn_unsynced).
Proof.
  assert (Hne : DQNAgent.model Toy.dqn_unsynced <> DQNAgent.target_model Toy.dqn_unsynced)
    by discriminate.
  assert (S1 : supp (DQNAgent.step Toy.dqn_unsynced [0]) (Toy.dqn_unsynced_1, None)).
  { unfold Toy.dqn_unsynced_1. apply nth_result_pair_supp; vm_compute; reflexivity. }
  assert (Hs : DQNAgent.steps 1 Toy.dqn_unsynced Toy.dqn_unsynced_1).
  { exact (DQNAgent.steps_step 0 _ [0] _ None _ S1 (DQNAgent.steps_done _)). }
  assert (Hle : (DQNAgent.target_update_frequency Toy.dqn_unsynced
                 <= DQNAgent.target_update_counter Toy.dqn_unsynced)%nat)
    by (vm_compute; lia).
  split; [exact Hs |]. split; [exact Hle |].
  exact (X12_dqn_frequency_passed_never_syncs 1 Toy.dqn_unsynced Toy.dqn_unsynced_1
           Hs Hne Hle).
Defined.

(** ** The statistics of the tabular agents *)

Lemma add_to_last_app (old : list Q) (x r : Q) :
  Tabular.add_to_last (old ++ [x]) r = Some (old ++ [x + r]).
Proof.
  induction old as [| y old IH]; [reflexivity |].
  simpl app. simpl Tabular.add_to_last. rewrite IH.
  destruct (old ++ [x]) eqn:E; [destruct old; discriminate | reflexivity].
Qed.

Lemma tabular_stats_add_last {env} (self self' : Tabular.Agent env) (reward : Q) :
  Tabular.stats_add self reward = Some self' ->
  Tabular.add_to_last (Tabular.stats_rewards self) reward
  = Some (Tabular.stats_rewards self').
Proof.
  unfold Tabular.stats_add. destruct (Tabular.add_to_last _ _) as [r |]; [| discriminate].
  intros H. injection H as <-. reflexivity.
Qed.

Lemma sarsa_step_stats {env} (self : Tabular.Agent env) (state : list Z) (action : nat)
  (self' : Tabular.Agent env) (next : option (list Z * nat)) :
  supp (SarsaAgent.step self state action) (self', next) ->
  exists reward,
    Tabular.add_to_last (Tabular.stats_rewards self) reward
    = Some (Tabular.stats_rewards self').
Proof.
  unfold SarsaAgent.step. intros H.
  apply supp_bind in H. destruct H as [[[[w new_obs] reward] done] [Hx H]].
  apply supp_bind in H. destruct H as [next_row [Hx0 H]].
  apply supp_bind in H. destruct H as [new_action [Hx1 H]].
  apply supp_bind in H. destruct H as [target [Hx2 H]].
  apply supp_bind in H. destruct H as [q_old [Hx3 H]].
  apply supp_bind in H. destruct H as [self2 [Hx4 H]].
  apply supp_bind in H. destruct H as [self3 [Hx5 H]].
  apply supp_lift_opt in Hx4, Hx5.
  destruct (q_set_spec _ _ _ _ _ Hx4) as [cell [_ [_ [_ [_ [Hst _]]]]]].
  apply tabular_stats_add_last in Hx5. rewrite Hst in Hx5. simpl in Hx5.
  exists reward.
  destruct done; apply supp_ret in H; injection H as -> _; exact Hx5.
Qed.

Lemma q_learning_step_stats {env} (self : Tabular.Agent env) (state : list Z)
  (self' : Tabular.Agent env) (next : option (list Z)) :
  supp (QLearningAgent.step self state) (self', next) ->
  exists reward,
    Tabular.add_to_last (Tabular.stats_rewards self) reward
    = Some (Tabular.stats_rewards self').
Proof.
  unfold QLearningAgent.step. intros H.
  apply supp_bind in H. destruct H as [row [Hrow H]].
  apply supp_bind in H. destruct H as [action [Hact H]].
  apply supp_bind in H. destruct H as [[[[w new_obs] reward] done] [Henv H]].
  apply supp_bind in H. destruct H as [target [Htar H]].
  apply supp_bind in H. destruct H as [q_old [Hold H]].
  apply supp_bind in H. destruct H as [self2 [Hset H]].
  apply supp_bind in H. destruct H as [self3 [Hstat H]].
  apply supp_lift_opt in Hset, Hstat.
  destruct (q_set_spec _ _ _ _ _ Hset) as [cell [_ [_ [_ [_ [Hst _]]]]]].
  apply tabular_stats_add_last in Hstat. rewrite Hst in Hstat. simpl in Hstat.
  exists reward.
  destruct done; apply supp_ret in H; injection H as -> _; exact Hstat.
Qed.

Lemma last_entry_moves (old : list Q) (x : Q) (l l' : list Q) (reward : Q) :
  l = old ++ [x] -> Tabular.add_to_last l reward = Some l' ->
  l' = old ++ [x + reward].
Proof. intros -> H. rewrite add_to_last_app in H. congruence. Qed.

Lemma sarsa_loop_stats {env} (fuel : nat) (self : Tabular.Agent env) (state : list Z)
  (action : nat) (self' : Tabular.Agent env) (finished : bool) (old : list Q) (x : Q) :
  Tabular.stats_rewards self = old ++ [x] ->
  supp (SarsaAgent.loop fuel self state action) (self', finished) ->
  exists x', Tabular.stats_rewards self' = old ++ [x'].
Proof.
  revert self state action x. induction fuel as [| fuel IH];
    intros self state action x Hst H; simpl in H.
  - apply supp_ret in H. injection H as -> _. exists x. exact Hst.
  - apply supp_bind in H. destruct H as [[self1 next] [Hs H]].
    destruct (sarsa_step_stats _ _ _ _ _ Hs) as [reward Hr].
    pose proof (last_entry_moves _ _ _ _ _ Hst Hr) as H1.
    destruct next as [[state' action'] |].
    + exact (IH _ _ _ _ H1 H).
    + apply supp_ret in H. injection H as -> _. eexists. exact H1.
Qed.

Lemma q_learning_loop_stats {env} (fuel : nat) (self : Tabular.Agent env)
  (state : list Z) (self' : Tabular.Agent env) (finished : bool) (old : list Q) (x : Q) :
  Tabular.stats_rewards self = old ++ [x] ->
  supp (QLearningAgent.loop fuel self state) (self', finished) ->
  exists x', Tabular.stats_rewards self' = old ++ [x'].
Proof.
  revert self state x. induction fuel as [| fuel IH];
    intros self state x Hst H; simpl in H.
  - apply supp_ret in H. injection H as -> _. exists x. exact Hst.
  - apply supp_bind in H. destruct H as [[self1 next] [Hs H]].
    destruct (q_learning_step_stats _ _ _ _ Hs) as [reward Hr].
    pose proof (last_entry_moves _ _ _ _ _ Hst Hr) as H1.
    destruct next as [state' |].
    + exact (IH _ _ _ H1 H).
    + apply supp_ret in H. injection H as -> _. eexists. exact H1.
Qed.

Lemma sarsa_run_episode_stats {env} (fuel : nat) (self : Tabular.Agent env)
  (episode : nat) (self' : Tabular.Agent env) (finished : bool) :
  supp (SarsaAgent.run_episode fuel self episode) (self', finished) ->
  exists x, Tabular.stats_rewards self' = Tabular.stats_rewards self ++ [x].
Proof.
  unfold SarsaAgent.run_episode. intros H.
  apply supp_bind in H. destruct H as [[w obs] [_ H]].
  apply supp_bind in H. destruct H as [row [_ H]].
  apply supp_bind in H. destruct H as [action [_ H]].
  apply supp_bind in H. destruct H as [[self1 fin] [Hl H]].
  apply (sarsa_loop_stats _ _ _ _ _ _ (Tabular.stats_rewards self) 0) in Hl;
    [| reflexivity].
  destruct fin; simpl in H.
  - destruct (_ && _)%bool.
    + apply tabular_act_frame in H. rewrite H. exact Hl.
    + apply supp_ret in H. injection H as -> _. exact Hl.
  - apply supp_ret in H. injection H as -> _. exact Hl.
Qed.

Lemma q_learning_run_episode_stats {env} (fuel : nat) (self : Tabular.Agent env)
  (episode : nat) (self' : Tabular.Agent env) (finished : bool) :
  supp (QLearningAgent.run_episode fuel self episode) (self', finished) ->
  exists x, Tabular.stats_rewards self' = Tabular.stats_rewards self ++ [x].
Proof.
  unfold QLearningAgent.run_episode. intros H.
  apply supp_bind in H. destruct H as [[w obs] [_ H]].
  apply supp_bind in H. destruct H as [[self1 fin] [Hl H]].
  apply (q_learning_loop_stats _ _ _ _ _ (Tabular.stats_rewards self) 0) in Hl;
    [| reflexivity].
  destruct fin; simpl in H.
  - destruct (_ && _)%bool.
    + apply tabular_act_frame in H. rewrite H. exact Hl.
    + apply supp_ret in H. injection H as -> _. exact Hl.
  - apply supp_ret in H. injection H as -> _. exact Hl.
Qed.

(** X13: the statistics of the tabular agents are a log of episodes.  A
    run of [execute], of the SARSA agent or of the Q-learning agent,
    leaves every entry that [stats['rewards']] had before as it was and
    appends one entry for each episode it starts: exactly [num_episodes]
    entries when the run comes to its end. *)
Theorem X13_tabular_statistics {env} (fuel : nat) (self : Tabular.Agent env) :
  (forall self' finished,
      supp (SarsaAgent.execute fuel self) (self', finished) ->
      exists new,
        Tabular.stats_rewards self' = Tabular.stats_rewards self ++ new
        /\ (length new <= Tabular.num_episodes self)%nat
        /\ (finished = true -> length new = Tabular.num_episodes self))
  /\ (forall self' finished,
        supp (QLearningAgent.execute fuel self) (self', finished) ->
        exists new,
          Tabular.stats_rewards self' = Tabular.stats_rewards self ++ new
          /\ (length new <= Tabular.num_episodes self)%nat
          /\ (finished = true -> length new = Tabular.num_episodes self)).
Proof.
  split; intros self' finished H.
  - unfold SarsaAgent.execute in H.
    rewrite <- (length_seq (Tabular.num_episodes self) 0).
    revert H. generalize (seq 0 (Tabular.num_episodes self)).
    intros episodes. revert self.
    induction episodes as [| episode rest IH]; intros self H; simpl in H.
    + apply supp_ret in H. injection H as -> ->. exists [].
      rewrite app_nil_r. repeat split. simpl. lia.
    + apply supp_bind in H. destruct H as [[self1 fin] [He H]].
      destruct (sarsa_run_episode_stats _ _ _ _ _ He) as [x Hx].
      destruct fin.
      * destruct (IH _ H) as [new [Hn [Hle Hfin]]]. exists (x :: new).
        rewrite Hn, Hx, <- app_assoc. simpl. split; [reflexivity |].
        split; [lia |]. intros E. rewrite (Hfin E). reflexivity.
      * apply supp_ret in H. injection H as -> ->. exists [x].
        split; [exact Hx |]. split; [simpl; lia | discriminate].
  - unfold QLearningAgent.execute in H.
    rewrite <- (length_seq (Tabular.num_episodes self) 0).
    revert H. generalize (seq 0 (Tabular.num_episodes self)).
    intros episodes. revert self.
    induction episodes as [| episode rest IH]; intros self H; simpl in H.
    + apply supp_ret in H. injection H as -> ->. exists [].
      rewrite app_nil_r. repeat split. simpl. lia.
    + apply supp_bind in H. destruct H as [[self1 fin] [He H]].
      destruct (q_learning_run_episode_stats _ _ _ _ _ He) as [x Hx].
      destruct fin.
      * destruct (IH _ H) as [new [Hn [Hle Hfin]]]. exists (x :: new).
        rewrite Hn, Hx, <- app_assoc. simpl. split; [reflexivity |].
        split; [lia |]. intros E. rewrite (Hfin E). reflexivity.
      * apply supp_ret in H. injection H as -> ->. exists [x].
        split; [exact Hx |]. split; [simpl; lia | discriminate].
Qed.

(** ** Selected actions *)

Lemma supp_choice (n : nat) (p : list Q) (a : nat) :
  supp (choice n p) a -> (a < n)%nat.
Proof.
  unfold choice. destruct (_ && _)%bool.
  - intros [w H]. apply in_combine_r in H. apply in_seq in H. lia.
  - intros H. destruct (supp_raise _ H).
Qed.

(** X14: no selector returns an action outside the action space.  The
    tabular selector returns an index of the row it is given; the DQN
    selector, when the online network has one output per action, an index
    below [action_size]; the selectors of the REINFORCE and the
    actor-critic agent an index below [action_size]. *)
Theorem X14_selected_actions_in_range :
  (forall q_values eps a,
      supp (Tabular.epsilon_greedy_selection q_values eps) a ->
      (a < length q_values)%nat)
  /\ (forall env net opt (self : DQNAgent.Agent env net opt) state eps a,
        length (net_predict net (DQNAgent.nets self (DQNAgent.model self)) state)
        = DQNAgent.action_size self ->
        supp (DQNAgent.select_action self state eps) a ->
        (a < DQNAgent.action_size self)%nat)
  /\ (forall env net opt (self : PGAgent.Agent env net opt) state a,
        supp (PGAgent.select_action self state) a ->
        (a < PGAgent.action_size self)%nat)
  /\ (forall env actor critic aopt copt
             (self : ACAgent.Agent env actor critic aopt copt) state a,
        supp (ACAgent.select_action self state) a ->
        (a < ACAgent.action_size self)%nat).
Proof.
  split; [exact epsilon_greedy_selection_in_range |]. split; [| split].
  - intros env net opt self state eps a Hlen H. unfold DQNAgent.select_action in H.
    apply supp_bind in H. destruct H as [[|] [_ H]].
    + apply supp_randint in H. exact H.
    + apply supp_lift_opt in H. apply argmax_spec in H.
      destruct H as [[H _] _]. rewrite Hlen in H. exact H.
  - intros env net opt self state a H. exact (supp_choice _ _ _ H).
  - intros env actor critic aopt copt self state a H. exact (supp_choice _ _ _ H).
Qed.

Lemma pr_combine_seq (p : list Q) (s a : nat) :
  pr (combine p (seq s (length p))) (Nat.eqb a)
  == if Nat.ltb a s then 0 else nth (a - s) p 0.
Proof.
  revert s. induction p as [| x p IH]; intros s.
  - simpl. destruct (Nat.ltb a s); [reflexivity |]. destruct (a - s)%nat; reflexivity.
  - simpl length. simpl seq. simpl combine. unfold pr in *.
    change (expect ((x, s) :: combine p (seq (S s) (length p)))
                   (fun a0 => if Nat.eqb a a0 then 1 else 0))
      with (x * (if Nat.eqb a s then 1 else 0)
            + expect (combine p (seq (S s) (length p)))
                     (fun a0 => if Nat.eqb a a0 then 1 else 0)).
    rewrite IH.
    destruct (Nat.eqb a s) eqn:E.
    + apply Nat.eqb_eq in E. subst a.
      replace (Nat.ltb s (S s)) with true by (symmetry; apply Nat.ltb_lt; lia).
      replace (Nat.ltb s s) with false by (symmetry; apply Nat.ltb_ge; lia).
      rewrite Nat.sub_diag. simpl. ring.
    + apply Nat.eqb_neq in E. destruct (Nat.ltb a s) eqn:El.
      * apply Nat.ltb_lt in El.
        replace (Nat.ltb a (S s)) with true by (symmetry; apply Nat.ltb_lt; lia). ring.
      * apply Nat.ltb_ge in El.
        replace (Nat.ltb a (S s)) with false by (symmetry; apply Nat.ltb_ge; lia).
        replace (a - s)%nat with (S (a - S s)) by lia. simpl. ring.
Qed.

Lemma pr_choice (p : list Q) (a : nat) :
  (forall x, In x p -> 0 <= x) -> Np.sum_list p == 1 ->
  pr (choice (length p) p) (Nat.eqb a) == nth a p 0.
Proof.
  intros Hpos Hsum. unfold choice. rewrite Nat.eqb_refl.
  replace (forallb (Qle_bool 0) p) with true
    by (symmetry; apply forallb_forall; intros x Hx; apply Qle_bool_iff, Hpos, Hx).
  replace (Qeq_bool (fold_right Qplus 0 p) 1) with true
    by (symmetry; apply Qeq_bool_iff; exact Hsum).
  simpl andb. cbv iota. rewrite pr_combine_seq. simpl. rewrite Nat.sub_0_r. reflexivity.
Qed.

(** X15: the policy-gradient agents sample from the policy.  When the
    policy network's output [p] for a state is a probability vector over
    the action space, [select_action] of the REINFORCE agent and of the
    actor-critic agent returns each action [a] with probability [p[a]]. *)
Theorem X15_policy_sampling (p : list Q) (a : nat) :
  (forall x, In x p -> 0 <= x) -> Np.sum_list p == 1 ->
  (forall env net opt (self : PGAgent.Agent env net opt) state,
      net_predict net (PGAgent.model self) state = p ->
      PGAgent.action_size self = length p ->
      pr (PGAgent.select_action self state) (Nat.eqb a) == nth a p 0)
  /\ (forall env actor critic aopt copt
             (self : ACAgent.Agent env actor critic aopt copt) state,
        net_predict actor (ACAgent.actor_model self) state = p ->
        ACAgent.action_size self = length p ->
        pr (ACAgent.select_action self state) (Nat.eqb a) == nth a p 0).
Proof.
  intros Hpos Hsum. split.
  - intros env net opt self state Hp Hn. unfold PGAgent.select_action.
    rewrite Hp, Hn. apply pr_choice; assumption.
  - intros env actor critic aopt copt self state Hp Hn. unfold ACAgent.select_action.
    rewrite Hp, Hn. apply pr_choice; assumption.
Qed.

Lemma X15_policy_sampling_witness :
  (forall x, In x [1 # 2; 1 # 2] -> 0 <= x)
  /\ Np.sum_list [1 # 2; 1 # 2] == 1
  /\ pr (PGAgent.select_action Toy.pg_agent [0]) (Nat.eqb 1) == 1 # 2.
Proof.
  assert (Hpos : forall x, In x [1 # 2; 1 # 2] -> 0 <= x).
  { intros x [<- | [<- | []]]; unfold Qle; simpl; lia. }
  assert (Hsum : Np.sum_list [1 # 2; 1 # 2] == 1) by reflexivity.
  split; [exact Hpos |]. split; [exact Hsum |].
  exact (proj1 (X15_policy_sampling [1 # 2; 1 # 2] 1%nat Hpos Hsum)
           Toy.corridor Toy.bias_net Toy.plain_opt Toy.pg_agent [0] eq_refl eq_refl).
Defined.

(** ** REINFORCE: one episode of training *)

Section PGExtra.

Context {env : Env} {net : Net} {opt : Optimizer (net_weights net)}.

Variable log : Q -> Q.

Local Notation "'agent'" := (PGAgent.Agent env net opt) (only parsing).

Lemma pg_set_memory_eta (self : agent) :
  PGAgent.set_memory (PGAgent.set_world self (PGAgent.world self))
    (PGAgent.memory_states self ++ []) (PGAgent.memory_actions self ++ [])
    (PGAgent.memory_rewards self ++ map PGAgent.PyFloat []) = self.
Proof. simpl. rewrite !app_nil_r. destruct self. reflexivity. Qed.

(** What the loop that generates an episode does to the agent: it appends
    one state, one one-hot action and one float reward per time step to the
    three lists of the memory, and moves the environment. *)
Lemma generate_spec (fuel : nat) (self : agent) (state : list Q) (self' : agent)
  (finished : bool) :
  supp (PGAgent.generate fuel self state) (self', finished) ->
  exists states actions rewards,
    self' = PGAgent.set_memory (PGAgent.set_world self (PGAgent.world self'))
              (PGAgent.memory_states self ++ states)
              (PGAgent.memory_actions self ++ actions)
              (PGAgent.memory_rewards self ++ map PGAgent.PyFloat rewards)
    /\ length states = length rewards
    /\ length actions = length rewards
    /\ (finished = true -> rewards <> [])
    /\ Forall (fun a => exists k, (k < PGAgent.action_size self)%nat
                                  /\ PGAgent.one_hot (PGAgent.action_size self) k = Some a)
              actions.
Proof.
  revert self state. induction fuel as [| fuel IH]; intros self state H; simpl in H.
  - apply supp_ret in H. injection H as -> ->. exists [], [], [].
    split; [symmetry; apply pg_set_memory_eta |].
    repeat split; try discriminate. constructor.
  - apply supp_bind in H. destruct H as [action [Ha H]].
    apply supp_bind in H. destruct H as [[[[w new_state] reward] done] [He H]].
    apply supp_bind in H. destruct H as [hot [Hh H]].
    apply supp_lift_opt in Hh. simpl in Hh.
    assert (Hk : exists k, (k < PGAgent.action_size self)%nat
                           /\ PGAgent.one_hot (PGAgent.action_size self) k = Some hot).
    { exists action. split; [exact (supp_choice _ _ _ Ha) | exact Hh]. }
    destruct done.
    + apply supp_ret in H. injection H as -> ->.
      exists [state], [hot], [reward]. simpl.
      repeat split; try discriminate. constructor; [exact Hk | constructor].
    + apply IH in H. destruct H as [states [actions [rewards [E [H1 [H2 [H3 H4]]]]]]].
      simpl in E, H4.
      exists (state :: states), (hot :: actions), (reward :: rewards).
      split; [| split; [simpl; lia | split; [simpl; lia | split; [discriminate |]]]].
      * rewrite E. simpl. rewrite <- !app_assoc. reflexivity.
      * constructor; [exact Hk | exact H4].
Qed.

Lemma py_sum_from (rewards : list Q) (acc : Q) :
  fold_left (fun a r => a + PGAgent.to_float r) (map PGAgent.PyFloat rewards) acc
  == acc + Np.sum_list rewards.
Proof.
  revert acc. induction rewards as [| r rewards IH]; intros acc; simpl.
  - ring.
  - rewrite IH. simpl. unfold Np.sum_list. ring.
Qed.

Lemma py_sum_floats (rewards : list Q) :
  PGAgent.py_sum (map PGAgent.PyFloat rewards) == Np.sum_list rewards.
Proof. unfold PGAgent.py_sum. rewrite py_sum_from. ring. Qed.

Lemma returns_of_floats (self : agent) (rewards : list Q) :
  PGAgent.calc_returns self (map PGAgent.PyFloat rewards)
  = Some (map PGAgent.PyFloat (discounted_returns (PGAgent.gamma self) rewards)).
Proof.
  rewrite calc_returns_float64 by apply dtype_of_floats.
  rewrite map_map. simpl. rewrite map_id. reflexivity.
Qed.

(** One finished episode of training, from an empty memory. *)
Lemma pg_run_episode_law (fuel : nat) (self : agent) (episode : nat) (self' : agent) :
  PGAgent.memory_states self = [] ->
  PGAgent.memory_actions self = [] ->
  PGAgent.memory_rewards self = [] ->
  supp (PGAgent.run_episode log fuel self episode) (self', true) ->
  exists states actions rewards total,
    length states = length rewards
    /\ length actions = length rewards
    /\ rewards <> []
    /\ Forall (fun a => exists k, (k < PGAgent.action_size self)%nat
                                  /\ PGAgent.one_hot (PGAgent.action_size self) k = Some a)
              actions
    /\ total == Np.sum_list rewards
    /\ PGAgent.stats_rewards self' = PGAgent.stats_rewards self ++ [total]
    /\ (PGAgent.optimizer self', PGAgent.model self')
       = opt_apply opt (PGAgent.optimizer self)
           (PGAgent.loss log states actions
                         (discounted_returns (PGAgent.gamma self) rewards))
           (PGAgent.model self)
    /\ PGAgent.memory_states self' = []
    /\ PGAgent.memory_actions self' = []
    /\ PGAgent.memory_rewards self' = []
    /\ PGAgent.gamma self' = PGAgent.gamma self
    /\ PGAgent.num_episodes self' = PGAgent.num_episodes self.
Proof.
  intros Hs Ha Hr H. unfold PGAgent.run_episode in H.
  apply supp_bind in H. destruct H as [[w state] [_ H]].
  apply supp_bind in H. destruct H as [[self1 fin] [Hg H]].
  apply generate_spec in Hg.
  destruct Hg as [states [actions [rewards [E [H1 [H2 [H3 H4]]]]]]].
  simpl in E, H4. rewrite Hs, Ha, Hr in E. simpl in E.
  destruct fin; simpl negb in H; cbv iota in H;
    [| apply supp_ret in H; discriminate].
  exists states, actions, rewards, (PGAgent.py_sum (map PGAgent.PyFloat rewards)).
  split; [exact H1 |]. split; [exact H2 |]. split; [apply H3; reflexivity |].
  split; [exact H4 |]. split; [apply py_sum_floats |].
  apply supp_bind in H. destruct H as [trained [Htr H]].
  assert (Ht : PGAgent.stats_rewards trained
               = PGAgent.stats_rewards self
                 ++ [PGAgent.py_sum (map PGAgent.PyFloat rewards)]
               /\ (PGAgent.optimizer trained, PGAgent.model trained)
                  = opt_apply opt (PGAgent.optimizer self)
                      (PGAgent.loss log states actions
                                    (discounted_returns (PGAgent.gamma self) rewards))
                      (PGAgent.model self)
               /\ PGAgent.gamma trained = PGAgent.gamma self
               /\ PGAgent.num_episodes trained = PGAgent.num_episodes self).
  { unfold PGAgent.train in Htr. rewrite E in Htr.
    cbn [PGAgent.memory_rewards PGAgent.memory_states PGAgent.memory_actions
         PGAgent.set_stats PGAgent.set_memory PGAgent.set_world] in Htr.
    apply supp_bind in Htr. destruct Htr as [returns [Hret Htr]].
    apply supp_lift_opt in Hret.
    assert (R : PGAgent.calc_returns self (map PGAgent.PyFloat rewards) = Some returns)
      by exact Hret.
    rewrite returns_of_floats in R. injection R as <-.
    rewrite map_map in Htr. cbn [PGAgent.to_float] in Htr. rewrite map_id in Htr.
    cbn [PGAgent.optimizer PGAgent.model] in Htr.
    destruct (opt_apply opt _ _ _) as [o w']. apply supp_ret in Htr. subst trained.
    simpl. repeat split. }
  destruct Ht as [Ht1 [Ht2 [Ht3 Ht4]]].
  assert (Hfin : self' = PGAgent.set_world (PGAgent.set_memory trained [] [] [])
                           (PGAgent.world self')).
  { destruct (_ && _)%bool.
    - apply supp_bind in H. destruct H as [[self2 total] [Hact H]].
      apply supp_ret in H. injection H as -> _.
      apply pg_act_frame in Hact. exact Hact.
    - apply supp_ret in H. injection H as ->.
      symmetry. apply pg_set_world_eta. }
  rewrite Hfin. simpl. repeat split; assumption.
Qed.

(** X16: one episode of REINFORCE.  An episode of [execute] that starts
    with an empty memory and comes to its end has recorded one state, one
    one-hot action (of an action below [action_size]) and one reward per
    time step; it appends the sum of these rewards to the statistics, makes
    one optimizer step on the loss [- sum_t log(pi(a_t|s_t)) * G_t] built
    from the recorded states and actions and the discounted returns [G_t]
    of exactly these rewards, and leaves the memory empty for the next
    episode. *)
Theorem X16_reinforce_episode (fuel : nat) (self : agent) (episode : nat)
  (self' : agent) :
  PGAgent.memory_states self = [] ->
  PGAgent.memory_actions self = [] ->
  PGAgent.memory_rewards self = [] ->
  supp (PGAgent.run_episode log fuel self episode) (self', true) ->
  exists states actions rewards total,
    length states = length rewards
    /\ length actions = length rewards
    /\ rewards <> []
    /\ Forall (fun a => exists k, (k < PGAgent.action_size self)%nat
                                  /\ PGAgent.one_hot (PGAgent.action_size self) k = Some a)
              actions
    /\ total == Np.sum_list rewards
    /\ PGAgent.stats_rewards self' = PGAgent.stats_rewards self ++ [total]
    /\ (PGAgent.optimizer self', PGAgent.model self')
       = opt_apply opt (PGAgent.optimizer self)
           (PGAgent.loss log states actions
                         (discounted_returns (PGAgent.gamma self) rewards))
           (PGAgent.model self)
    /\ PGAgent.memory_states self' = []
    /\ PGAgent.memory_actions self' = []
    /\ PGAgent.memory_rewards self' = [].
Proof.
  intros Hs Ha Hr H.
  destruct (pg_run_episode_law fuel self episode self' Hs Ha Hr H)
    as [states [actions [rewards [total [H1 [H2 [H3 [H4 [H5 [H6 [H7 [H8 [H9 [H10 _]]]]]]]]]]]]]].
  exists states, actions, rewards, total. repeat split; assumption.
Qed.

Lemma pg_run_episodes_law (fuel : nat) (episodes : list nat) (self self' : agent) :
  PGAgent.memory_states self = [] ->
  PGAgent.memory_actions self = [] ->
  PGAgent.memory_rewards self = [] ->
  supp (PGAgent.run_episodes log fuel self episodes) (self', true) ->
  (exists new,
      PGAgent.stats_rewards self' = PGAgent.stats_rewards self ++ new
      /\ length new = length episodes)
  /\ PGAgent.memory_states self' = []
  /\ PGAgent.memory_actions self' = []
  /\ PGAgent.memory_rewards self' = [].
Proof.
  revert self.
  induction episodes as [| episode rest IH]; intros self Hs Ha Hr H; simpl in H.
  - apply supp_ret in H. injection H as ->.
    split; [exists []; rewrite app_nil_r; split; reflexivity |].
    repeat split; assumption.
  - apply supp_bind in H. destruct H as [[self1 fin] [He H]].
    destruct fin; [| apply supp_ret in H; discriminate].
    destruct (pg_run_episode_law fuel self episode self1 Hs Ha Hr He)
      as [states [actions [rewards [total [_ [_ [_ [_ [_ [H6 [_ [H8 [H9 [H10 _]]]]]]]]]]]]]].
    destruct (IH self1 H8 H9 H10 H) as [[new [Hn Hl]] Hm].
    split; [| exact Hm].
    exists (total :: new). split; [| simpl; lia].
    rewrite Hn, H6, <- app_assoc. reflexivity.
Qed.

(** X17: a run of REINFORCE.  A run of [execute] that starts with an
    empty memory and comes to its end leaves the memory empty and has
    appended exactly [num_episodes] entries to the statistics, without
    touching the entries that were there. *)
Theorem X17_reinforce_run (fuel : nat) (self self' : agent) :
  PGAgent.memory_states self = [] ->
  PGAgent.memory_actions self = [] ->
  PGAgent.memory_rewards self = [] ->
  supp (PGAgent.execute log fuel self) (self', true) ->
  (exists new,
      PGAgent.stats_rewards self' = PGAgent.stats_rewards self ++ new
      /\ length new = PGAgent.num_episodes self)
  /\ PGAgent.memory_states self' = []
  /\ PGAgent.memory_actions self' = []
  /\ PGAgent.memory_rewards self' = [].
Proof.
  intros Hs Ha Hr H. unfold PGAgent.execute in H.
  apply (pg_run_episodes_law _ _ _ _ Hs Ha Hr) in H.
  rewrite length_seq in H. exact H.
Qed.

End PGExtra.

Lemma X16_reinforce_episode_witness :
  supp (PGAgent.run_episode Toy.ac_log 2 Toy.pg_agent 1) (fst Toy.pg_episode_run, true)
  /\ PGAgent.memory_rewards (fst Toy.pg_episode_run) = []
  /\ exists total,
      PGAgent.stats_rewards (fst Toy.pg_episode_run)
      = PGAgent.stats_rewards Toy.pg_agent ++ [total].
Proof.
  assert (Hs : supp (PGAgent.run_episode Toy.ac_log 2 Toy.pg_agent 1)
                    (fst Toy.pg_episode_run, true)).
  { unfold Toy.pg_episode_run. apply nth_result_pair_supp; vm_compute; reflexivity. }
  split; [exact Hs |].
  destruct (X16_reinforce_episode Toy.ac_log 2 Toy.pg_agent 1 _ eq_refl eq_refl eq_refl Hs)
    as [states [actions [rewards [total [_ [_ [_ [_ [_ [H6 [_ [_ [_ H10]]]]]]]]]]]]].
  split; [exact H10 |]. exists total. exact H6.
Defined.

Lemma X17_reinforce_run_witness :
  supp (PGAgent.execute Toy.ac_log 2 Toy.pg_brief) (fst Toy.pg_brief_run, true)
  /\ (exists new,
        PGAgent.stats_rewards (fst Toy.pg_brief_run)
        = PGAgent.stats_rewards Toy.pg_brief ++ new
        /\ length new = PGAgent.num_episodes Toy.pg_brief)
  /\ PGAgent.memory_states (fst Toy.pg_brief_run) = [].
Proof.
  assert (Hs : supp (PGAgent.execute Toy.ac_log 2 Toy.pg_brief)
                    (fst Toy.pg_brief_run, true)).
  { unfold Toy.pg_brief_run. apply nth_result_pair_supp; vm_compute; reflexivity. }
  split; [exact Hs |].
  destruct (X17_reinforce_run Toy.ac_log 2 Toy.pg_brief _ eq_refl eq_refl eq_refl Hs)
    as [H1 [H2 _]].
  split; [exact H1 | exact H2].
Defined.

(** ** Actor-Critic: the rollout, and the statistics of the deep agents *)

Section ACExtra.

Context {env : Env} {actor critic : Net}
  {aopt : Optimizer (net_weights actor)} {copt : Optimizer (net_weights critic)}.

Variable log : Q -> Q.

Local Notation "'agent'" := (ACAgent.Agent env actor critic aopt copt) (only parsing).

Lemma ac_set_world_eta (self : agent) :
  ACAgent.set_world self (ACAgent.world self) = self.
Proof. destruct self. reflexivity. Qed.

Lemma ac_act_loop_frame (fuel : nat) (self : agent) (state : list Q) (total : Q)
  (self' : agent) (result : option Q) :
  supp (ACAgent.act_loop fuel self state total) (self', result) ->
  self' = ACAgent.set_world self (ACAgent.world self').
Proof.
  revert self state total. induction fuel as [| fuel IH]; intros self state total; simpl.
  - intros H. apply supp_ret in H. injection H as -> _.
    symmetry. apply ac_set_world_eta.
  - intros H. apply supp_bind in H. destruct H as [action [_ H]].
    apply supp_bind in H. destruct H as [[[[w state'] reward] done] [_ H]].
    destruct done.
    + apply supp_ret in H. injection H as -> _. reflexivity.
    + apply IH in H. exact H.
Qed.

Lemma ac_act_frame (fuel : nat) (self self' : agent) (result : option Q) :
  supp (ACAgent.act fuel self) (self', result) ->
  self' = ACAgent.set_world self (ACAgent.world self').
Proof.
  unfold ACAgent.act. intros H.
  apply supp_bind in H. destruct H as [[w state] [_ H]].
  apply supp_bind in H. destruct H as [[self1 total] [Hl H]].
  apply supp_ret in H. injection H as -> _.
  apply ac_act_loop_frame in Hl. rewrite Hl. reflexivity.
Qed.

(** X18: the rollout of the actor-critic agent is free of learning.
    Whatever a call of [act] returns, the agent afterwards is the agent
    before with only the state of the environment changed: the actor, the
    critic, both optimizers, the factor [I] and the statistics are the
    same. *)
Theorem X18_actor_critic_act_frame (fuel : nat) (self self' : agent)
  (result : option Q) :
  supp (ACAgent.act fuel self) (self', result) ->
  self' = ACAgent.set_world self (ACAgent.world self')
  /\ ACAgent.actor_model self' = ACAgent.actor_model self
  /\ ACAgent.critic_model self' = ACAgent.critic_model self
  /\ ACAgent.actor_optimizer self' = ACAgent.actor_optimizer self
  /\ ACAgent.critic_optimizer self' = ACAgent.critic_optimizer self
  /\ ACAgent.I self' = ACAgent.I self
  /\ ACAgent.stats_rewards self' = ACAgent.stats_rewards self.
Proof.
  intros H. apply ac_act_frame in H. split; [exact H |]. rewrite H. repeat split.
Qed.

Lemma ac_step_stats (self : agent) (state : list Q) (self' : agent)
  (next : option (list Q)) :
  supp (ACAgent.step log self state) (self', next) ->
  exists reward,
    Tabular.add_to_last (ACAgent.stats_rewards self) reward
    = Some (ACAgent.stats_rewards self').
Proof.
  unfold ACAgent.step. intros H.
  apply supp_bind in H. destruct H as [action [Ha H]].
  apply supp_bind in H. destruct H as [[[[w new_state] reward] done] [He H]].
  apply supp_bind in H. destruct H as [action_one_hot [Ho H]].
  apply supp_bind in H. destruct H as [self_t [Ht H]].
  apply supp_bind in H. destruct H as [self_s [Hs H]].
  apply supp_lift_opt in Hs.
  apply ac_train_spec in Ht. destruct Ht as [new_value [value [_ [_ Ht]]]].
  cbv zeta in Ht. subst self_t. exists reward.
  unfold ACAgent.stats_add in Hs. simpl in Hs.
  destruct (Tabular.add_to_last (ACAgent.stats_rewards self) reward) as [r |];
    [| discriminate].
  injection Hs as <-.
  destruct done; apply supp_ret in H; injection H as -> _; reflexivity.
Qed.

Lemma ac_loop_stats (fuel : nat) (self : agent) (state : list Q) (self' : agent)
  (finished : bool) (old : list Q) (x : Q) :
  ACAgent.stats_rewards self = old ++ [x] ->
  supp (ACAgent.loop log fuel self state) (self', finished) ->
  exists x', ACAgent.stats_rewards self' = old ++ [x'].
Proof.
  revert self state x. induction fuel as [| fuel IH];
    intros self state x Hst H; simpl in H.
  - apply supp_ret in H. injection H as -> _. exists x. exact Hst.
  - apply supp_bind in H. destruct H as [[self1 next] [Hs H]].
    destruct (ac_step_stats _ _ _ _ Hs) as [reward Hr].
    pose proof (last_entry_moves _ _ _ _ _ Hst Hr) as H1.
    destruct next as [state' |].
    + exact (IH _ _ _ H1 H).
    + apply supp_ret in H. injection H as -> _. eexists. exact H1.
Qed.

Lemma ac_run_episode_stats (fuel : nat) (self : agent) (episode : nat) (self' : agent)
  (finished : bool) :
  supp (ACAgent.run_episode log fuel self episode) (self', finished) ->
  exists x, ACAgent.stats_rewards self' = ACAgent.stats_rewards self ++ [x].
Proof.
  unfold ACAgent.run_episode. intros H.
  apply supp_bind in H. destruct H as [[self0 state] [Hb H]].
  apply supp_bind in H. destruct H as [[self1 fin] [Hl H]].
  unfold ACAgent.begin_episode in Hb.
  apply supp_bind in Hb. destruct Hb as [[w s] [_ Hb]].
  apply supp_ret in Hb. injection Hb as E _. subst self0.
  apply (ac_loop_stats _ _ _ _ _ (ACAgent.stats_rewards self) 0) in Hl; [| reflexivity].
  destruct fin; simpl in H.
  - destruct (_ && _)%bool.
    + apply supp_bind in H. destruct H as [[self2 total] [Hact H]].
      apply supp_ret in H. injection H as -> _.
      apply ac_act_frame in Hact. rewrite Hact. exact Hl.
    + apply supp_ret in H. injection H as -> _. exact Hl.
  - apply supp_ret in H. injection H as -> _. exact Hl.
Qed.

Lemma ac_run_episodes_stats (fuel : nat) (episodes : list nat) (self self' : agent)
  (finished : bool) :
  supp (ACAgent.run_episodes log fuel self episodes) (self', finished) ->
  exists new,
    ACAgent.stats_rewards self' = ACAgent.stats_rewards self ++ new
    /\ (length new <= length episodes)%nat
    /\ (finished = true -> length new = length episodes).
Proof.
  revert self. induction episodes as [| episode rest IH]; intros self H; simpl in H.
  - apply supp_ret in H. injection H as -> ->. exists [].
    rewrite app_nil_r. repeat split. simpl. lia.
  - apply supp_bind in H. destruct H as [[self1 fin] [He H]].
    destruct (ac_run_episode_stats _ _ _ _ _ He) as [x Hx].
    destruct fin.
    + destruct (IH _ H) as [new [Hn [Hle Hfin]]]. exists (x :: new).
      rewrite Hn, Hx, <- app_assoc. simpl. split; [reflexivity |].
      split; [lia |]. intros E. rewrite (Hfin E). reflexivity.
    + apply supp_ret in H. injection H as -> ->. exists [x].
      split; [exact Hx |]. split; [simpl; lia | discriminate].
Qed.

End ACExtra.

Section DQNStats.

Context {env : Env} {net : Net} {opt : Optimizer (net_weights net)}.

Local Notation "'agent'" := (DQNAgent.Agent env net opt) (only parsing).

Lemma dqn_step_stats (self : agent) (state : list Q) (self' : agent)
  (next : option (list Q)) :
  supp (DQNAgent.step self state) (self', next) ->
  exists reward,
    Tabular.add_to_last (DQNAgent.stats_rewards self) reward
    = Some (DQNAgent.stats_rewards self').
Proof.
  intros H. apply dqn_step_spec in H.
  destruct H as [action [w [new_state [reward [done [self_t [_ [_ [Ht [Hs _]]]]]]]]]].
  apply train_frame in Ht. destruct Ht as [_ [_ [_ [_ [_ [Hst _]]]]]]. simpl in Hst.
  exists reward. unfold DQNAgent.stats_add in Hs.
  assert (E : DQNAgent.stats_rewards (DQNAgent.sync_target self_t)
              = DQNAgent.stats_rewards self_t).
  { unfold DQNAgent.sync_target.
    cbn [DQNAgent.set_counter DQNAgent.target_update_counter
         DQNAgent.target_update_frequency].
    destruct (Nat.eqb _ _); reflexivity. }
  rewrite E, Hst in Hs.
  destruct (Tabular.add_to_last (DQNAgent.stats_rewards self) reward) as [r |];
    [| discriminate].
  injection Hs as <-. reflexivity.
Qed.

Lemma dqn_loop_stats (fuel : nat) (self : agent) (state : list Q) (self' : agent)
  (finished : bool) (old : list Q) (x : Q) :
  DQNAgent.stats_rewards self = old ++ [x] ->
  supp (DQNAgent.loop fuel self state) (self', finished) ->
  exists x', DQNAgent.stats_rewards self' = old ++ [x'].
Proof.
  revert self state x. induction fuel as [| fuel IH];
    intros self state x Hst H; simpl in H.
  - apply supp_ret in H. injection H as -> _. exists x. exact Hst.
  - apply supp_bind in H. destruct H as [[self1 next] [Hs H]].
    destruct (dqn_step_stats _ _ _ _ Hs) as [reward Hr].
    pose proof (last_entry_moves _ _ _ _ _ Hst Hr) as H1.
    destruct next as [state' |].
    + exact (IH _ _ _ H1 H).
    + apply supp_ret in H. injection H as -> _. eexists. exact H1.
Qed.

Lemma dqn_run_episode_stats (fuel : nat) (self : agent) (episode : nat) (self' : agent)
  (finished : bool) :
  supp (DQNAgent.run_episode fuel self episode) (self', finished) ->
  exists x, DQNAgent.stats_rewards self' = DQNAgent.stats_rewards self ++ [x].
Proof.
  unfold DQNAgent.run_episode. intros H.
  apply supp_bind in H. destruct H as [[self0 state] [Hb H]].
  apply supp_bind in H. destruct H as [[self1 fin] [Hl H]].
  apply dqn_begin_episode_frame in Hb.
  apply (dqn_loop_stats _ _ _ _ _ (DQNAgent.stats_rewards self) 0) in Hl;
    [| rewrite Hb; reflexivity].
  destruct fin; simpl in H.
  - destruct (_ && _)%bool.
    + apply supp_bind in H. destruct H as [[self2 total] [Hact H]].
      apply supp_ret in H. injection H as -> _.
      apply dqn_act_frame in Hact. rewrite Hact. exact Hl.
    + apply supp_ret in H. injection H as -> _. exact Hl.
  - apply supp_ret in H. injection H as -> _. exact Hl.
Qed.

Lemma dqn_run_episodes_stats (fuel : nat) (episodes : list nat) (self self' : agent)
  (finished : bool) :
  supp (DQNAgent.run_episodes fuel self episodes) (self', finished) ->
  exists new,
    DQNAgent.stats_rewards self' = DQNAgent.stats_rewards self ++ new
    /\ (length new <= length episodes)%nat
    /\ (finished = true -> length new = length episodes).
Proof.
  revert self. induction episodes as [| episode rest IH]; intros self H; simpl in H.
  - apply supp_ret in H. injection H as -> ->. exists [].
    rewrite app_nil_r. repeat split. simpl. lia.
  - apply supp_bind in H. destruct H as [[self1 fin] [He H]].
    destruct (dqn_run_episode_stats _ _ _ _ _ He) as [x Hx].
    destruct fin.
    + destruct (IH _ H) as [new [Hn [Hle Hfin]]]. exists (x :: new).
      rewrite Hn, Hx, <- app_assoc. simpl. split; [reflexivity |].
      split; [lia |]. intros E. rewrite (Hfin E). reflexivity.
    + apply supp_ret in H. injection H as -> ->. exists [x].
      split; [exact Hx |]. split; [simpl; lia | discriminate].
Qed.

End DQNStats.

(** X19: the statistics of the DQN agent and of the actor-critic agent
    are a log of episodes.  A run of [execute] leaves every entry that
    [stats['rewards']] had before as it was and appends one entry for each
    episode it starts: exactly [num_episodes] entries when the run comes
    to its end. *)
Theorem X19_deep_agent_statistics :
  (forall env net opt fuel (self self' : DQNAgent.Agent env net opt) finished,
      supp (DQNAgent.execute fuel self) (self', finished) ->
      exists new,
        DQNAgent.stats_rewards self' = DQNAgent.stats_rewards self ++ new
        /\ (length new <= DQNAgent.num_episodes self)%nat
        /\ (finished = true -> length new = DQNAgent.num_episodes self))
  /\ (forall env actor critic aopt copt log fuel
             (self self' : ACAgent.Agent env actor critic aopt copt) finished,
        supp (ACAgent.execute log fuel self) (self', finished) ->
        exists new,
          ACAgent.stats_rewards self' = ACAgent.stats_rewards self ++ new
          /\ (length new <= ACAgent.num_episodes self)%nat
          /\ (finished = true -> length new = ACAgent.num_episodes self)).
Proof.
  split.
  - intros env net opt fuel self self' finished H. unfold DQNAgent.execute in H.
    apply dqn_run_episodes_stats in H. rewrite length_seq in H. exact H.
  - intros env actor critic aopt copt log fuel self self' finished H.
    unfold ACAgent.execute in H.
    apply ac_run_episodes_stats in H. rewrite length_seq in H. exact H.
Qed.

Lemma X18_actor_critic_act_frame_witness :
  supp (ACAgent.act 2 Toy.ac_agent) (fst Toy.ac_act_run, Some 1)
  /\ ACAgent.I (fst Toy.ac_act_run) = ACAgent.I Toy.ac_agent
  /\ ACAgent.stats_rewards (fst Toy.ac_act_run) = ACAgent.stats_rewards Toy.ac_agent.
Proof.
  assert (Hs : supp (ACAgent.act 2 Toy.ac_agent) (fst Toy.ac_act_run, Some 1)).
  { unfold Toy.ac_act_run. apply nth_result_pair_supp; vm_compute; reflexivity. }
  split; [exact Hs |].
  destruct (X18_actor_critic_act_frame 2 Toy.ac_agent _ _ Hs)
    as [_ [_ [_ [_ [_ [H6 H7]]]]]].
  split; [exact H6 | exact H7].
Defined.

(** ** A new DQN agent *)

(** X20: the first passes of a new DQN agent.  With the two networks
    distinct objects, a DQN agent fresh from its constructor does not
    train during its first 31 passes through the loop body (the memory is
    empty and a minibatch has 32 transitions), and during its first 199
    passes the target network holds the weights the online network had at
    construction, while the counter counts the passes. *)
Theorem X20_dqn_new_agent {env : Env} {net : Net} {opt : Optimizer (net_weights net)}
  (w : env_state env) (heap : nat -> net_weights net) (model target_model : nat)
  (o : opt_state opt) (n : nat) (self' : DQNAgent.Agent env net opt) :
  model <> target_model ->
  DQNAgent.steps n (@DQNAgent.init env net opt w heap model target_model o) self' ->
  ((n < 32)%nat ->
   DQNAgent.nets self' model = heap model /\ DQNAgent.optimizer self' = o)
  /\ ((n < 200)%nat ->
      DQNAgent.nets self' target_model = heap model
      /\ DQNAgent.target_update_counter self' = n).
Proof.
  intros Hne Hs.
  set (self := @DQNAgent.init env net opt w heap model target_model o) in *.
  assert (Hm : DQNAgent.nets self model = heap model).
  { subst self. cbn [DQNAgent.init DQNAgent.nets]. unfold DQNAgent.heap_set.
    destruct (Nat.eqb model target_model) eqn:E; [| reflexivity].
    apply Nat.eqb_eq in E. contradiction. }
  assert (Ht : DQNAgent.nets self target_model = heap model).
  { subst self. cbn [DQNAgent.init DQNAgent.nets]. unfold DQNAgent.heap_set.
    rewrite Nat.eqb_refl. reflexivity. }
  split.
  - intros Hn. destruct (steps_idle n self self' Hs) as [_ [_ [Ho Hnets]]].
    + subst self. cbn [DQNAgent.init DQNAgent.memory DQNAgent.batch_size].
      unfold Deque.len, Deque.empty. cbn [Deque.items length]. lia.
    + split; [| exact Ho]. rewrite <- Hm. exact Hnets.
  - intros Hn. destruct (steps_target n self self') as [_ [_ [_ [Hkeep _]]]];
      [exact Hne | exact Hs |].
    destruct Hkeep as [H1 H2].
    + subst self.
      cbn [DQNAgent.init DQNAgent.target_update_counter DQNAgent.target_update_frequency].
      lia.
    + split; [rewrite <- Ht; exact H1 | exact H2].
Qed.

Lemma X20_dqn_new_agent_witness :
  DQNAgent.steps 1 (Toy.dqn_agent [1; 0]) Toy.dqn_new_1
  /\ DQNAgent.nets Toy.dqn_new_1 0%nat = [1; 0]
  /\ DQNAgent.nets Toy.dqn_new_1 1%nat = [1; 0]
  /\ DQNAgent.target_update_counter Toy.dqn_new_1 = 1%nat.
Proof.
  assert (S0 : supp (DQNAgent.begin_episode (Toy.dqn_agent [1; 0]))
                    (Toy.dqn_new_begun, [0])).
  { unfold Toy.dqn_new_begun. apply nth_result_pair_supp; vm_compute; reflexivity. }
  assert (S1 : supp (DQNAgent.step Toy.dqn_new_begun [0]) (Toy.dqn_new_1, None)).
  { unfold Toy.dqn_new_1. apply nth_result_pair_supp; vm_compute; reflexivity. }
  assert (Hs : DQNAgent.steps 1 (Toy.dqn_agent [1; 0]) Toy.dqn_new_1).
  { exact (DQNAgent.steps_begin 1 _ _ [0] _ S0
             (DQNAgent.steps_step 0 _ [0] _ None _ S1 (DQNAgent.steps_done _))). }
  assert (Hne : 0%nat <> 1%nat) by discriminate.
  split; [exact Hs |].
  destruct (@X20_dqn_new_agent Toy.corridor Toy.bias_net Toy.plain_opt
              0%nat (fun _ => [1; 0]) 0%nat 1%nat tt 1%nat Toy.dqn_new_1 Hne Hs)
    as [H1 H2].
  destruct H1 as [H1 _]; [lia |]. destruct H2 as [H2 H3]; [lia |].
  split; [exact H1 |]. split; [exact H2 | exact H3].
Defined.


(** ** Training that never raises *)

Lemma expect_ext_supp {A} (d : dist A) (g h : A -> Q) :
  (forall a, supp d a -> g a == h a) -> expect d g == expect d h.
Proof.
  unfold expect. induction d as [| [w a] d IH]; intros E; simpl; [reflexivity |].
  rewrite IH, (E a).
  - reflexivity.
  - exists w. left. reflexivity.
  - intros b [v Hb]. apply E. exists v. right. exact Hb.
Qed.

Lemma mass_bind {A B} (d : dist A) (f : A -> dist B) :
  mass d == 1 -> (forall a, supp d a -> mass (f a) == 1) -> mass (bind d f) == 1.
Proof.
  intros Hd Hf. unfold mass in *. rewrite expect_bind.
  rewrite (expect_ext_supp d _ (fun _ => 1)) by exact Hf. exact Hd.
Qed.

Lemma mass_ret {A} (a : A) : mass (ret a) == 1.
Proof. exact (expect_ret a (fun _ => 1)). Qed.

Lemma mass_some {A B} (o : option A) (a : A) (f : A -> dist B) :
  o = Some a -> mass (f a) == 1 -> mass (bind (lift_opt o) f) == 1.
Proof.
  intros -> H. apply mass_bind; [apply mass_ret |].
  intros b Hb. apply supp_ret in Hb. subst b. exact H.
Qed.

Lemma add_to_last_some (l : list Q) (r : Q) :
  l <> [] -> exists l', Tabular.add_to_last l r = Some l'.
Proof.
  intros H. destruct (exists_last H) as [old [x ->]].
  rewrite add_to_last_app. eexists. reflexivity.
Qed.

Lemma add_to_last_nonempty (l l' : list Q) (r : Q) :
  Tabular.add_to_last l r = Some l' -> l' <> [].
Proof.
  destruct l as [| x l]; [discriminate |]. simpl.
  destruct l as [| y l].
  - intros H. injection H as <-. discriminate.
  - destruct (Tabular.add_to_last (y :: l) r); [| discriminate].
    intros H. injection H as <-. discriminate.
Qed.

Section TabularTotal.

Context {env : Env}.

Variable self0 : Tabular.Agent env.
Hypothesis env_ok :
  env_in_table env (Tabular.get_discrete_state self0) (Tabular.shape self0).

Lemma ready_world (self : Tabular.Agent env) (w : env_state env) :
  ready self0 self -> ready self0 (Tabular.set_world self w).
Proof. intros H. exact H. Qed.

Lemma ready_stats (self : Tabular.Agent env) (r : list Q) :
  ready self0 self -> ready self0 (Tabular.set_stats self r).
Proof. intros H. exact H. Qed.

Lemma ready_setup (self self' : Tabular.Agent env) :
  ready self0 self -> same_setup self self' ->
  (forall c, length (Tabular.q_table self' c) = length (Tabular.q_table self c)) ->
  ready self0 self'.
Proof.
  intros [[Hr [Hn [H0 H1]]] Hs] Hs' Hl.
  split; [| exact (same_setup_trans _ _ _ Hs Hs')].
  destruct Hs' as [_ [_ [Ee _]]]. split.
  - intros c. rewrite Hl. apply Hr.
  - split; [exact Hn |]. rewrite Ee. split; assumption.
Qed.

(** An agent with the grid of [self0] discretizes as [self0] does. *)
Lemma index_of_observation (self : Tabular.Agent env) (obs : list Q) :
  ready self0 self ->
  index_ok (Tabular.shape self0) (Tabular.get_discrete_state self0 obs) ->
  index_ok (Tabular.shape self0) (Tabular.get_discrete_state self obs).
Proof.
  intros [_ [Eg _]] Hi. unfold Tabular.get_discrete_state in *. rewrite Eg. exact Hi.
Qed.

Lemma q_row_of_index (self : Tabular.Agent env) (state : list Z) :
  ready self0 self -> index_ok (Tabular.shape self0) state ->
  exists row,
    Tabular.q_row self state = Some row
    /\ length row = action_n env
    /\ row <> [].
Proof.
  intros [[Hr [Hn _]] [_ [Es _]]] Hi. rewrite <- Es in Hi.
  exists (Tabular.q_table self (Np.zip_with Z.modulo state (Tabular.shape self))).
  split; [unfold Tabular.q_row; rewrite (norm_indices_wrap _ _ Hi); reflexivity |].
  split; [apply Hr |].
  intros E. pose proof (Hr (Np.zip_with Z.modulo state (Tabular.shape self))) as Hl.
  rewrite E in Hl. simpl in Hl. lia.
Qed.

Lemma q_get_of_index (self : Tabular.Agent env) (state : list Z) (action : nat) :
  ready self0 self -> index_ok (Tabular.shape self0) state ->
  (action < action_n env)%nat ->
  exists q, Tabular.q_get self state action = Some q.
Proof.
  intros Hr Hi Ha. destruct (q_row_of_index self state Hr Hi) as [row [E [Hl _]]].
  unfold Tabular.q_get. rewrite E.
  destruct (nth_error row action) as [q |] eqn:En.
  - exists q. reflexivity.
  - apply nth_error_None in En. lia.
Qed.

Lemma q_set_of_index (self : Tabular.Agent env) (state : list Z) (action : nat) (v : Q) :
  ready self0 self -> index_ok (Tabular.shape self0) state ->
  (action < action_n env)%nat ->
  exists self', Tabular.q_set self state action v = Some self'.
Proof.
  intros [[Hr _] [_ [Es _]]] Hi Ha. rewrite <- Es in Hi. unfold Tabular.q_set.
  rewrite (norm_indices_wrap _ _ Hi).
  replace (Nat.ltb action _) with true
    by (symmetry; apply Nat.ltb_lt; rewrite Hr; exact Ha).
  eexists. reflexivity.
Qed.

Lemma selection_of_row (row : list Q) (eps : Q) :
  length row = action_n env -> row <> [] -> 0 <= eps -> eps <= 1 ->
  mass (Tabular.epsilon_greedy_selection row eps) == 1
  /\ forall a, supp (Tabular.epsilon_greedy_selection row eps) a ->
               (a < action_n env)%nat.
Proof.
  intros Hl Hne H0 H1. split.
  - apply epsilon_greedy_selection_total; assumption.
  - intros a Ha. apply epsilon_greedy_selection_in_range in Ha. lia.
Qed.

Lemma stats_add_of_nonempty (self : Tabular.Agent env) (reward : Q) :
  Tabular.stats_rewards self <> [] ->
  exists self', Tabular.stats_add self reward = Some self'.
Proof.
  intros H. unfold Tabular.stats_add.
  destruct (add_to_last_some _ reward H) as [l' ->]. eexists. reflexivity.
Qed.

Lemma q_set_keeps_stats (self self' : Tabular.Agent env) (state : list Z)
  (action : nat) (v : Q) :
  Tabular.q_set self state action v = Some self' ->
  Tabular.stats_rewards self' = Tabular.stats_rewards self.
Proof.
  intros H. destruct (q_set_spec _ _ _ _ _ H) as [_ [_ [_ [_ [_ [Hs _]]]]]]. exact Hs.
Qed.

(** A pass through the SARSA loop body from an index tuple the table
    accepts and an action of the action space does not raise. *)
Lemma sarsa_step_total (self : Tabular.Agent env) (state : list Z) (action : nat) :
  ready self0 self -> index_ok (Tabular.shape self0) state ->
  (action < action_n env)%nat ->
  Tabular.stats_rewards self <> [] ->
  mass (SarsaAgent.step self state action) == 1.
Proof.
  intros Hr Hc Ha Hst. unfold SarsaAgent.step.
  destruct env_ok as [_ Hstep]. destruct (Hstep (Tabular.world self) action Ha) as [Hm Hobs].
  apply mass_bind; [exact Hm |].
  intros [[[w new_obs] reward] done] Hs. cbv zeta.
  pose proof (ready_world self w Hr) as Hr1.
  pose proof (index_of_observation _ new_obs Hr1 (Hobs _ _ _ _ Hs)) as Hc1.
  destruct (q_row_of_index _ _ Hr1 Hc1) as [next_row [Erow [Hlen Hne]]].
  apply (mass_some _ _ _ Erow).
  destruct Hr as [[Hrows [Hn [H0 H1]]] Hsetup].
  destruct (selection_of_row next_row (Tabular.epsilon self) Hlen Hne H0 H1) as [Hsel Hin].
  apply mass_bind; [exact Hsel |].
  intros new_action Hna. specialize (Hin _ Hna).
  assert (Ht : exists t, SarsaAgent.target (Tabular.gamma (Tabular.set_world self w))
                           reward done next_row new_action = Some t).
  { unfold SarsaAgent.target. destruct done; [eexists; reflexivity |].
    destruct (nth_error next_row new_action) as [q |] eqn:En; [eexists; reflexivity |].
    apply nth_error_None in En. lia. }
  destruct Ht as [t Ht]. apply (mass_some _ _ _ Ht).
  destruct (q_get_of_index _ state action Hr1 Hc Ha) as [q_old Hq].
  apply (mass_some _ _ _ Hq).
  destruct (q_set_of_index _ state action (q_old + Tabular.alpha (Tabular.set_world self w)
                                                    * (t - q_old)) Hr1 Hc Ha)
    as [self2 Hset].
  apply (mass_some _ _ _ Hset).
  destruct (stats_add_of_nonempty self2 reward) as [self3 Hadd].
  { rewrite (q_set_keeps_stats _ _ _ _ _ Hset). exact Hst. }
  apply (mass_some _ _ _ Hadd).
  destruct done; apply mass_ret.
Qed.

(** The same for the Q-learning loop body, which looks up the row of the
    new state only when the episode goes on. *)
Lemma q_learning_step_total (self : Tabular.Agent env) (state : list Z) :
  ready self0 self -> index_ok (Tabular.shape self0) state ->
  Tabular.stats_rewards self <> [] ->
  mass (QLearningAgent.step self state) == 1.
Proof.
  intros Hr Hc Hst. unfold QLearningAgent.step.
  destruct (q_row_of_index _ _ Hr Hc) as [row [Erow0 [Hlen0 Hne0]]].
  apply (mass_some _ _ _ Erow0).
  pose proof Hr as [[Hrows [Hn [H0 H1]]] Hsetup].
  destruct (selection_of_row row (Tabular.epsilon self) Hlen0 Hne0 H0 H1) as [Hsel Hin].
  apply mass_bind; [exact Hsel |].
  intros action Hact. pose proof (Hin _ Hact) as Ha.
  destruct env_ok as [_ Hstep]. destruct (Hstep (Tabular.world self) action Ha) as [Hm Hobs].
  apply mass_bind; [exact Hm |].
  intros [[[w new_obs] reward] done] Hs. cbv zeta.
  pose proof (ready_world self w Hr) as Hr1.
  pose proof (index_of_observation _ new_obs Hr1 (Hobs _ _ _ _ Hs)) as Hc1.
  assert (Ht : exists t, QLearningAgent.target (Tabular.gamma (Tabular.set_world self w))
                           reward done
                           (Tabular.q_row (Tabular.set_world self w)
                              (Tabular.get_discrete_state (Tabular.set_world self w) new_obs))
                         = Some t).
  { unfold QLearningAgent.target. destruct done; [eexists; reflexivity |].
    destruct (q_row_of_index _ _ Hr1 Hc1) as [next_row [-> [_ Hne]]].
    destruct (np_max_some _ Hne) as [m ->]. eexists. reflexivity. }
  destruct Ht as [t Ht]. apply (mass_some _ _ _ Ht).
  destruct (q_get_of_index _ state action Hr1 Hc Ha) as [q_old Hq].
  apply (mass_some _ _ _ Hq).
  destruct (q_set_of_index _ state action (q_old + Tabular.alpha (Tabular.set_world self w)
                                                    * (t - q_old)) Hr1 Hc Ha)
    as [self2 Hset].
  apply (mass_some _ _ _ Hset).
  destruct (stats_add_of_nonempty self2 reward) as [self3 Hadd].
  { rewrite (q_set_keeps_stats _ _ _ _ _ Hset). exact Hst. }
  apply (mass_some _ _ _ Hadd).
  destruct done; apply mass_ret.
Qed.

(** What a SARSA pass hands to the next pass. *)
Lemma sarsa_step_next (self : Tabular.Agent env) (state : list Z) (action : nat)
  (self' : Tabular.Agent env) (next : option (list Z * nat)) :
  ready self0 self -> (action < action_n env)%nat ->
  supp (SarsaAgent.step self state action) (self', next) ->
  ready self0 self' /\ Tabular.stats_rewards self' <> []
  /\ forall state' action', next = Some (state', action') ->
       index_ok (Tabular.shape self0) state' /\ (action' < action_n env)%nat.
Proof.
  intros Hr Ha H.
  destruct (sarsa_step_stats _ _ _ _ _ H) as [r Hst].
  apply sarsa_step_law in H.
  destruct H as [w [new_obs [reward [done [next_row [new_action [target [q_old [cell H]]]]]]]]].
  destruct H as [Henv [Hrow [Hsel [_ [_ [Hold [Hnew [Ho [Hsetup Hnext]]]]]]]]].
  split; [| split].
  - apply (ready_setup self self' Hr Hsetup).
    exact (rows_after_update self self' cell action q_old _ Hold Hnew Ho).
  - exact (add_to_last_nonempty _ _ _ Hst).
  - intros state' action' E. rewrite E in Hnext. destruct done; [discriminate |].
    injection Hnext as -> ->.
    destruct env_ok as [_ Hstep]. destruct (Hstep (Tabular.world self) action Ha) as [_ Hobs].
    pose proof (index_of_observation self new_obs Hr (Hobs _ _ _ _ Henv)) as Hc.
    split; [exact Hc |].
    destruct (q_row_of_index _ _ Hr Hc) as [row [E1 [Hl _]]]. rewrite E1 in Hrow.
    injection Hrow as <-. apply epsilon_greedy_selection_in_range in Hsel. lia.
Qed.

Lemma q_learning_step_next (self : Tabular.Agent env) (state : list Z)
  (self' : Tabular.Agent env) (next : option (list Z)) :
  ready self0 self -> index_ok (Tabular.shape self0) state ->
  supp (QLearningAgent.step self state) (self', next) ->
  ready self0 self' /\ Tabular.stats_rewards self' <> []
  /\ forall state', next = Some state' -> index_ok (Tabular.shape self0) state'.
Proof.
  intros Hr Hc0 H.
  destruct (q_learning_step_stats _ _ _ _ H) as [r Hst].
  apply q_learning_step_law in H.
  destruct H as [row [action [w [new_obs [reward [done [target [q_old [cell H]]]]]]]]].
  destruct H as [Hrow0 [Hsel [Henv [_ [_ [Hold [Hnew [Ho [Hsetup Hnext]]]]]]]]].
  split; [| split].
  - apply (ready_setup self self' Hr Hsetup).
    exact (rows_after_update self self' cell action q_old _ Hold Hnew Ho).
  - exact (add_to_last_nonempty _ _ _ Hst).
  - intros state' E. rewrite E in Hnext. destruct done; [discriminate |].
    injection Hnext as ->.
    destruct (q_row_of_index _ _ Hr Hc0) as [row' [E1 [Hl _]]]. rewrite E1 in Hrow0.
    injection Hrow0 as <-. apply epsilon_greedy_selection_in_range in Hsel.
    destruct env_ok as [_ Hstep].
    destruct (Hstep (Tabular.world self) action) as [_ Hobs]; [lia |].
    exact (index_of_observation self new_obs Hr (Hobs _ _ _ _ Henv)).
Qed.

Lemma sarsa_loop_total (fuel : nat) (self : Tabular.Agent env) (state : list Z)
  (action : nat) :
  ready self0 self -> index_ok (Tabular.shape self0) state ->
  (action < action_n env)%nat ->
  Tabular.stats_rewards self <> [] ->
  mass (SarsaAgent.loop fuel self state action) == 1
  /\ forall self' finished,
       supp (SarsaAgent.loop fuel self state action) (self', finished) ->
       ready self0 self'.
Proof.
  revert self state action. induction fuel as [| fuel IH];
    intros self state action Hr Hc Ha Hst; cbn [SarsaAgent.loop].
  - split; [apply mass_ret |].
    intros self' finished H. apply supp_ret in H. injection H as -> _. exact Hr.
  - split.
    + apply mass_bind; [apply sarsa_step_total; assumption |].
      intros [self1 next] Hs.
      destruct (sarsa_step_next _ _ _ _ _ Hr Ha Hs) as [Hr1 [Hst1 Hn]].
      destruct next as [[state' action'] |]; [| apply mass_ret].
      destruct (Hn _ _ eq_refl) as [Hc1 Ha1].
      exact (proj1 (IH _ _ _ Hr1 Hc1 Ha1 Hst1)).
    + intros self' finished H.
      apply supp_bind in H. destruct H as [[self1 next] [Hs H]].
      destruct (sarsa_step_next _ _ _ _ _ Hr Ha Hs) as [Hr1 [Hst1 Hn]].
      destruct next as [[state' action'] |].
      * destruct (Hn _ _ eq_refl) as [Hc1 Ha1].
        exact (proj2 (IH _ _ _ Hr1 Hc1 Ha1 Hst1) _ _ H).
      * apply supp_ret in H. injection H as -> _. exact Hr1.
Qed.

Lemma q_learning_loop_total (fuel : nat) (self : Tabular.Agent env) (state : list Z) :
  ready self0 self -> index_ok (Tabular.shape self0) state ->
  Tabular.stats_rewards self <> [] ->
  mass (QLearningAgent.loop fuel self state) == 1
  /\ forall self' finished,
       supp (QLearningAgent.loop fuel self state) (self', finished) -> ready self0 self'.
Proof.
  revert self state. induction fuel as [| fuel IH]; intros self state Hr Hc Hst;
    cbn [QLearningAgent.loop].
  - split; [apply mass_ret |].
    intros self' finished H. apply supp_ret in H. injection H as -> _. exact Hr.
  - split.
    + apply mass_bind; [apply q_learning_step_total; assumption |].
      intros [self1 next] Hs.
      destruct (q_learning_step_next _ _ _ _ Hr Hc Hs) as [Hr1 [Hst1 Hn]].
      destruct next as [state' |]; [| apply mass_ret].
      exact (proj1 (IH _ _ Hr1 (Hn _ eq_refl) Hst1)).
    + intros self' finished H.
      apply supp_bind in H. destruct H as [[self1 next] [Hs H]].
      destruct (q_learning_step_next _ _ _ _ Hr Hc Hs) as [Hr1 [Hst1 Hn]].
      destruct next as [state' |].
      * exact (proj2 (IH _ _ Hr1 (Hn _ eq_refl) Hst1) _ _ H).
      * apply supp_ret in H. injection H as -> _. exact Hr1.
Qed.

Lemma act_loop_total (fuel : nat) (self : Tabular.Agent env) (state : list Q) :
  ready self0 self ->
  index_ok (Tabular.shape self0) (Tabular.get_discrete_state self0 state) ->
  mass (Tabular.act_loop fuel self state) == 1.
Proof.
  revert self state. induction fuel as [| fuel IH]; intros self state Hr Hi;
    cbn [Tabular.act_loop].
  - apply mass_ret.
  - cbv zeta. pose proof (index_of_observation self state Hr Hi) as Hc.
    destruct (q_row_of_index _ _ Hr Hc) as [row [Erow [Hlen Hne]]].
    apply (mass_some _ _ _ Erow).
    destruct (selection_of_row row 0 Hlen Hne) as [Hsel Hin]; [lra | lra |].
    apply mass_bind; [exact Hsel |].
    intros action Hact. pose proof (Hin _ Hact) as Ha.
    destruct env_ok as [_ Hstep].
    destruct (Hstep (Tabular.world self) action Ha) as [Hm Hobs].
    apply mass_bind; [exact Hm |].
    intros [[[w state'] reward] done] Hs.
    destruct done; [apply mass_ret |].
    apply IH; [apply ready_world; exact Hr | exact (Hobs _ _ _ _ Hs)].
Qed.

Lemma act_total (fuel : nat) (self : Tabular.Agent env) :
  ready self0 self -> mass (Tabular.act fuel self) == 1.
Proof.
  intros Hr. unfold Tabular.act. destruct env_ok as [Hreset _].
  destruct (Hreset (Tabular.world self)) as [Hm Hobs].
  apply mass_bind; [exact Hm |].
  intros [w state] Hs.
  apply mass_bind; [apply act_loop_total; [apply ready_world; exact Hr | exact (Hobs _ _ Hs)] |].
  intros [self1 fin] _. apply mass_ret.
Qed.

Lemma sarsa_run_episode_total (fuel : nat) (self : Tabular.Agent env) (episode : nat) :
  ready self0 self ->
  mass (SarsaAgent.run_episode fuel self episode) == 1.
Proof.
  intros Hr. unfold SarsaAgent.run_episode. cbv zeta.
  destruct env_ok as [Hreset _].
  destruct (Hreset (Tabular.world self)) as [Hm Hobs].
  apply mass_bind; [exact Hm |].
  intros [w obs] Hs.
  set (self1 := Tabular.set_world
                  (Tabular.set_stats self (Tabular.stats_rewards self ++ [0])) w).
  assert (Hr0 : ready self0 self1) by exact Hr.
  pose proof (index_of_observation self1 obs Hr0 (Hobs _ _ Hs)) as Hc.
  destruct (q_row_of_index _ _ Hr0 Hc) as [row [Erow [Hlen Hne]]].
  apply (mass_some _ _ _ Erow).
  pose proof Hr0 as [[_ [_ [H0 H1]]] _].
  destruct (selection_of_row row (Tabular.epsilon self1) Hlen Hne H0 H1) as [Hsel Hin].
  apply mass_bind; [exact Hsel |].
  intros action Hact. pose proof (Hin _ Hact) as Ha.
  assert (Hst : Tabular.stats_rewards self1 <> [])
    by (subst self1; simpl; intros E; destruct (Tabular.stats_rewards self); discriminate).
  destruct (sarsa_loop_total fuel self1 _ action Hr0 Hc Ha Hst) as [Hloop Hkeep].
  apply mass_bind; [exact Hloop |].
  intros [self2 fin] Hl. specialize (Hkeep _ _ Hl).
  destruct fin; cbn [negb]; cbv iota; [| apply mass_ret].
  destruct (_ && _)%bool; [apply act_total; exact Hkeep | apply mass_ret].
Qed.

Lemma q_learning_run_episode_total (fuel : nat) (self : Tabular.Agent env)
  (episode : nat) :
  ready self0 self ->
  mass (QLearningAgent.run_episode fuel self episode) == 1.
Proof.
  intros Hr. unfold QLearningAgent.run_episode. cbv zeta.
  destruct env_ok as [Hreset _].
  destruct (Hreset (Tabular.world self)) as [Hm Hobs].
  apply mass_bind; [exact Hm |].
  intros [w obs] Hs.
  set (self1 := Tabular.set_world
                  (Tabular.set_stats self (Tabular.stats_rewards self ++ [0])) w).
  assert (Hr0 : ready self0 self1) by exact Hr.
  pose proof (index_of_observation self1 obs Hr0 (Hobs _ _ Hs)) as Hc.
  assert (Hst : Tabular.stats_rewards self1 <> [])
    by (subst self1; simpl; intros E; destruct (Tabular.stats_rewards self); discriminate).
  destruct (q_learning_loop_total fuel self1 _ Hr0 Hc Hst) as [Hloop Hkeep].
  apply mass_bind; [exact Hloop |].
  intros [self2 fin] Hl. specialize (Hkeep _ _ Hl).
  destruct fin; cbn [negb]; cbv iota; [| apply mass_ret].
  destruct (_ && _)%bool; [apply act_total; exact Hkeep | apply mass_ret].
Qed.

Lemma ready_kept :
  (forall (self : Tabular.Agent env) w,
      ready self0 self -> ready self0 (Tabular.set_world self w))
  /\ (forall (self : Tabular.Agent env) r,
        ready self0 self -> ready self0 (Tabular.set_stats self r))
  /\ (forall (self : Tabular.Agent env) state action self' next,
        ready self0 self -> supp (SarsaAgent.step self state action) (self', next) ->
        ready self0 self')
  /\ (forall (self : Tabular.Agent env) state self' next,
        ready self0 self -> supp (QLearningAgent.step self state) (self', next) ->
        ready self0 self').
Proof.
  split; [exact ready_world |]. split; [exact ready_stats |]. split.
  - intros self state action self' next Hr H. apply sarsa_step_law in H.
    destruct H as [w [new_obs [reward [done [next_row [new_action [target [q_old [cell H]]]]]]]]].
    destruct H as [_ [_ [_ [_ [_ [Hold [Hnew [Ho [Hsetup _]]]]]]]]].
    apply (ready_setup self self' Hr Hsetup).
    exact (rows_after_update self self' cell action q_old _ Hold Hnew Ho).
  - intros self state self' next Hr H. apply q_learning_step_law in H.
    destruct H as [row [action [w [new_obs [reward [done [target [q_old [cell H]]]]]]]]].
    destruct H as [_ [_ [_ [_ [_ [Hold [Hnew [Ho [Hsetup _]]]]]]]]].
    apply (ready_setup self self' Hr Hsetup).
    exact (rows_after_update self self' cell action q_old _ Hold Hnew Ho).
Qed.

Lemma sarsa_run_episodes_total (fuel : nat) (episodes : list nat)
  (self : Tabular.Agent env) :
  ready self0 self -> mass (SarsaAgent.run_episodes fuel self episodes) == 1.
Proof.
  revert self. induction episodes as [| episode rest IH]; intros self Hr;
    cbn [SarsaAgent.run_episodes].
  - apply mass_ret.
  - apply mass_bind; [apply sarsa_run_episode_total; exact Hr |].
    intros [self1 fin] He.
    destruct ready_kept as [K1 [K2 [K3 _]]].
    pose proof (sarsa_run_episode_keeps (ready self0) K1 K2 K3 _ _ _ _ _ Hr He) as Hr1.
    destruct fin; [apply IH; exact Hr1 | apply mass_ret].
Qed.

Lemma q_learning_run_episodes_total (fuel : nat) (episodes : list nat)
  (self : Tabular.Agent env) :
  ready self0 self -> mass (QLearningAgent.run_episodes fuel self episodes) == 1.
Proof.
  revert self. induction episodes as [| episode rest IH]; intros self Hr;
    cbn [QLearningAgent.run_episodes].
  - apply mass_ret.
  - apply mass_bind; [apply q_learning_run_episode_total; exact Hr |].
    intros [self1 fin] He.
    destruct ready_kept as [K1 [K2 [_ K4]]].
    pose proof (q_learning_run_episode_keeps (ready self0) K1 K2 K4 _ _ _ _ _ Hr He) as Hr1.
    destruct fin; [apply IH; exact Hr1 | apply mass_ret].
Qed.

End TabularTotal.


(** The agent the constructor returns is well-formed as soon as the
    environment has an action. *)
Lemma init_well_formed (env : Env) (w : env_state env) (num_grids : list Z) :
  (0 < action_n env)%nat -> well_formed (Tabular.init env w num_grids).
Proof.
  intros Hn. split; [| split; [exact Hn |]].
  - intros cell. apply repeat_length.
  - split; unfold Qle; simpl; lia.
Qed.

(** The corridor stays in the table of the agent with two cells: its
    observations 0, 1/4 and 1/2 get the indices 0, 0 and 1. *)
Lemma corridor_in_table :
  env_in_table Toy.corridor (Tabular.get_discrete_state Toy.tabular_agent)
               (Tabular.shape Toy.tabular_agent).
Proof.
  assert (I0 : index_ok [2%Z] [0%Z]) by (constructor; [lia | constructor]).
  assert (I1 : index_ok [2%Z] [1%Z]) by (constructor; [lia | constructor]).
  split.
  - intros s. split; [exact (mass_ret _) |].
    intros w obs H. apply supp_ret in H. injection H as _ ->. exact I0.
  - intros s a _. simpl. destruct (Nat.eqb a 0).
    + split; [exact (mass_ret _) |].
      intros w obs reward done H. apply supp_ret in H. injection H as _ -> _ _.
      exact I0.
    + split; [exact (mass_ret _) |].
      intros w obs reward done H. apply supp_ret in H. injection H as _ -> _ _.
      exact I1.
Qed.


(** X24: the discretizer can leave the table from inside the observation
    space.  On the unit interval cut into three cells the cell width is
    the double nearest to 1/3, which is less than 1/3; the largest double
    below 1, an observation strictly inside [[low, high)], divided by it
    rounds to 3.0 and gets the index 3, one past the last cell, and the
    lookup of its row is an IndexError. *)
Theorem X24_interior_observation_out_of_range :
  obs_low Toy.corridor = [0] /\ obs_high Toy.corridor = [1]
  /\ 0 <= Toy.below_one /\ Toy.below_one < 1
  /\ F64.of_Q Toy.below_one = S754_finite false (2 ^ 53 - 1) (-53)
  /\ Tabular.shape Toy.tabular_three = [3%Z]
  /\ Tabular.get_discrete_state Toy.tabular_three [Toy.below_one] = [3%Z]
  /\ Tabular.q_row Toy.tabular_three
                   (Tabular.get_discrete_state Toy.tabular_three [Toy.below_one])
     = None.
Proof.
  split; [reflexivity |]. split; [reflexivity |].
  split; [unfold Qle; simpl; lia |]. split; [unfold Qlt; simpl; lia |].
  split; [vm_compute; reflexivity |]. split; [reflexivity |].
  split; vm_compute; reflexivity.
Qed.

(** ** Q-learning at the end of an episode *)



(** ** REINFORCE: the loss *)

Lemma taken_prob_one_hot (n k : nat) (action prob : list Q) :
  PGAgent.one_hot n k = Some action -> length prob = n ->
  PGAgent.taken_prob action prob == nth k prob 0.
Proof. exact (dot_one_hot n k action prob). Qed.

Lemma weighted_sum_ext (l1 l2 returns : list Q) :
  Forall2 Qeq l1 l2 ->
  Np.sum_list (Np.zip_with Qmult l1 returns) == Np.sum_list (Np.zip_with Qmult l2 returns).
Proof.
  intros H. revert returns. induction H as [| x y l1 l2 E _ IH]; intros returns.
  - reflexivity.
  - destruct returns as [| g returns]; [reflexivity |].
    simpl. unfold Np.sum_list in IH. rewrite (IH returns), E. reflexivity.
Qed.

(** X23: the loss of the REINFORCE agent is the policy-gradient loss.
    With the recorded actions the one-hot rows of the actions [ks] taken,
    and a policy network with one output per action, the loss that [train]
    hands to the optimizer is, as a function of the weights [w],
    [- sum_t log(pi_w(k_t | s_t)) * G_t]: the sum against the one-hot row
    picks the probability of the action taken. *)
Theorem X23_reinforce_loss {net : Net} (log : Q -> Q) (n : nat) (w : net_weights net)
  (states : list (list Q)) (ks : list nat) (actions : list (list Q)) (returns : list Q) :
  (forall x y, x == y -> log x == log y) ->
  Forall2 (fun k a => PGAgent.one_hot n k = Some a) ks actions ->
  (forall s, In s states -> length (net_predict net w s) = n) ->
  PGAgent.loss log states actions returns w
  == - Np.sum_list
         (Np.zip_with Qmult
            (Np.zip_with (fun k s => log (nth k (net_predict net w s) 0)) ks states)
            returns).
Proof.
  intros Hlog Hhot Hlen. unfold PGAgent.loss. apply Qopp_comp. apply weighted_sum_ext.
  revert states Hlen. induction Hhot as [| k a ks actions Hk _ IH]; intros states Hlen.
  - constructor.
  - destruct states as [| s states]; simpl; constructor.
    + apply Hlog. apply (taken_prob_one_hot n); [exact Hk |].
      apply Hlen. left. reflexivity.
    + apply IH. intros s' Hs'. apply Hlen. right. exact Hs'.
Qed.

Lemma X23_reinforce_loss_witness :
  (forall x y, x == y -> Toy.ac_log x == Toy.ac_log y)
  /\ Forall2 (fun k a => PGAgent.one_hot 2 k = Some a) [0%nat] [[1; 0]]
  /\ @PGAgent.loss Toy.bias_net Toy.ac_log [[0]] [[1; 0]] [1] [1 # 2; 1 # 2]
     == - Np.sum_list
            (Np.zip_with Qmult
               (Np.zip_with
                  (fun k s => Toy.ac_log (nth k (net_predict Toy.bias_net [1 # 2; 1 # 2] s) 0))
                  [0%nat] [[0]])
               [1]).
Proof.
  assert (Hlog : forall x y, x == y -> Toy.ac_log x == Toy.ac_log y).
  { intros x y E. unfold Toy.ac_log. rewrite E. reflexivity. }
  assert (Hhot : Forall2 (fun k a => PGAgent.one_hot 2 k = Some a) [0%nat] [[1; 0]]).
  { constructor; [reflexivity | constructor]. }
  split; [exact Hlog |]. split; [exact Hhot |].
  apply (@X23_reinforce_loss Toy.bias_net Toy.ac_log 2 [1 # 2; 1 # 2] [[0]] [0%nat]
           [[1; 0]] [1] Hlog Hhot).
  intros s _. reflexivity.
Defined.
